(** * Calico Whisker MCP server: flow aggregation, blocked-flow analysis,
      policy drafts and request validation

    A shallow embedding of [dist/services/calico-whisker.js],
    [dist/services/log-filter.js], the kubeconfig readers of
    [dist/services/kubernetes.js], and the tool handlers and the
    dispatcher of the server entry point, followed by the properties
    established about them.

    Conventions of the embedding:
    - JavaScript strings are [string] (byte strings); the relational
      operators on strings are the lexicographic order on bytes, which is
      the code-unit order of JavaScript on ASCII text.
    - JavaScript numbers that hold counters, ports and indices are
      integers, held as [Z]; a sum of counters is rounded as a sum of
      doubles is ([Js.add]).
    - A field that may be [null] or [undefined] is an [option].
    - A JavaScript [Map] or [Set] is a list in insertion order.
    - A promise is its state, pending, fulfilled or broken, and an
      [await] yields [Resolved v] or [Rejected e].
    - The host is a parameter: what the backend answers to a fetch;
      what a [spawn] of [kubectl] or [jq] comes to (a function of its
      arguments: an exception thrown at once, or the events of the
      process); the file system, the YAML loader and the values it
      returns, with what JavaScript does to them; the wording of the
      [TypeError]s of the engine; [localeCompare] and the parsing of
      dates. *)

From Stdlib Require Import ZArith List String Ascii Bool Lia.
From Stdlib Require Import Permutation OrdersEx DecimalString ListSet.
From Stdlib Require Import RelationClasses Morphisms Sorted DecimalPos.
Import ListNotations.

Set Warnings "-register-all".

Local Open Scope string_scope.
Local Open Scope list_scope.
Local Open Scope Z_scope.

(* ===================================================================== *)
(** ** JavaScript primitives used by the services *)
(* ===================================================================== *)

Module Js.

(** [Boolean(s)] for a string: only the empty string is falsy. *)
Definition truthy (s : string) : bool := negb (s =? "")%string.

(** [Boolean(x)] for a string that may be [undefined] or [null]. *)
Definition truthyOpt (o : option string) : bool :=
  match o with
  | Some s => truthy s
  | None => false
  end.

(** [String(n)] for an integral number. *)
Definition numberToString (z : Z) : string :=
  NilZero.string_of_int (Z.to_int z).

(** Numbers are doubles.  The counters of the flow logs are integers
    and are held as [Z]; every integer up to [maxExact] in absolute
    value is a double.  [roundDouble z] is the double nearest to the
    integer [z], a tie going to the even mantissa (below the largest
    finite double; infinities are not represented). *)
Definition maxExact : Z := 2 ^ 53.

Definition roundDouble (z : Z) : Z :=
  let m := Z.abs z in
  if m <=? maxExact then z
  else
    let e := Z.log2 m - 52 in
    let q := Z.shiftr m e in
    let r := m - Z.shiftl q e in
    let half := Z.shiftl 1 (e - 1) in
    let q' := if (half <? r) || ((r =? half) && Z.odd q) then q + 1 else q in
    Z.sgn z * Z.shiftl q' e.

(** [a + b] and [a - b] on numbers. *)
Definition add (a b : Z) : Z := roundDouble (a + b).
Definition sub (a b : Z) : Z := roundDouble (a - b).

(** How [Array.prototype.join] renders a number that may be [null]. *)
Definition joinItem (n : option Z) : string :=
  match n with
  | Some z => numberToString z
  | None => ""
  end.

(** How a template literal renders a number that may be [null]. *)
Definition templateItem (n : option Z) : string :=
  match n with
  | Some z => numberToString z
  | None => "null"
  end.

(** [parts.join(sep)] *)
Definition join (sep : string) (parts : list string) : string :=
  String.concat sep parts.

(** [a < b] on strings. *)
Definition lt (a b : string) : bool :=
  match String_as_OT.compare a b with
  | Lt => true
  | _ => false
  end.

(** [a > b] on strings. *)
Definition gt (a b : string) : bool := lt b a.

(** [s.split(sep)] for a one-character separator. *)
Fixpoint split (sep : ascii) (s : string) : list string :=
  match s with
  | EmptyString => [EmptyString]
  | String c rest =>
      if Ascii.eqb c sep then EmptyString :: split sep rest
      else match split sep rest with
           | [] => [String c EmptyString]
           | seg :: segs => String c seg :: segs
           end
  end.

Definition isSpace (c : ascii) : bool :=
  let n := nat_of_ascii c in
  ((n =? 32) || ((9 <=? n) && (n <=? 13)))%nat.

Fixpoint trimStart (s : string) : string :=
  match s with
  | EmptyString => EmptyString
  | String c rest => if isSpace c then trimStart rest else s
  end.

Fixpoint trimEnd (s : string) : string :=
  match s with
  | EmptyString => EmptyString
  | String c rest =>
      match trimEnd rest with
      | EmptyString => if isSpace c then EmptyString else String c EmptyString
      | rest' => String c rest'
      end
  end.

(** [s.trim()] (ASCII white space). *)
Definition trim (s : string) : string := trimEnd (trimStart s).

(** [hay.includes(needle)] *)
Fixpoint includes (needle hay : string) : bool :=
  String.prefix needle hay
  || match hay with
     | EmptyString => false
     | String _ rest => includes needle rest
     end.

Definition mapChars (f : ascii -> ascii) (s : string) : string :=
  string_of_list_ascii (List.map f (list_ascii_of_string s)).

Definition upperChar (c : ascii) : ascii :=
  let n := nat_of_ascii c in
  if ((97 <=? n) && (n <=? 122))%nat then ascii_of_nat (n - 32) else c.

Definition lowerChar (c : ascii) : ascii :=
  let n := nat_of_ascii c in
  if ((65 <=? n) && (n <=? 90))%nat then ascii_of_nat (n + 32) else c.

(** [s.toUpperCase()] and [s.toLowerCase()] (ASCII letters). *)
Definition toUpperCase : string -> string := mapChars upperChar.
Definition toLowerCase : string -> string := mapChars lowerChar.

(** [s.replace(/[^a-z0-9]/g, '-')] *)
Definition dashNonAlnum (c : ascii) : ascii :=
  let n := nat_of_ascii c in
  if (((97 <=? n) && (n <=? 122)) || ((48 <=? n) && (n <=? 57)))%nat
  then c else "-"%char.

Definition digitValue (radix : Z) (c : ascii) : option Z :=
  let n := Z.of_nat (nat_of_ascii c) in
  let v :=
    if (48 <=? n) && (n <=? 57) then Some (n - 48)
    else if (97 <=? n) && (n <=? 122) then Some (n - 87)
    else if (65 <=? n) && (n <=? 90) then Some (n - 55)
    else None in
  match v with
  | Some d => if d <? radix then Some d else None
  | None => None
  end.

(** The longest prefix of digits of [s] in [radix], accumulated. *)
Fixpoint digits (radix : Z) (s : string) (acc : option Z) : option Z :=
  match s with
  | EmptyString => acc
  | String c rest =>
      match digitValue radix c with
      | Some d =>
          digits radix rest
            (Some (match acc with Some a => a * radix + d | None => d end))
      | None => acc
      end
  end.

Definition unsignedInt (s : string) : option Z :=
  match s with
  | String "0" (String "x" rest) => digits 16 rest None
  | String "0" (String "X" rest) => digits 16 rest None
  | _ => digits 10 s None
  end.

(** [parseInt(s)]; [None] is [NaN]. *)
Definition parseInt (s : string) : option Z :=
  match trimStart s with
  | String "-" rest => option_map Z.opp (unsignedInt rest)
  | String "+" rest => unsignedInt rest
  | rest => unsignedInt rest
  end.

(** [[...new Set(xs)]]: first occurrences, in order. *)
Definition unique (xs : list string) : list string :=
  fold_left (fun s x => set_add string_dec x s) xs [].

Fixpoint insertSorted (x : string) (xs : list string) : list string :=
  match xs with
  | [] => [x]
  | y :: ys => if lt x y then x :: xs else y :: insertSorted x ys
  end.

(** [xs.sort()] on an array of strings. *)
Definition sortStrings (xs : list string) : list string :=
  fold_right insertSorted [] xs.

(** [xs.sort(cmp)]: stable, [cmp a b > 0] puts [b] first. *)
Fixpoint insertBy {A : Type} (cmp : A -> A -> Z) (x : A) (ys : list A)
  : list A :=
  match ys with
  | [] => [x]
  | y :: ys' => if 0 <? cmp x y then y :: insertBy cmp x ys' else x :: ys
  end.

Definition sort {A : Type} (cmp : A -> A -> Z) (xs : list A) : list A :=
  fold_right (insertBy cmp) [] xs.

(** A [Map] with string keys: entries in insertion order. *)
Definition Map (V : Type) : Type := list (string * V).

Fixpoint mapGet {V : Type} (k : string) (m : Map V) : option V :=
  match m with
  | [] => None
  | (k', v) :: m' => if (k' =? k)%string then Some v else mapGet k m'
  end.

(** [m.set(k, v)]: an existing key keeps its position. *)
Fixpoint mapSet {V : Type} (k : string) (v : V) (m : Map V) : Map V :=
  match m with
  | [] => [(k, v)]
  | (k', v') :: m' =>
      if (k' =? k)%string then (k', v) :: m' else (k', v') :: mapSet k v m'
  end.

Definition mapKeys {V : Type} (m : Map V) : list string := List.map fst m.
Definition mapValues {V : Type} (m : Map V) : list V := List.map snd m.

(** A promise, and the only way the code at hand settles one: a call
    of [resolve], which has no effect on a promise already settled. *)
Inductive Promise (A : Type) : Type :=
| Pending
| Fulfilled (value : A)
| Broken (message : string).
Arguments Pending {A}.
Arguments Fulfilled {A} value.
Arguments Broken {A} message.

Definition resolve {A : Type} (value : A) (promise : Promise A) : Promise A :=
  match promise with
  | Pending => Fulfilled value
  | settled => settled
  end.

(** What an [await] yields. *)
Inductive Settled (A : Type) : Type :=
| Resolved (value : A)
| Rejected (message : string).
Arguments Resolved {A} value.
Arguments Rejected {A} message.

(** [await promise], once the host has nothing more to deliver.  An
    [await] on a promise that is still pending then never returns; it
    is counted as a failure. *)
Definition await {A : Type} (promise : Promise A) : Settled A :=
  match promise with
  | Fulfilled value => Resolved value
  | Broken message => Rejected message
  | Pending => Rejected "the promise never settles"
  end.

End Js.

(* ===================================================================== *)
(** ** Data model of [calico-whisker.js] *)
(* ===================================================================== *)

Module Policy.
(** [interface Policy]; [trigger] is [Policy | null]. *)
Inductive t : Type := make {
  kind : string;
  name : string;
  namespace : string;
  tier : string;
  action : string;
  policy_index : Z;
  rule_index : Z;
  trigger : option t
}.
End Policy.

Module Policies.
(** [log.policies]; either list may be missing. *)
Record t : Type := make {
  enforced : option (list Policy.t);
  pending : option (list Policy.t)
}.
End Policies.

Module FlowLog.
(** [interface FlowLog]; [dest_port] may be [null]. *)
Record t : Type := make {
  start_time : string;
  end_time : string;
  action : string;
  source_name : string;
  source_namespace : string;
  source_labels : string;
  dest_name : string;
  dest_namespace : string;
  dest_labels : string;
  protocol : string;
  dest_port : option Z;
  reporter : string;
  policies : option Policies.t;
  packets_in : Z;
  packets_out : Z;
  bytes_in : Z;
  bytes_out : Z
}.
End FlowLog.

Module Flow.
(** A value of [flowMap] in [getNamespaceFlowSummary]. *)
Record t : Type := make {
  source : string;
  sourceNamespace : string;
  destination : string;
  destNamespace : string;
  protocol : string;
  port : option Z;
  sourceAction : string;
  destAction : string;
  packetsIn : Z;
  packetsOut : Z;
  bytesIn : Z;
  bytesOut : Z;
  startTime : string;
  endTime : string;
  sourcePolicies : list string;
  destPolicies : list string;
  enforcedPolicies : list Policy.t
}.
End Flow.

(* ===================================================================== *)
(** ** The flow map of [getNamespaceFlowSummary] *)
(* ===================================================================== *)

Module Aggregator.

(** [log.policies?.enforced], an absent list having nothing to visit. *)
Definition enforcedOf (log : FlowLog.t) : list Policy.t :=
  match FlowLog.policies log with
  | Some p =>
      match Policies.enforced p with
      | Some ps => ps
      | None => []
      end
  | None => []
  end.

Definition pendingOf (log : FlowLog.t) : list Policy.t :=
  match FlowLog.policies log with
  | Some p =>
      match Policies.pending p with
      | Some ps => ps
      | None => []
      end
  | None => []
  end.

(** The key of a record: seven fields joined with a bar. *)
Definition flowKey (log : FlowLog.t) : string :=
  Js.join "|"
    [ FlowLog.source_name log;
      FlowLog.source_namespace log;
      FlowLog.dest_name log;
      FlowLog.dest_namespace log;
      FlowLog.protocol log;
      Js.joinItem (FlowLog.dest_port log);
      FlowLog.action log ].

(** [`${policy.name} (${policy.namespace})`] *)
Definition policyName (policy : Policy.t) : string :=
  (Policy.name policy ++ " (" ++ Policy.namespace policy ++ ")")%string.

(** One turn of the [forEach] over the enforced policies of a record
    reported by [reporter]. *)
Definition recordPolicy (reporter : string) (flow : Flow.t)
    (policy : Policy.t) : Flow.t :=
  let policyName := policyName policy in
  {| Flow.source := Flow.source flow;
     Flow.sourceNamespace := Flow.sourceNamespace flow;
     Flow.destination := Flow.destination flow;
     Flow.destNamespace := Flow.destNamespace flow;
     Flow.protocol := Flow.protocol flow;
     Flow.port := Flow.port flow;
     Flow.sourceAction := Flow.sourceAction flow;
     Flow.destAction := Flow.destAction flow;
     Flow.packetsIn := Flow.packetsIn flow;
     Flow.packetsOut := Flow.packetsOut flow;
     Flow.bytesIn := Flow.bytesIn flow;
     Flow.bytesOut := Flow.bytesOut flow;
     Flow.startTime := Flow.startTime flow;
     Flow.endTime := Flow.endTime flow;
     Flow.sourcePolicies :=
       if (reporter =? "Src")%string
       then set_add string_dec policyName (Flow.sourcePolicies flow)
       else Flow.sourcePolicies flow;
     Flow.destPolicies :=
       if (reporter =? "Src")%string then Flow.destPolicies flow
       else if (reporter =? "Dst")%string
       then set_add string_dec policyName (Flow.destPolicies flow)
       else Flow.destPolicies flow;
     Flow.enforcedPolicies := Flow.enforcedPolicies flow ++ [policy] |}.

(** The [else] branch: the first record of a key. *)
Definition newFlow (log : FlowLog.t) : Flow.t :=
  fold_left (recordPolicy (FlowLog.reporter log)) (enforcedOf log)
    {| Flow.source := FlowLog.source_name log;
       Flow.sourceNamespace := FlowLog.source_namespace log;
       Flow.destination := FlowLog.dest_name log;
       Flow.destNamespace := FlowLog.dest_namespace log;
       Flow.protocol := FlowLog.protocol log;
       Flow.port := FlowLog.dest_port log;
       Flow.sourceAction :=
         if (FlowLog.reporter log =? "Src")%string
         then FlowLog.action log else "N/A";
       Flow.destAction :=
         if (FlowLog.reporter log =? "Dst")%string
         then FlowLog.action log else "N/A";
       Flow.packetsIn := FlowLog.packets_in log;
       Flow.packetsOut := FlowLog.packets_out log;
       Flow.bytesIn := FlowLog.bytes_in log;
       Flow.bytesOut := FlowLog.bytes_out log;
       Flow.startTime := FlowLog.start_time log;
       Flow.endTime := FlowLog.end_time log;
       Flow.sourcePolicies := [];
       Flow.destPolicies := [];
       Flow.enforcedPolicies := [] |}.

(** Counters and time range of the [if (flowMap.has(flowKey))] branch. *)
Definition addTraffic (existing : Flow.t) (log : FlowLog.t) : Flow.t :=
  {| Flow.source := Flow.source existing;
     Flow.sourceNamespace := Flow.sourceNamespace existing;
     Flow.destination := Flow.destination existing;
     Flow.destNamespace := Flow.destNamespace existing;
     Flow.protocol := Flow.protocol existing;
     Flow.port := Flow.port existing;
     Flow.sourceAction := Flow.sourceAction existing;
     Flow.destAction := Flow.destAction existing;
     Flow.packetsIn := Js.add (Flow.packetsIn existing) (FlowLog.packets_in log);
     Flow.packetsOut := Js.add (Flow.packetsOut existing) (FlowLog.packets_out log);
     Flow.bytesIn := Js.add (Flow.bytesIn existing) (FlowLog.bytes_in log);
     Flow.bytesOut := Js.add (Flow.bytesOut existing) (FlowLog.bytes_out log);
     Flow.startTime :=
       if Js.lt (FlowLog.start_time log) (Flow.startTime existing)
       then FlowLog.start_time log else Flow.startTime existing;
     Flow.endTime :=
       if Js.gt (FlowLog.end_time log) (Flow.endTime existing)
       then FlowLog.end_time log else Flow.endTime existing;
     Flow.sourcePolicies := Flow.sourcePolicies existing;
     Flow.destPolicies := Flow.destPolicies existing;
     Flow.enforcedPolicies := Flow.enforcedPolicies existing |}.

(** The conditions guarding the two concatenations with [+]. *)
Definition sourceConflict (existing : Flow.t) (log : FlowLog.t) : bool :=
  (FlowLog.reporter log =? "Src")%string
  && negb (Flow.sourceAction existing =? "N/A")%string
  && negb (Flow.sourceAction existing =? FlowLog.action log)%string.

Definition destConflict (existing : Flow.t) (log : FlowLog.t) : bool :=
  negb (FlowLog.reporter log =? "Src")%string
  && (FlowLog.reporter log =? "Dst")%string
  && negb (Flow.destAction existing =? "N/A")%string
  && negb (Flow.destAction existing =? FlowLog.action log)%string.

(** "Update actions based on reporter". *)
Definition updateActions (existing : Flow.t) (log : FlowLog.t) : Flow.t :=
  {| Flow.source := Flow.source existing;
     Flow.sourceNamespace := Flow.sourceNamespace existing;
     Flow.destination := Flow.destination existing;
     Flow.destNamespace := Flow.destNamespace existing;
     Flow.protocol := Flow.protocol existing;
     Flow.port := Flow.port existing;
     Flow.sourceAction :=
       if (FlowLog.reporter log =? "Src")%string then
         if sourceConflict existing log
         then (Flow.sourceAction existing ++ "+" ++ FlowLog.action log)%string
         else FlowLog.action log
       else Flow.sourceAction existing;
     Flow.destAction :=
       if (FlowLog.reporter log =? "Src")%string then Flow.destAction existing
       else if (FlowLog.reporter log =? "Dst")%string then
         if destConflict existing log
         then (Flow.destAction existing ++ "+" ++ FlowLog.action log)%string
         else FlowLog.action log
       else Flow.destAction existing;
     Flow.packetsIn := Flow.packetsIn existing;
     Flow.packetsOut := Flow.packetsOut existing;
     Flow.bytesIn := Flow.bytesIn existing;
     Flow.bytesOut := Flow.bytesOut existing;
     Flow.startTime := Flow.startTime existing;
     Flow.endTime := Flow.endTime existing;
     Flow.sourcePolicies := Flow.sourcePolicies existing;
     Flow.destPolicies := Flow.destPolicies existing;
     Flow.enforcedPolicies := Flow.enforcedPolicies existing |}.

(** The [if (flowMap.has(flowKey))] branch as a whole. *)
Definition mergeFlow (existing : Flow.t) (log : FlowLog.t) : Flow.t :=
  updateActions
    (fold_left (recordPolicy (FlowLog.reporter log)) (enforcedOf log)
       (addTraffic existing log))
    log.

(** The body of [namespaceLogs.forEach]; [flowMap.has] followed by
    [flowMap.get] is one lookup. *)
Definition step (flowMap : Js.Map Flow.t) (log : FlowLog.t)
  : Js.Map Flow.t :=
  let flowKey := flowKey log in
  match Js.mapGet flowKey flowMap with
  | Some existing => Js.mapSet flowKey (mergeFlow existing log) flowMap
  | None => Js.mapSet flowKey (newFlow log) flowMap
  end.

(** [flowMap] once every record has been visited. *)
Definition aggregate (namespaceLogs : list FlowLog.t) : Js.Map Flow.t :=
  fold_left step namespaceLogs [].

(** Whether visiting [namespaceLogs] ever takes a concatenation branch. *)
Fixpoint conflictFrom (flowMap : Js.Map Flow.t)
    (namespaceLogs : list FlowLog.t) : bool :=
  match namespaceLogs with
  | [] => false
  | log :: rest =>
      match Js.mapGet (flowKey log) flowMap with
      | Some existing => sourceConflict existing log || destConflict existing log
      | None => false
      end
      || conflictFrom (step flowMap log) rest
  end.

Definition conflictBranchTaken (namespaceLogs : list FlowLog.t) : bool :=
  conflictFrom [] namespaceLogs.

End Aggregator.

(* ===================================================================== *)
(** ** The document built by [getNamespaceFlowSummary] *)
(* ===================================================================== *)

Module Endpoint.
Record t : Type := make {
  name : string;
  namespace : string;
  action : string;
  policies : list string
}.
End Endpoint.

Module PolicyDetail.
Record t : Type := make {
  name : string;
  namespace : string;
  kind : string;
  tier : string;
  action : string;
  policyIndex : Z;
  ruleIndex : Z
}.
End PolicyDetail.

Module FlowView.
(** An element of [flows]; nested objects are flattened
    ([connection.port] is [connection_port], and so on). *)
Record t : Type := make {
  source : Endpoint.t;
  destination : Endpoint.t;
  connection_protocol : string;
  connection_port : option Z;
  enforcement_totalPolicies : Z;
  enforcement_uniquePolicies : list string;
  enforcement_policyDetails : list PolicyDetail.t;
  traffic_packets_in : Z;
  traffic_packets_out : Z;
  traffic_packets_total : Z;
  traffic_bytes_in : Z;
  traffic_bytes_out : Z;
  traffic_bytes_total : Z;
  timeRange_start : string;
  timeRange_end : string;
  timeRange_duration : option Z;
  status : string
}.
End FlowView.

Module SecurityAlerts.
Record t : Type := make {
  message : string;
  blockedFlows : list string
}.
End SecurityAlerts.

Module SummaryDoc.
Record t : Type := make {
  namespace : string;
  analysis_totalUniqueFlows : Z;
  analysis_totalLogEntries : Z;
  analysis_timeWindow_start : option string;
  analysis_timeWindow_end : option string;
  analysis_timeWindow_duration : option Z;
  statistics_flows_total : Z;
  statistics_flows_allowed : Z;
  statistics_flows_blocked : Z;
  statistics_traffic_totalPackets : Z;
  statistics_traffic_totalBytes : Z;
  statistics_policies_totalPolicyApplications : Z;
  statistics_policies_uniquePolicies : Z;
  statistics_policies_uniquePolicyNames : list string;
  statistics_policies_tiers : list string;
  statistics_policies_kinds : list string;
  flows : list FlowView.t;
  securityAlerts : option SecurityAlerts.t
}.
End SummaryDoc.

Module NoFlowsDoc.
(** The document returned when no record touches the namespace. *)
Record t : Type := make {
  namespace : string;
  error : string;
  totalFlows : Z;
  totalLogEntries : Z;
  flows : list FlowView.t
}.
End NoFlowsDoc.

Module Summary.

Inductive Result : Type :=
| NoFlows (doc : NoFlowsDoc.t)
| Summarised (doc : SummaryDoc.t).

Definition len {A : Type} (xs : list A) : Z := Z.of_nat (List.length xs).

Definition BLOCKED : string := "🚨 BLOCKED".
Definition ALLOWED : string := "✅ ALLOWED".

(** "Helper function to add emojis to actions". *)
Definition formatAction (action : string) : string :=
  if (action =? "Allow")%string then "✅ Allow"
  else if (action =? "Deny")%string then "🚨 Deny"
  else if (action =? "N/A")%string then "❌ N/A"
  else action.

Definition policyDetail (policy : Policy.t) : PolicyDetail.t :=
  {| PolicyDetail.name := Policy.name policy;
     PolicyDetail.namespace := Policy.namespace policy;
     PolicyDetail.kind := Policy.kind policy;
     PolicyDetail.tier := Policy.tier policy;
     PolicyDetail.action := Policy.action policy;
     PolicyDetail.policyIndex := Policy.policy_index policy;
     PolicyDetail.ruleIndex := Policy.rule_index policy |}.

(** [`${p.name} (${p.namespace})`] on a policy detail. *)
Definition detailName (p : PolicyDetail.t) : string :=
  (PolicyDetail.name p ++ " (" ++ PolicyDetail.namespace p ++ ")")%string.

(** [a - b] on numbers that may be [NaN]. *)
Definition minus (a b : option Z) : option Z :=
  match a, b with
  | Some x, Some y => Some (Js.sub x y)
  | _, _ => None
  end.

(** [`${flow.source.name} → ${flow.destination.name}:${flow.connection.port}`] *)
Definition alertLine (flow : FlowView.t) : string :=
  (Endpoint.name (FlowView.source flow) ++ " → "
   ++ Endpoint.name (FlowView.destination flow) ++ ":"
   ++ Js.templateItem (FlowView.connection_port flow))%string.

Section WithRuntime.

(** [a.localeCompare(b)] and [new Date(s).getTime()] belong to the
    host; [None] is [NaN]. *)
Variable localeCompare : string -> string -> Z.
Variable getTime : string -> option Z.

Definition byStartTime (a b : Flow.t) : Z :=
  localeCompare (Flow.startTime a) (Flow.startTime b).

(** The argument of [.map(flow => ({...}))]. *)
Definition view (flow : Flow.t) : FlowView.t :=
  {| FlowView.source :=
       {| Endpoint.name := Flow.source flow;
          Endpoint.namespace := Flow.sourceNamespace flow;
          Endpoint.action := formatAction (Flow.sourceAction flow);
          Endpoint.policies := Js.sortStrings (Flow.sourcePolicies flow) |};
     FlowView.destination :=
       {| Endpoint.name := Flow.destination flow;
          Endpoint.namespace := Flow.destNamespace flow;
          Endpoint.action := formatAction (Flow.destAction flow);
          Endpoint.policies := Js.sortStrings (Flow.destPolicies flow) |};
     FlowView.connection_protocol := Flow.protocol flow;
     FlowView.connection_port := Flow.port flow;
     FlowView.enforcement_totalPolicies := len (Flow.enforcedPolicies flow);
     FlowView.enforcement_uniquePolicies :=
       Js.sortStrings
         (Js.unique (List.map Aggregator.policyName (Flow.enforcedPolicies flow)));
     FlowView.enforcement_policyDetails :=
       List.map policyDetail (Flow.enforcedPolicies flow);
     FlowView.traffic_packets_in := Flow.packetsIn flow;
     FlowView.traffic_packets_out := Flow.packetsOut flow;
     FlowView.traffic_packets_total :=
       Js.add (Flow.packetsIn flow) (Flow.packetsOut flow);
     FlowView.traffic_bytes_in := Flow.bytesIn flow;
     FlowView.traffic_bytes_out := Flow.bytesOut flow;
     FlowView.traffic_bytes_total :=
       Js.add (Flow.bytesIn flow) (Flow.bytesOut flow);
     FlowView.timeRange_start := Flow.startTime flow;
     FlowView.timeRange_end := Flow.endTime flow;
     FlowView.timeRange_duration :=
       minus (getTime (Flow.endTime flow)) (getTime (Flow.startTime flow));
     FlowView.status :=
       if (Flow.sourceAction flow =? "Deny")%string
          || (Flow.destAction flow =? "Deny")%string
       then BLOCKED else ALLOWED |}.

(** [flows]: the values of the map, sorted by start time, viewed. *)
Definition flowsOf (flowMap : Js.Map Flow.t) : list FlowView.t :=
  List.map view (Js.sort byStartTime (Js.mapValues flowMap)).

Definition blockedOf (flows : list FlowView.t) : list FlowView.t :=
  List.filter (fun flow => Js.includes "BLOCKED" (FlowView.status flow)) flows.

Definition allowedOf (flows : list FlowView.t) : list FlowView.t :=
  List.filter (fun flow => Js.includes "ALLOWED" (FlowView.status flow)) flows.

Definition securityAlertsOf (blockedFlows : list FlowView.t)
  : option SecurityAlerts.t :=
  if 0 <? len blockedFlows then
    Some {| SecurityAlerts.message :=
              ("🚨 " ++ Js.numberToString (len blockedFlows)
               ++ " blocked flow(s) detected - immediate attention required!")%string;
            SecurityAlerts.blockedFlows := List.map alertLine blockedFlows |}
  else None.

(** The summary object built from a non-empty [namespaceLogs]. *)
Definition document (namespace : string) (namespaceLogs : list FlowLog.t)
  : SummaryDoc.t :=
  let flowMap := Aggregator.aggregate namespaceLogs in
  let flows := flowsOf flowMap in
  let sortedFlows := Js.sort byStartTime (Js.mapValues flowMap) in
  let earliestTime := option_map Flow.startTime (List.hd_error sortedFlows) in
  let latestTime :=
    option_map Flow.endTime (List.hd_error (List.rev sortedFlows)) in
  let totalPackets :=
    fold_left (fun sum flow => Js.add sum (FlowView.traffic_packets_total flow))
      flows 0 in
  let totalBytes :=
    fold_left (fun sum flow => Js.add sum (FlowView.traffic_bytes_total flow))
      flows 0 in
  let blockedFlows := blockedOf flows in
  let allowedFlows := allowedOf flows in
  let allPolicies := List.flat_map FlowView.enforcement_policyDetails flows in
  let uniquePolicyNames := Js.unique (List.map detailName allPolicies) in
  let policyTiers :=
    List.filter Js.truthy (Js.unique (List.map PolicyDetail.tier allPolicies)) in
  let policyKinds :=
    List.filter Js.truthy (Js.unique (List.map PolicyDetail.kind allPolicies)) in
  {| SummaryDoc.namespace := namespace;
     SummaryDoc.analysis_totalUniqueFlows := len flowMap;
     SummaryDoc.analysis_totalLogEntries := len namespaceLogs;
     SummaryDoc.analysis_timeWindow_start := earliestTime;
     SummaryDoc.analysis_timeWindow_end := latestTime;
     SummaryDoc.analysis_timeWindow_duration :=
       match earliestTime, latestTime with
       | Some earliest, Some latest =>
           if Js.truthy earliest && Js.truthy latest
           then minus (getTime latest) (getTime earliest)
           else None
       | _, _ => None
       end;
     SummaryDoc.statistics_flows_total := len flows;
     SummaryDoc.statistics_flows_allowed := len allowedFlows;
     SummaryDoc.statistics_flows_blocked := len blockedFlows;
     SummaryDoc.statistics_traffic_totalPackets := totalPackets;
     SummaryDoc.statistics_traffic_totalBytes := totalBytes;
     SummaryDoc.statistics_policies_totalPolicyApplications := len allPolicies;
     SummaryDoc.statistics_policies_uniquePolicies := len uniquePolicyNames;
     SummaryDoc.statistics_policies_uniquePolicyNames :=
       Js.sortStrings uniquePolicyNames;
     SummaryDoc.statistics_policies_tiers := Js.sortStrings policyTiers;
     SummaryDoc.statistics_policies_kinds := Js.sortStrings policyKinds;
     SummaryDoc.flows := flows;
     SummaryDoc.securityAlerts := securityAlertsOf blockedFlows |}.

(** Records with the namespace on either side. *)
Definition touches (namespace : string) (log : FlowLog.t) : bool :=
  (FlowLog.source_namespace log =? namespace)%string
  || (FlowLog.dest_namespace log =? namespace)%string.

(** The body of the [try] once the records are there. *)
Definition summarize (namespace : string) (allLogs : list FlowLog.t)
  : Result :=
  let namespaceLogs := List.filter (touches namespace) allLogs in
  match namespaceLogs with
  | [] =>
      NoFlows
        {| NoFlowsDoc.namespace := namespace;
           NoFlowsDoc.error :=
             ("No flow logs found for namespace: " ++ namespace)%string;
           NoFlowsDoc.totalFlows := 0;
           NoFlowsDoc.totalLogEntries := 0;
           NoFlowsDoc.flows := [] |}
  | _ :: _ => Summarised (document namespace namespaceLogs)
  end.

(** [getNamespaceFlowSummary(namespace)], given what [getFlowLogs]
    settles to. *)
Definition getNamespaceFlowSummary
    (getFlowLogs : Js.Settled (list FlowLog.t)) (namespace : string)
  : Js.Settled Result :=
  match getFlowLogs with
  | Js.Resolved allLogs => Js.Resolved (summarize namespace allLogs)
  | Js.Rejected message =>
      Js.Rejected ("Failed to generate flow summary: " ++ message)%string
  end.

End WithRuntime.

End Summary.

(* ===================================================================== *)
(** ** [retrievePolicyDetails] and [analyzeBlockedFlows] *)
(* ===================================================================== *)

Module Kubectl.

(** What the spawned process does before the ten-second timer fires. *)
Inductive Event : Type :=
| Stdout (data : string)
| Stderr (data : string)
| Close (code : Z)
| Error.

(** What [spawn('kubectl', args)] comes to: it throws at once, with a
    message (an argument that holds a NUL byte is refused so), or it
    returns a process, which then gives rise to events. *)
Inductive Launch : Type :=
| Throws (message : string)
| Started (events : list Event).

(** The host: what a [spawn('kubectl', args)] comes to. *)
Definition Spawn : Type := list string -> Launch.

(** The state of the executor: the output gathered so far and the
    promise it is to settle. *)
Record Process : Type := makeProcess {
  stdout : string;
  stderr : string;
  promise : Js.Promise (option string)
}.

Definition started : Process :=
  {| stdout := ""; stderr := ""; promise := Js.Pending |}.

(** The four listeners: [stdout.on('data')], [stderr.on('data')],
    [on('close')] and [on('error')]. *)
Definition onEvent (process : Process) (event : Event) : Process :=
  match event with
  | Stdout data =>
      {| stdout := (stdout process ++ data)%string;
         stderr := stderr process;
         promise := promise process |}
  | Stderr data =>
      {| stdout := stdout process;
         stderr := (stderr process ++ data)%string;
         promise := promise process |}
  | Close code =>
      {| stdout := stdout process;
         stderr := stderr process;
         promise :=
           if code =? 0
           then Js.resolve (Some (Js.trim (stdout process))) (promise process)
           else Js.resolve None (promise process) |}
  | Error =>
      {| stdout := stdout process;
         stderr := stderr process;
         promise := Js.resolve None (promise process) |}
  end.

(** [setTimeout(() => { process.kill(); resolve(null); }, 10000)] *)
Definition onTimer (process : Process) : Process :=
  {| stdout := stdout process;
     stderr := stderr process;
     promise := Js.resolve None (promise process) |}.

(** What comes first: the exit of the process, its failure to start,
    or the timer. *)
Inductive Outcome : Type :=
| Exited (code : Z) (stdout : string)
| SpawnFailed
| TimedOut.

Fixpoint outcome (stdout : string) (events : list Event) : Outcome :=
  match events with
  | [] => TimedOut
  | Stdout data :: rest => outcome (stdout ++ data)%string rest
  | Stderr _ :: rest => outcome stdout rest
  | Close code :: _ => Exited code stdout
  | Error :: _ => SpawnFailed
  end.

(** "Map policy kind to kubectl resource type"; [None] is the
    [default] case. *)
Definition resourceType (policyKind : string) : option string :=
  if (policyKind =? "CalicoNetworkPolicy")%string then Some "caliconetworkpolicy"
  else if (policyKind =? "NetworkPolicy")%string then Some "networkpolicy"
  else if (policyKind =? "GlobalNetworkPolicy")%string then Some "globalnetworkpolicy"
  else None.

Definition arguments (kubeconfigPath : option string)
    (resourceType policyName policyNamespace policyKind : string)
  : list string :=
  let args := ["get"; resourceType; policyName; "-o"; "yaml"] in
  let args :=
    if Js.truthy policyNamespace
       && negb (policyKind =? "GlobalNetworkPolicy")%string
    then args ++ ["-n"; policyNamespace] else args in
  match kubeconfigPath with
  | Some path => if Js.truthy path then "--kubeconfig" :: path :: args else args
  | None => args
  end.

Section WithHost.

Variable kubeconfigPath : option string.
Variable spawn : Spawn.

(** The message [spawn] throws for this lookup, if it is called and
    throws. *)
Definition thrown (policyName policyNamespace policyKind : string)
  : option string :=
  match resourceType policyKind with
  | None => None
  | Some resourceType =>
      match spawn (arguments kubeconfigPath resourceType policyName
                     policyNamespace policyKind) with
      | Throws message => Some message
      | Started _ => None
      end
  end.

(** A resolution that fails: a kind outside the table, a [spawn] that
    throws, a process that does not start, a non-zero exit, or the
    timer. *)
Definition fails (policyName policyNamespace policyKind : string) : bool :=
  match resourceType policyKind with
  | None => true
  | Some resourceType =>
      match spawn (arguments kubeconfigPath resourceType policyName
                     policyNamespace policyKind) with
      | Throws _ => true
      | Started events =>
          match outcome "" events with
          | Exited code _ => negb (code =? 0)
          | SpawnFailed => true
          | TimedOut => true
          end
      end
  end.

(** The promise [retrievePolicyDetails] returns, once the events and
    the timer have been delivered.  [spawn] is called inside the
    executor of the promise, so what it throws rejects the promise,
    before any listener or timer is set. *)
Definition policyDetailsPromise
    (policyName policyNamespace policyKind : string)
  : Js.Promise (option string) :=
  match resourceType policyKind with
  | None => Js.resolve None Js.Pending
  | Some resourceType =>
      match spawn (arguments kubeconfigPath resourceType policyName
                     policyNamespace policyKind) with
      | Throws message => Js.Broken message
      | Started events =>
          promise (onTimer (fold_left onEvent events started))
      end
  end.

(** [await this.retrievePolicyDetails(...)] *)
Definition retrievePolicyDetails
    (policyName policyNamespace policyKind : string)
  : Js.Settled (option string) :=
  Js.await (policyDetailsPromise policyName policyNamespace policyKind).

End WithHost.

End Kubectl.

Module BlockingPolicy.
(** An element of [blockingPolicies]; [error] is absent on the [try]
    path. *)
Record t : Type := make {
  triggerPolicy : Policy.t;
  policyYaml : option string;
  error : option string;
  blockingReason : string
}.
End BlockingPolicy.

Module BlockedFlow.
(** An element of [analysisResults], nested objects flattened. *)
Record t : Type := make {
  flow_source : string;
  flow_destination : string;
  flow_protocol : string;
  flow_port : option Z;
  flow_action : string;
  flow_reporter : string;
  flow_timeRange : string;
  traffic_packetsIn : Z;
  traffic_packetsOut : Z;
  traffic_bytesIn : Z;
  traffic_bytesOut : Z;
  blockingPolicies : list BlockingPolicy.t;
  analysis_totalBlockingPolicies : Z;
  analysis_recommendation : string
}.
End BlockedFlow.

Module AnalysisDoc.
Record t : Type := make {
  namespace : string;
  analysis_totalBlockedFlows : Z;
  analysis_uniqueBlockedConnections : Z;
  analysis_timeWindow_start : option Z;
  analysis_timeWindow_end : option Z;
  blockedFlows : list BlockedFlow.t;
  securityInsights_message : string;
  securityInsights_recommendations : list string
}.
End AnalysisDoc.

Module NoBlockedDoc.
(** The document returned when no denied record is left. *)
Record t : Type := make {
  namespace : string;
  message : string;
  blockedFlows : list BlockedFlow.t
}.
End NoBlockedDoc.

Module Analyzer.

Inductive Result : Type :=
| NoBlocked (doc : NoBlockedDoc.t)
| Analysed (doc : AnalysisDoc.t).

Definition len {A : Type} (xs : list A) : Z := Z.of_nat (List.length xs).

(** [policy.trigger && policy.trigger.name]: the trigger when both
    are truthy. *)
Definition namedTrigger (policy : Policy.t) : option Policy.t :=
  match Policy.trigger policy with
  | Some trigger => if Js.truthy (Policy.name trigger) then Some trigger else None
  | None => None
  end.

Definition pendingReason (pendingPolicy : Policy.t) : string :=
  if (Policy.action pendingPolicy =? "Deny")%string
  then "Explicit deny rule" else "End of tier default deny".

Definition enforcedReason : string := "Enforced deny rule".

(** [namespace || 'all'] *)
Definition namespaceOrAll (namespace : option string) : string :=
  match namespace with
  | Some ns => if Js.truthy ns then ns else "all"
  | None => "all"
  end.

(** [Math.min(...xs)] and [Math.max(...xs)] as [JSON.stringify] shows
    them: [None] for [NaN] and for the infinities of an empty list. *)
Fixpoint extremum (pick : Z -> Z -> Z) (xs : list (option Z)) : option Z :=
  match xs with
  | [] => None
  | [x] => x
  | x :: rest =>
      match x, extremum pick rest with
      | Some a, Some b => Some (pick a b)
      | _, _ => None
      end
  end.

Definition recommendations : list string :=
  [ "Review each blocking policy to ensure it aligns with your security requirements";
    "Consider if any blocked flows represent legitimate traffic that should be allowed";
    "Verify that policy ordering and tier configuration are correct";
    "Monitor for patterns that might indicate security threats or misconfigurations" ].

Section WithHost.

(** [this.kubeconfigPath], the host's [spawn] and
    [new Date(s).getTime()]. *)
Variable kubeconfigPath : option string.
Variable spawn : Kubectl.Spawn.
Variable getTime : string -> option Z.

(** The [try]/[catch] around one resolution. *)
Definition blockingEntry (trigger : Policy.t) (reason : string)
  : BlockingPolicy.t :=
  match Kubectl.retrievePolicyDetails kubeconfigPath spawn
          (Policy.name trigger) (Policy.namespace trigger)
          (Policy.kind trigger) with
  | Js.Resolved policyDetails =>
      {| BlockingPolicy.triggerPolicy := trigger;
         BlockingPolicy.policyYaml := policyDetails;
         BlockingPolicy.error := None;
         BlockingPolicy.blockingReason := reason |}
  | Js.Rejected message =>
      {| BlockingPolicy.triggerPolicy := trigger;
         BlockingPolicy.policyYaml := None;
         BlockingPolicy.error :=
           Some ("Failed to retrieve policy: " ++ message)%string;
         BlockingPolicy.blockingReason := reason |}
  end.

(** One turn of [for (const pendingPolicy of log.policies.pending)]. *)
Definition visitPending (blockingPolicies : list BlockingPolicy.t)
    (pendingPolicy : Policy.t) : list BlockingPolicy.t :=
  match namedTrigger pendingPolicy with
  | Some trigger =>
      blockingPolicies ++ [blockingEntry trigger (pendingReason pendingPolicy)]
  | None => blockingPolicies
  end.

(** One turn of [for (const enforcedPolicy of log.policies.enforced)]. *)
Definition visitEnforced (blockingPolicies : list BlockingPolicy.t)
    (enforcedPolicy : Policy.t) : list BlockingPolicy.t :=
  if (Policy.action enforcedPolicy =? "Deny")%string then
    match namedTrigger enforcedPolicy with
    | Some trigger =>
        blockingPolicies ++ [blockingEntry trigger enforcedReason]
    | None => blockingPolicies
    end
  else blockingPolicies.

Definition blockingPoliciesOf (log : FlowLog.t) : list BlockingPolicy.t :=
  fold_left visitEnforced (Aggregator.enforcedOf log)
    (fold_left visitPending (Aggregator.pendingOf log) []).

(** The entries the two loops push, hit by hit. *)
Definition pendingEntries (log : FlowLog.t) : list BlockingPolicy.t :=
  List.flat_map
    (fun pendingPolicy =>
       match namedTrigger pendingPolicy with
       | Some trigger => [blockingEntry trigger (pendingReason pendingPolicy)]
       | None => []
       end)
    (Aggregator.pendingOf log).

Definition enforcedEntries (log : FlowLog.t) : list BlockingPolicy.t :=
  List.flat_map
    (fun enforcedPolicy =>
       if (Policy.action enforcedPolicy =? "Deny")%string then
         match namedTrigger enforcedPolicy with
         | Some trigger => [blockingEntry trigger enforcedReason]
         | None => []
         end
       else [])
    (Aggregator.enforcedOf log).

(** A resolution attempt of the analysis of [log]: a pending hit
    with a named trigger, or an enforced Deny hit with one, and the
    reason its entry carries. *)
Definition attempt (log : FlowLog.t) (hit trigger : Policy.t)
    (reason : string) : Prop :=
  (In hit (Aggregator.pendingOf log)
   /\ namedTrigger hit = Some trigger
   /\ reason = pendingReason hit)
  \/ (In hit (Aggregator.enforcedOf log)
      /\ Policy.action hit = "Deny"
      /\ namedTrigger hit = Some trigger
      /\ reason = enforcedReason).

(** The function mapped over [blockedLogs]. *)
Definition analyzeLog (log : FlowLog.t) : BlockedFlow.t :=
  let blockingPolicies := blockingPoliciesOf log in
  {| BlockedFlow.flow_source :=
       (FlowLog.source_name log ++ " (" ++ FlowLog.source_namespace log ++ ")")%string;
     BlockedFlow.flow_destination :=
       (FlowLog.dest_name log ++ " (" ++ FlowLog.dest_namespace log ++ ")")%string;
     BlockedFlow.flow_protocol := FlowLog.protocol log;
     BlockedFlow.flow_port := FlowLog.dest_port log;
     BlockedFlow.flow_action := FlowLog.action log;
     BlockedFlow.flow_reporter := FlowLog.reporter log;
     BlockedFlow.flow_timeRange :=
       (FlowLog.start_time log ++ " to " ++ FlowLog.end_time log)%string;
     BlockedFlow.traffic_packetsIn := FlowLog.packets_in log;
     BlockedFlow.traffic_packetsOut := FlowLog.packets_out log;
     BlockedFlow.traffic_bytesIn := FlowLog.bytes_in log;
     BlockedFlow.traffic_bytesOut := FlowLog.bytes_out log;
     BlockedFlow.blockingPolicies := blockingPolicies;
     BlockedFlow.analysis_totalBlockingPolicies := len blockingPolicies;
     BlockedFlow.analysis_recommendation :=
       if 0 <? len blockingPolicies
       then "Review the identified policies to understand why traffic is being blocked. Consider modifying the policy rules if this traffic should be allowed."
       else "No specific blocking policies identified. This may be due to default deny behavior or policy ordering." |}.

(** [`${log.source_name}→${log.dest_name}:${log.dest_port}`] *)
Definition connection (log : FlowLog.t) : string :=
  (FlowLog.source_name log ++ "→" ++ FlowLog.dest_name log ++ ":"
   ++ Js.templateItem (FlowLog.dest_port log))%string.

(** The denied records, restricted to the namespace when one is given. *)
Definition blockedLogsOf (namespace : option string)
    (allLogs : list FlowLog.t) : list FlowLog.t :=
  let blockedLogs :=
    List.filter (fun log => (FlowLog.action log =? "Deny")%string) allLogs in
  match namespace with
  | Some ns =>
      if Js.truthy ns
      then List.filter (Summary.touches ns) blockedLogs
      else blockedLogs
  | None => blockedLogs
  end.

(** The body of the [try] once the records are there. *)
Definition analyze (namespace : option string) (allLogs : list FlowLog.t)
  : Result :=
  let blockedLogs := blockedLogsOf namespace allLogs in
  match blockedLogs with
  | [] =>
      NoBlocked
        {| NoBlockedDoc.namespace := namespaceOrAll namespace;
           NoBlockedDoc.message := "No blocked flows found";
           NoBlockedDoc.blockedFlows := [] |}
  | _ :: _ =>
      Analysed
        {| AnalysisDoc.namespace := namespaceOrAll namespace;
           AnalysisDoc.analysis_totalBlockedFlows := len blockedLogs;
           AnalysisDoc.analysis_uniqueBlockedConnections :=
             len (Js.unique (List.map connection blockedLogs));
           AnalysisDoc.analysis_timeWindow_start :=
             extremum Z.min
               (List.map (fun log => getTime (FlowLog.start_time log)) blockedLogs);
           AnalysisDoc.analysis_timeWindow_end :=
             extremum Z.max
               (List.map (fun log => getTime (FlowLog.end_time log)) blockedLogs);
           AnalysisDoc.blockedFlows := List.map analyzeLog blockedLogs;
           AnalysisDoc.securityInsights_message :=
             ("🚨 " ++ Js.numberToString (len blockedLogs)
              ++ " blocked flow(s) detected")%string;
           AnalysisDoc.securityInsights_recommendations := recommendations |}
  end.

(** [analyzeBlockedFlows(namespace)], given what [getFlowLogs]
    settles to. *)
Definition analyzeBlockedFlows
    (getFlowLogs : Js.Settled (list FlowLog.t)) (namespace : option string)
  : Js.Settled Result :=
  match getFlowLogs with
  | Js.Resolved allLogs => Js.Resolved (analyze namespace allLogs)
  | Js.Rejected message =>
      Js.Rejected ("Failed to analyze blocked flows: " ++ message)%string
  end.

End WithHost.

End Analyzer.

(* ===================================================================== *)
(** ** [log-filter.js]: aggregation for policy generation and drafts *)
(* ===================================================================== *)

Module AggregatedLog.
(** A value of [aggregationMap], [actions] already an array. *)
Record t : Type := make {
  source_name : string;
  source_namespace : string;
  source_labels : string;
  dest_name : string;
  dest_namespace : string;
  dest_labels : string;
  protocol : string;
  dest_port : option Z;
  flow_count : Z;
  total_packets : Z;
  total_bytes : Z;
  actions : list string
}.
End AggregatedLog.

Module PortSpec.
(** An element of [rule.ports]; [port] is [None] for [NaN]. *)
Record t : Type := make {
  protocol : string;
  port : option Z
}.
End PortSpec.

Module EgressRule.
(** [destination_namespaceSelector] holds the value matched against
    the label [kubernetes.io/metadata.name]; [destination_selector]
    holds the pair of [matchLabels]; [ports] is absent unless set. *)
Record t : Type := make {
  action : string;
  destination_namespaceSelector : option string;
  destination_selector : option (string * string);
  protocol : string;
  ports : option (list PortSpec.t)
}.
End EgressRule.

Module NetworkPolicy.
Record t : Type := make {
  apiVersion : string;
  kind : string;
  metadata_name : string;
  metadata_namespace : string;
  spec_selector : string * string;
  spec_types : list string;
  spec_egress : list EgressRule.t
}.
End NetworkPolicy.

Module LogFilter.

(** The key of [aggregationMap]. *)
Definition aggregationKey (log : FlowLog.t) : string :=
  Js.join "|"
    [ FlowLog.source_name log;
      FlowLog.source_namespace log;
      FlowLog.source_labels log;
      FlowLog.dest_name log;
      FlowLog.dest_namespace log;
      FlowLog.dest_labels log;
      FlowLog.protocol log;
      Js.templateItem (FlowLog.dest_port log) ].

Definition emptyAggregate (log : FlowLog.t) : AggregatedLog.t :=
  {| AggregatedLog.source_name := FlowLog.source_name log;
     AggregatedLog.source_namespace := FlowLog.source_namespace log;
     AggregatedLog.source_labels := FlowLog.source_labels log;
     AggregatedLog.dest_name := FlowLog.dest_name log;
     AggregatedLog.dest_namespace := FlowLog.dest_namespace log;
     AggregatedLog.dest_labels := FlowLog.dest_labels log;
     AggregatedLog.protocol := FlowLog.protocol log;
     AggregatedLog.dest_port := FlowLog.dest_port log;
     AggregatedLog.flow_count := 0;
     AggregatedLog.total_packets := 0;
     AggregatedLog.total_bytes := 0;
     AggregatedLog.actions := [] |}.

(** The updates of [aggregated]; [flow_count] counts elements of an
    array and stays far below [Js.maxExact]. *)
Definition addLog (aggregated : AggregatedLog.t) (log : FlowLog.t)
  : AggregatedLog.t :=
  {| AggregatedLog.source_name := AggregatedLog.source_name aggregated;
     AggregatedLog.source_namespace := AggregatedLog.source_namespace aggregated;
     AggregatedLog.source_labels := AggregatedLog.source_labels aggregated;
     AggregatedLog.dest_name := AggregatedLog.dest_name aggregated;
     AggregatedLog.dest_namespace := AggregatedLog.dest_namespace aggregated;
     AggregatedLog.dest_labels := AggregatedLog.dest_labels aggregated;
     AggregatedLog.protocol := AggregatedLog.protocol aggregated;
     AggregatedLog.dest_port := AggregatedLog.dest_port aggregated;
     AggregatedLog.flow_count := AggregatedLog.flow_count aggregated + 1;
     AggregatedLog.total_packets :=
       Js.add (AggregatedLog.total_packets aggregated)
         (Js.add (FlowLog.packets_in log) (FlowLog.packets_out log));
     AggregatedLog.total_bytes :=
       Js.add (AggregatedLog.total_bytes aggregated)
         (Js.add (FlowLog.bytes_in log) (FlowLog.bytes_out log));
     AggregatedLog.actions :=
       set_add string_dec (FlowLog.action log) (AggregatedLog.actions aggregated) |}.

(** [log.source_namespace === namespace || log.dest_namespace === namespace]
    for a namespace that may be [undefined]. *)
Definition inNamespace (namespace : option string) (log : FlowLog.t) : bool :=
  match namespace with
  | Some ns => Summary.touches ns log
  | None => false
  end.

Definition aggregateLogsForPolicyGeneration (logs : list FlowLog.t)
    (namespace : option string) : list AggregatedLog.t :=
  let namespaceLogs := List.filter (inNamespace namespace) logs in
  Js.mapValues
    (fold_left
       (fun aggregationMap log =>
          let key := aggregationKey log in
          let aggregated :=
            match Js.mapGet key aggregationMap with
            | Some existing => existing
            | None => emptyAggregate log
            end in
          Js.mapSet key (addLog aggregated log) aggregationMap)
       namespaceLogs []).

(** The first pair of [labels] whose key is [key] and whose value is
    truthy. *)
Fixpoint firstLabel (key : string) (labelPairs : list string) : option string :=
  match labelPairs with
  | [] => None
  | labelPair :: rest =>
      let parts := List.map Js.trim (Js.split "=" labelPair) in
      let labelKey := List.nth 0 parts "" in
      match List.nth_error parts 1 with
      | Some labelValue =>
          if (labelKey =? key)%string && Js.truthy labelValue
          then Some labelValue else firstLabel key rest
      | None => firstLabel key rest
      end
  end.

Definition extractLabelValue (labels key : string) : option string :=
  if negb (Js.truthy labels) then None
  else firstLabel key (List.map Js.trim (Js.split "|" labels)).

(** [map.get(key).push(log)] after [if (!map.has(key)) map.set(key, [])]. *)
Definition pushTo (key : string) (log : AggregatedLog.t)
    (groups : Js.Map (list AggregatedLog.t)) : Js.Map (list AggregatedLog.t) :=
  match Js.mapGet key groups with
  | Some members => Js.mapSet key (members ++ [log]) groups
  | None => Js.mapSet key [log] groups
  end.

(** [`${flow.dest_namespace}|${flow.protocol}|${flow.dest_port}`] *)
Definition destKey (flow : AggregatedLog.t) : string :=
  (AggregatedLog.dest_namespace flow ++ "|" ++ AggregatedLog.protocol flow
   ++ "|" ++ Js.templateItem (AggregatedLog.dest_port flow))%string.

Section WithRequest.

Variable namespace : string.
Variable selectorKey : string.

Definition sourceGroupsOf (aggregatedLogs : list AggregatedLog.t)
  : Js.Map (list AggregatedLog.t) :=
  fold_left
    (fun sourceGroups log =>
       if (AggregatedLog.source_namespace log =? namespace)%string then
         match extractLabelValue (AggregatedLog.source_labels log) selectorKey with
         | Some selectorValue => pushTo selectorValue log sourceGroups
         | None => sourceGroups
         end
       else sourceGroups)
    aggregatedLogs [].

Definition destinationGroupsOf (flows : list AggregatedLog.t)
  : Js.Map (list AggregatedLog.t) :=
  fold_left (fun destinationGroups flow => pushTo (destKey flow) flow destinationGroups)
    flows [].

(** The body of [destinationGroups.forEach]: the rule pushed for one
    sub-group.  The key of a sub-group has two bars at least, so the
    three leading parts of its split exist. *)
Definition egressRule (destKey : string) (destFlows : list AggregatedLog.t)
  : EgressRule.t :=
  let parts := Js.split "|" destKey in
  let destNamespace := List.nth 0 parts "" in
  let protocol := List.nth 1 parts "" in
  let destPort := List.nth 2 parts "" in
  {| EgressRule.action := "Allow";
     EgressRule.destination_namespaceSelector :=
       if negb (destNamespace =? namespace)%string
       then Some destNamespace else None;
     EgressRule.destination_selector :=
       if negb (destNamespace =? namespace)%string then None
       else
         match destFlows with
         | first :: _ =>
             match extractLabelValue (AggregatedLog.dest_labels first) selectorKey with
             | Some destSelector => Some (selectorKey, destSelector)
             | None => None
             end
         | [] => None
         end;
     EgressRule.protocol := Js.toUpperCase protocol;
     EgressRule.ports :=
       if Js.truthy destPort
          && negb (destPort =? "null")%string
          && negb (destPort =? "0")%string
       then Some [ {| PortSpec.protocol := Js.toUpperCase protocol;
                      PortSpec.port := Js.parseInt destPort |} ]
       else None |}.

(** The body of [sourceGroups.forEach]: the policy pushed for one
    source workload group. *)
Definition policyFor (selectorValue : string) (flows : list AggregatedLog.t)
  : NetworkPolicy.t :=
  let policyName :=
    ("allow-" ++ Js.mapChars Js.dashNonAlnum (Js.toLowerCase selectorValue)
     ++ "-egress")%string in
  let egressRules :=
    List.map (fun group => egressRule (fst group) (snd group))
      (destinationGroupsOf flows) in
  {| NetworkPolicy.apiVersion := "projectcalico.org/v3";
     NetworkPolicy.kind := "NetworkPolicy";
     NetworkPolicy.metadata_name := policyName;
     NetworkPolicy.metadata_namespace := namespace;
     NetworkPolicy.spec_selector := (selectorKey, selectorValue);
     NetworkPolicy.spec_types := ["Egress"];
     NetworkPolicy.spec_egress := egressRules |}.

Definition generateCalicoNetworkPolicies
    (aggregatedLogs : list AggregatedLog.t) : list NetworkPolicy.t :=
  List.map (fun group => policyFor (fst group) (snd group))
    (sourceGroupsOf aggregatedLogs).

End WithRequest.

End LogFilter.

(* ===================================================================== *)
(** ** Tool handlers of the server *)
(* ===================================================================== *)

Module PolicyData.
(** The response object of [handleGenerateNetworkPolicies]. *)
Record t : Type := make {
  namespace : option string;
  selectorKey : option string;
  aggregatedFlows : list AggregatedLog.t;
  summary_totalUniqueFlows : Z;
  summary_analysisNote : string
}.
End PolicyData.

Module Server.

(** The arguments of a tool call; a field left out is [None]. *)
Record Args : Type := makeArgs {
  namespace : option string;
  selectorKey : option string
}.

(** What the handlers do to the outside world. *)
Inductive Effect : Type :=
| FetchFlowLogs.

(** The text of [content[0]]: plain text, or the document that
    [JSON.stringify] renders. *)
Inductive Body : Type :=
| Text (text : string)
| SummaryJson (summary : Summary.Result)
| PolicyDataJson (response : PolicyData.t).

(** A computation: from the effects performed so far to its outcome
    and the effects performed after it. *)
Definition Run (A : Type) : Type :=
  list Effect -> Js.Settled A * list Effect.

Definition ret {A : Type} (a : A) : Run A :=
  fun trace => (Js.Resolved a, trace).

Definition bind {A B : Type} (m : Run A) (k : A -> Run B) : Run B :=
  fun trace =>
    match m trace with
    | (Js.Resolved a, trace') => k a trace'
    | (Js.Rejected message, trace') => (Js.Rejected message, trace')
    end.

(** [try { m } catch (error) { handler(message of error) }] *)
Definition catch {A : Type} (m : Run A) (handler : string -> Run A) : Run A :=
  fun trace =>
    match m trace with
    | (Js.Resolved a, trace') => (Js.Resolved a, trace')
    | (Js.Rejected message, trace') => handler message trace'
    end.

Definition perform {A : Type} (m : Run A) : Js.Settled A * list Effect :=
  m [].

(** The double quote, as a string. *)
Definition quote : string := String (ascii_of_nat 34) EmptyString.

Definition selectorKeyRequired : string :=
  ("Error: selectorKey is required. Please provide a label key to use for workload grouping (e.g., "
   ++ quote ++ "app" ++ quote ++ ", "
   ++ quote ++ "service" ++ quote ++ ", "
   ++ quote ++ "component" ++ quote ++ ").")%string.

Definition namespaceRequired : string :=
  "Error: namespace parameter is required".

Definition analysisNote : string :=
  "Use this aggregated data to manually create network policies based on observed traffic patterns".

Section WithHost.

(** What the backend answers to a fetch, and the host's
    [localeCompare] and [getTime]. *)
Variable backend : Js.Settled (list FlowLog.t).
Variable localeCompare : string -> string -> Z.
Variable getTime : string -> option Z.

(** [this.calicoService.getFlowLogs()] *)
Definition getFlowLogs : Run (list FlowLog.t) :=
  fun trace => (backend, trace ++ [FetchFlowLogs]).

(** [this.calicoService.getNamespaceFlowSummary(namespace)] *)
Definition getNamespaceFlowSummary (namespace : string)
  : Run Summary.Result :=
  fun trace =>
    let '(fetched, trace') := getFlowLogs trace in
    (Summary.getNamespaceFlowSummary localeCompare getTime fetched namespace,
     trace').

Definition handleGenerateNetworkPolicies (args : Args) : Run Body :=
  let namespace := namespace args in
  let selectorKey := selectorKey args in
  if negb (Js.truthyOpt selectorKey) then ret (Text selectorKeyRequired)
  else
    bind getFlowLogs (fun logs =>
      let aggregatedLogs :=
        LogFilter.aggregateLogsForPolicyGeneration logs namespace in
      ret (PolicyDataJson
             {| PolicyData.namespace := namespace;
                PolicyData.selectorKey := selectorKey;
                PolicyData.aggregatedFlows := aggregatedLogs;
                PolicyData.summary_totalUniqueFlows :=
                  Z.of_nat (List.length aggregatedLogs);
                PolicyData.summary_analysisNote := analysisNote |})).

Definition handleGetNamespaceFlowSummary (args : Args) : Run Body :=
  match namespace args with
  | Some namespace =>
      if negb (Js.truthy namespace) then ret (Text namespaceRequired)
      else
        catch
          (bind (getNamespaceFlowSummary namespace)
             (fun summary => ret (SummaryJson summary)))
          (fun message =>
             ret (Text ("Error generating flow summary for namespace "
                        ++ namespace ++ ": " ++ message)%string))
  | None => ret (Text namespaceRequired)
  end.

End WithHost.

End Server.

(* ===================================================================== *)
(** ** Notions used to state the properties *)
(* ===================================================================== *)

Module Spec.

(** No bar, the delimiter of the flow key, occurs in [s]. *)
Definition barFree (s : string) : bool :=
  negb (List.existsb (Ascii.eqb "|") (list_ascii_of_string s)).

(** Neither the bar nor the plus sign occurs in [s]. *)
Definition plainAction (s : string) : bool :=
  barFree s && negb (Js.includes "+" s).

Definition sameMembers (a b : list string) : Prop :=
  forall x, In x a <-> In x b.

(** Two flows with the same counters, time window, side actions,
    policy sets and enforced-policy contents. *)
Record flowEquiv (f g : Flow.t) : Prop := {
  same_packetsIn : Flow.packetsIn f = Flow.packetsIn g;
  same_packetsOut : Flow.packetsOut f = Flow.packetsOut g;
  same_bytesIn : Flow.bytesIn f = Flow.bytesIn g;
  same_bytesOut : Flow.bytesOut f = Flow.bytesOut g;
  same_startTime : Flow.startTime f = Flow.startTime g;
  same_endTime : Flow.endTime f = Flow.endTime g;
  same_sourceAction : Flow.sourceAction f = Flow.sourceAction g;
  same_destAction : Flow.destAction f = Flow.destAction g;
  same_sourcePolicies : sameMembers (Flow.sourcePolicies f) (Flow.sourcePolicies g);
  same_destPolicies : sameMembers (Flow.destPolicies f) (Flow.destPolicies g);
  same_enforcedPolicies :
    Permutation (Flow.enforcedPolicies f) (Flow.enforcedPolicies g)
}.

(** Two flow maps with the same keys and equivalent flows under each. *)
Definition sameFlowSet (m m' : Js.Map Flow.t) : Prop :=
  forall key,
    match Js.mapGet key m, Js.mapGet key m' with
    | Some f, Some g => flowEquiv f g
    | None, None => True
    | _, _ => False
    end.

(** Keeping the candidate when it comes before the current string. *)
Definition pick (before : string -> string -> bool)
    (current candidate : string) : string :=
  if before candidate current then candidate else current.

(** The names a [Set] holds once those of [ps] have been added. *)
Definition addNames (names : list string) (ps : list Policy.t) : list string :=
  fold_left (fun s p => set_add string_dec (Aggregator.policyName p) s) ps names.

(** The two sides a record can report from, as the code tests them. *)
Definition isSrc (log : FlowLog.t) : bool :=
  (FlowLog.reporter log =? "Src")%string.

Definition isDst (log : FlowLog.t) : bool :=
  negb (FlowLog.reporter log =? "Src")%string
  && (FlowLog.reporter log =? "Dst")%string.

Definition sumOf (counter : FlowLog.t -> Z) (logs : list FlowLog.t) : Z :=
  fold_right (fun log acc => counter log + acc) 0 logs.

(** The absolute values of a counter, added up. *)
Definition magnitude (counter : FlowLog.t -> Z) (logs : list FlowLog.t) : Z :=
  sumOf (fun log => Z.abs (counter log)) logs.

(** The counters of [logs] are small enough for their sums to be
    exact in whatever order they are added: the absolute values of each
    of the four add up to [Js.maxExact] at most. *)
Definition exactCounters (logs : list FlowLog.t) : Prop :=
  magnitude FlowLog.packets_in logs <= Js.maxExact
  /\ magnitude FlowLog.packets_out logs <= Js.maxExact
  /\ magnitude FlowLog.bytes_in logs <= Js.maxExact
  /\ magnitude FlowLog.bytes_out logs <= Js.maxExact.

(** The same with both directions taken together, for packets and for
    bytes. *)
Definition exactTraffic (logs : list FlowLog.t) : Prop :=
  sumOf (fun log => Z.abs (FlowLog.packets_in log)
                    + Z.abs (FlowLog.packets_out log)) logs <= Js.maxExact
  /\ sumOf (fun log => Z.abs (FlowLog.bytes_in log)
                       + Z.abs (FlowLog.bytes_out log)) logs <= Js.maxExact.

(** The policy names reported from one side. *)
Definition namesBy (side : FlowLog.t -> bool) (logs : list FlowLog.t)
  : list string :=
  List.flat_map
    (fun log =>
       if side log
       then List.map Aggregator.policyName (Aggregator.enforcedOf log)
       else [])
    logs.

(** What the records of one key merge into, the first one opening the
    flow. *)
Definition mergeAll (logs : list FlowLog.t) : option Flow.t :=
  match logs with
  | [] => None
  | log :: rest =>
      Some (fold_left Aggregator.mergeFlow rest (Aggregator.newFlow log))
  end.

Definition hasKey (key : string) (log : FlowLog.t) : bool :=
  (Aggregator.flowKey log =? key)%string.

(** What a record makes of the flow found under its key, if any. *)
Definition stepAt (found : option Flow.t) (log : FlowLog.t) : Flow.t :=
  match found with
  | Some existing => Aggregator.mergeFlow existing log
  | None => Aggregator.newFlow log
  end.

(** Two records of one conversation: the same endpoints, protocol
    and destination port. *)
Definition sameConversation (r1 r2 : FlowLog.t) : Prop :=
  FlowLog.source_name r1 = FlowLog.source_name r2
  /\ FlowLog.source_namespace r1 = FlowLog.source_namespace r2
  /\ FlowLog.dest_name r1 = FlowLog.dest_name r2
  /\ FlowLog.dest_namespace r1 = FlowLog.dest_namespace r2
  /\ FlowLog.protocol r1 = FlowLog.protocol r2
  /\ FlowLog.dest_port r1 = FlowLog.dest_port r2.

(** One visit of a grouping under [keyOf]; a record without a key is
    passed over. *)
Definition visitGroup (keyOf : AggregatedLog.t -> option string)
    (groups : Js.Map (list AggregatedLog.t)) (log : AggregatedLog.t)
  : Js.Map (list AggregatedLog.t) :=
  match keyOf log with
  | Some key => LogFilter.pushTo key log groups
  | None => groups
  end.

Definition groupBy (keyOf : AggregatedLog.t -> option string)
    (logs : list AggregatedLog.t) : Js.Map (list AggregatedLog.t) :=
  fold_left (visitGroup keyOf) logs [].

(** The selector value under which a record joins a source group. *)
Definition sourceKey (namespace selectorKey : string)
    (log : AggregatedLog.t) : option string :=
  if (AggregatedLog.source_namespace log =? namespace)%string
  then LogFilter.extractLabelValue (AggregatedLog.source_labels log) selectorKey
  else None.

(** The part of a key after its last bar. *)
Definition keyAction (key : string) : string :=
  List.last (Js.split "|" key) "".

(** A side action that is the sentinel or the action of the key. *)
Definition sideOk (key side : string) : Prop :=
  side = "N/A" \/ side = keyAction key.

Definition flowOk (key : string) (flow : Flow.t) : Prop :=
  sideOk key (Flow.sourceAction flow)
  /\ sideOk key (Flow.destAction flow)
  /\ Js.includes "+" (keyAction key) = false.

Definition isDenied (flow : Flow.t) : Prop :=
  Flow.sourceAction flow = "Deny" \/ Flow.destAction flow = "Deny".

Definition isBlocked (v : FlowView.t) : bool :=
  (FlowView.status v =? Summary.BLOCKED)%string.

End Spec.

(* ===================================================================== *)
(** ** Sample records *)
(* ===================================================================== *)

Module Sample.

Definition policy (kind name namespace tier action : string)
    (trigger : option Policy.t) : Policy.t :=
  {| Policy.kind := kind;
     Policy.name := name;
     Policy.namespace := namespace;
     Policy.tier := tier;
     Policy.action := action;
     Policy.policy_index := 0;
     Policy.rule_index := 0;
     Policy.trigger := trigger |}.

(** A record of the conversation frontend -> backend:8080 in [shop]. *)
Definition record (action reporter : string) (policies : option Policies.t)
    (packets_in bytes_in : Z) (start_time end_time : string) : FlowLog.t :=
  {| FlowLog.start_time := start_time;
     FlowLog.end_time := end_time;
     FlowLog.action := action;
     FlowLog.source_name := "frontend-*";
     FlowLog.source_namespace := "shop";
     FlowLog.source_labels := "app=frontend | tier=web";
     FlowLog.dest_name := "backend-*";
     FlowLog.dest_namespace := "shop";
     FlowLog.dest_labels := "app=backend";
     FlowLog.protocol := "tcp";
     FlowLog.dest_port := Some 8080;
     FlowLog.reporter := reporter;
     FlowLog.policies := policies;
     FlowLog.packets_in := packets_in;
     FlowLog.packets_out := 0;
     FlowLog.bytes_in := bytes_in;
     FlowLog.bytes_out := 0 |}.

Definition allowWeb : Policy.t :=
  policy "NetworkPolicy" "allow-web" "shop" "default" "Allow" None.

Definition defaultDeny : Policy.t :=
  policy "GlobalNetworkPolicy" "default-deny" "" "security" "Deny" None.

Definition stagedDeny : Policy.t :=
  policy "StagedNetworkPolicy" "staged-deny" "shop" "default" "Deny"
    (Some defaultDeny).

Definition endOfTier : Policy.t :=
  policy "EndOfTier" "tier-default" "shop" "default" "Pass"
    (Some allowWeb).

(** A pending hit whose trigger carries an empty name. *)
Definition namelessTrigger : Policy.t :=
  policy "StagedNetworkPolicy" "staged" "shop" "default" "Deny"
    (Some (policy "NetworkPolicy" "" "shop" "default" "Deny" None)).

Definition allowedBySource : FlowLog.t :=
  record "Allow" "Src"
    (Some {| Policies.enforced := Some [allowWeb]; Policies.pending := None |})
    10 100 "2025-07-02T22:54:45Z" "2025-07-02T23:54:45Z".

Definition allowedByDest : FlowLog.t :=
  record "Allow" "Dst"
    (Some {| Policies.enforced := Some [allowWeb]; Policies.pending := None |})
    5 50 "2025-07-02T22:50:00Z" "2025-07-02T23:00:00Z".

Definition denied : FlowLog.t :=
  record "Deny" "Src"
    (Some {| Policies.enforced := None;
             Policies.pending := Some [stagedDeny; endOfTier] |})
    1 60 "2025-07-02T23:10:00Z" "2025-07-02T23:11:00Z".

Definition deniedNameless : FlowLog.t :=
  record "Deny" "Src"
    (Some {| Policies.enforced := None;
             Policies.pending := Some [namelessTrigger] |})
    1 60 "2025-07-02T23:10:00Z" "2025-07-02T23:11:00Z".

(** Three allowed records of one key: one that has counted 2^53
    packets, and two that have counted one each. *)
Definition heavy : FlowLog.t :=
  record "Allow" "Src" None 9007199254740992 0 "t0" "t1".

Definition light : FlowLog.t :=
  record "Allow" "Src" None 1 0 "t0" "t1".

(** A record whose action holds a plus sign. *)
Definition plusAction : FlowLog.t :=
  record "Allow+Log" "Src" None 1 0 "t0" "t1".

(** Two records whose keys coincide although their actions differ:
    the second action holds the delimiter of the key. *)
Definition barredA : FlowLog.t :=
  {| FlowLog.start_time := "t0"; FlowLog.end_time := "t1";
     FlowLog.action := "Allow";
     FlowLog.source_name := "a|z"; FlowLog.source_namespace := "c";
     FlowLog.source_labels := "";
     FlowLog.dest_name := "d"; FlowLog.dest_namespace := "z";
     FlowLog.dest_labels := "";
     FlowLog.protocol := "6"; FlowLog.dest_port := Some 80;
     FlowLog.reporter := "Src"; FlowLog.policies := None;
     FlowLog.packets_in := 0; FlowLog.packets_out := 0;
     FlowLog.bytes_in := 0; FlowLog.bytes_out := 0 |}.

Definition barredB : FlowLog.t :=
  {| FlowLog.start_time := "t0"; FlowLog.end_time := "t1";
     FlowLog.action := "80|Allow";
     FlowLog.source_name := "a"; FlowLog.source_namespace := "z";
     FlowLog.source_labels := "";
     FlowLog.dest_name := "c"; FlowLog.dest_namespace := "d";
     FlowLog.dest_labels := "";
     FlowLog.protocol := "z"; FlowLog.dest_port := Some 6;
     FlowLog.reporter := "Src"; FlowLog.policies := None;
     FlowLog.packets_in := 0; FlowLog.packets_out := 0;
     FlowLog.bytes_in := 0; FlowLog.bytes_out := 0 |}.

(** A host on which every [kubectl] fails to start. *)
Definition spawnFails : Kubectl.Spawn :=
  fun _ => Kubectl.Started [Kubectl.Error].

(** A host on which no [kubectl] does anything before the timer. *)
Definition spawnSilent : Kubectl.Spawn :=
  fun _ => Kubectl.Started [].

(** The NUL byte, as a string. *)
Definition nul : string := String (ascii_of_nat 0) EmptyString.

(** A trigger whose name holds a NUL byte, the pending hit that names
    it, and a denied record with that hit. *)
Definition nulTrigger : Policy.t :=
  policy "GlobalNetworkPolicy" ("deny" ++ nul ++ "all") "" "security" "Deny" None.

Definition stagedNul : Policy.t :=
  policy "StagedNetworkPolicy" "staged-deny" "shop" "default" "Deny"
    (Some nulTrigger).

Definition deniedNul : FlowLog.t :=
  record "Deny" "Src"
    (Some {| Policies.enforced := None;
             Policies.pending := Some [stagedNul; endOfTier] |})
    1 60 "2025-07-02T23:10:00Z" "2025-07-02T23:11:00Z".

(** What Node throws for the name of [nulTrigger]. *)
Definition nulRefused : string :=
  "The argument 'args[2]' must be a string without null bytes. Received 'deny\x00all'".

(** A host on which [spawn] refuses at once, as Node does, an argument
    that holds a NUL byte, and every [kubectl] that starts prints a
    policy and exits with 0. *)
Definition spawnChecks : Kubectl.Spawn :=
  fun args =>
    if List.existsb (Js.includes nul) args then Kubectl.Throws nulRefused
    else Kubectl.Started [Kubectl.Stdout "kind: NetworkPolicy "; Kubectl.Close 0].

(** A host on which every [kubectl] prints a policy and exits with 0. *)
Definition spawnPrints : Kubectl.Spawn :=
  fun _ =>
    Kubectl.Started [Kubectl.Stdout "kind: NetworkPolicy "; Kubectl.Close 0].

(** A record with port 0 whose destination namespace holds a bar. *)
Definition barredNamespace : AggregatedLog.t :=
  {| AggregatedLog.source_name := "frontend-*";
     AggregatedLog.source_namespace := "shop";
     AggregatedLog.source_labels := "app=frontend";
     AggregatedLog.dest_name := "backend-*";
     AggregatedLog.dest_namespace := "a|b";
     AggregatedLog.dest_labels := "app=backend";
     AggregatedLog.protocol := "tcp";
     AggregatedLog.dest_port := Some 0;
     AggregatedLog.flow_count := 1;
     AggregatedLog.total_packets := 2;
     AggregatedLog.total_bytes := 120;
     AggregatedLog.actions := ["Allow"] |}.

(** A port-less record of [shop] for the policy drafts. *)
Definition portless (dest_port : option Z) : AggregatedLog.t :=
  {| AggregatedLog.source_name := "frontend-*";
     AggregatedLog.source_namespace := "shop";
     AggregatedLog.source_labels := "app=frontend | tier=web";
     AggregatedLog.dest_name := "backend-*";
     AggregatedLog.dest_namespace := "shop";
     AggregatedLog.dest_labels := "app=backend";
     AggregatedLog.protocol := "icmp";
     AggregatedLog.dest_port := dest_port;
     AggregatedLog.flow_count := 1;
     AggregatedLog.total_packets := 2;
     AggregatedLog.total_bytes := 120;
     AggregatedLog.actions := ["Allow"] |}.

End Sample.

(* ===================================================================== *)
(** ** The dispatcher of tool calls *)
(* ===================================================================== *)

Module Dispatcher.

(** What a tool call is answered with: the body a handler of [Server]
    makes, or the analysis of blocked flows as JSON. *)
Inductive Reply : Type :=
| Answer (body : Server.Body)
| AnalysisJson (analysis : Analyzer.Result).

(** [throw new Error(message)] *)
Definition throw {A : Type} (message : string) : Server.Run A :=
  fun trace => (Js.Rejected message, trace).

(** A call of an [async] function: the promise it returns, which may
    stay pending, and the effects it has had. *)
Definition Call (A : Type) : Type :=
  list Server.Effect -> Js.Promise A * list Server.Effect.

(** The promise of a computation that settles. *)
Definition settled {A : Type} (m : Server.Run A) : Call A :=
  fun trace =>
    match m trace with
    | (Js.Resolved a, trace') => (Js.Fulfilled a, trace')
    | (Js.Rejected message, trace') => (Js.Broken message, trace')
    end.

(** The tools whose handlers are not spelt out here. *)
Definition otherTools : list string :=
  [ "connect_to_cluster"; "get_flow_logs"; "get_denied_staged_policies";
    "get_high_traffic_flows"; "get_namespace_flows"; "get_kubeconfig_contexts";
    "get_current_context"; "check_kubeconfig"; "diagnose_connection" ].

Section WithHost.

Variable backend : Js.Settled (list FlowLog.t).
Variable localeCompare : string -> string -> Z.
Variable getTime : string -> option Z.
Variable kubeconfigPath : option string.
Variable spawn : Kubectl.Spawn.

(** The message of the [TypeError] of [const { property } = args] when
    [args] is [undefined]. *)
Variable cannotDestructure : string -> string.

(** What the handlers of [otherTools] do with a request, which may
    come without arguments; some of them await a promise that nothing
    times out, and may never settle. *)
Variable otherHandler : string -> option Server.Args -> Call Reply.

(** [const { property, ... } = args; body]: [request.params.arguments]
    is [undefined] in a call without arguments, and the destructuring
    throws then. *)
Definition destructure {A : Type} (property : string)
    (args : option Server.Args) (body : Server.Args -> Server.Run A)
  : Server.Run A :=
  match args with
  | Some args => body args
  | None => throw (cannotDestructure property)
  end.

(** [this.calicoService.analyzeBlockedFlows(namespace)] *)
Definition analyzeBlockedFlows (namespace : option string)
  : Server.Run Analyzer.Result :=
  fun trace =>
    let '(fetched, trace') := Server.getFlowLogs backend trace in
    (Analyzer.analyzeBlockedFlows kubeconfigPath spawn getTime fetched namespace,
     trace').

(** The destructuring comes before the [try]. *)
Definition handleAnalyzeBlockedFlows (args : option Server.Args)
  : Server.Run Reply :=
  destructure "namespace" args (fun args =>
    let namespace := Server.namespace args in
    Server.catch
      (Server.bind (analyzeBlockedFlows namespace)
         (fun analysis => Server.ret (AnalysisJson analysis)))
      (fun message =>
         Server.ret
           (Answer
              (Server.Text
                 ("Error analyzing blocked flows"
                  ++ match namespace with
                     | Some ns =>
                         if Js.truthy ns then " for namespace " ++ ns else ""
                     | None => ""
                     end
                  ++ ": " ++ message)%string)))).

(** The two handlers of [Server], for a call that may come without
    arguments: both destructure [namespace] first. *)
Definition handleGenerateNetworkPolicies (args : option Server.Args)
  : Server.Run Server.Body :=
  destructure "namespace" args (Server.handleGenerateNetworkPolicies backend).

Definition handleGetNamespaceFlowSummary (args : option Server.Args)
  : Server.Run Server.Body :=
  destructure "namespace" args
    (Server.handleGetNamespaceFlowSummary backend localeCompare getTime).

(** [return await this.handle...(args)] for a handler of [Server]. *)
Definition answered (handler : Server.Run Server.Body) : Server.Run Reply :=
  Server.bind handler (fun body => Server.ret (Answer body)).

(** The [switch] of the handler of [CallToolRequestSchema]. *)
Definition dispatch (name : string) (args : option Server.Args) : Call Reply :=
  if (name =? "generate_network_policies")%string then
    settled (answered (handleGenerateNetworkPolicies args))
  else if (name =? "get_namespace_flow_summary")%string then
    settled (answered (handleGetNamespaceFlowSummary args))
  else if (name =? "analyze_blocked_flows")%string then
    settled (handleAnalyzeBlockedFlows args)
  else if List.existsb (String.eqb name) otherTools then
    otherHandler name args
  else settled (throw ("Unknown tool: " ++ name)%string).

(** The handler of [CallToolRequestSchema]:
    [try { return await ... } catch (error) { return ... }].  While the
    handler awaited is pending, so is the call. *)
Definition callTool (name : string) (args : option Server.Args) : Call Reply :=
  fun trace =>
    match dispatch name args trace with
    | (Js.Fulfilled reply, trace') => (Js.Fulfilled reply, trace')
    | (Js.Broken message, trace') =>
        (Js.Fulfilled
           (Answer
              (Server.Text
                 ("Error executing tool " ++ name ++ ": " ++ message)%string)),
         trace')
    | (Js.Pending, trace') => (Js.Pending, trace')
    end.

End WithHost.

End Dispatcher.

(* ===================================================================== *)
(** ** [kubernetes.js]: the contexts of a kubeconfig *)
(* ===================================================================== *)

Module ContextInfo.
(** An element of the answer of [getAvailableContexts].  The fields
    are whatever the document holds there; [None] is [undefined]. *)
Record t (Value : Type) : Type := make {
  name : option Value;
  cluster : option Value;
  user : option Value;
  namespace : option Value;
  isCurrent : bool
}.
Arguments make {Value} name cluster user namespace isCurrent.
Arguments name {Value} t.
Arguments cluster {Value} t.
Arguments user {Value} t.
Arguments namespace {Value} t.
Arguments isCurrent {Value} t.
End ContextInfo.

Module Kubernetes.

(** What [readFileSync] followed by [yaml.load] comes to: a document
    ([None] for the [undefined] of an empty file), a [YAMLException],
    or another error. *)
Inductive Loaded (Value : Type) : Type :=
| Document (document : option Value)
| YamlException (message : string)
| Failure (message : string).
Arguments Document {Value} document.
Arguments YamlException {Value} message.
Arguments Failure {Value} message.

(** [try { body } catch (error) { throw new Error(prefix + message) }] *)
Definition rethrow {A : Type} (prefix : string) (body : Js.Settled A)
  : Js.Settled A :=
  match body with
  | Js.Resolved value => Js.Resolved value
  | Js.Rejected message => Js.Rejected (prefix ++ message)%string
  end.

(** The next statement, unless the one before has thrown. *)
Definition andThen {A B : Type} (first : Js.Settled A)
    (next : A -> Js.Settled B) : Js.Settled B :=
  match first with
  | Js.Resolved value => next value
  | Js.Rejected message => Js.Rejected message
  end.

(** [items.map(f)] for an [f] that may throw: the first throw ends
    the walk. *)
Fixpoint each {A B : Type} (f : A -> Js.Settled B) (items : list A)
  : Js.Settled (list B) :=
  match items with
  | [] => Js.Resolved []
  | item :: rest =>
      andThen (f item) (fun first =>
      andThen (each f rest) (fun others => Js.Resolved (first :: others)))
  end.

(** [items.find(test)] for a [test] that may throw; [None] is the
    [undefined] of no match. *)
Fixpoint findFirst {A : Type} (test : A -> Js.Settled bool) (items : list A)
  : Js.Settled (option A) :=
  match items with
  | [] => Js.Resolved None
  | item :: rest =>
      andThen (test item) (fun found =>
      if found then Js.Resolved (Some item) else findFirst test rest)
  end.

Section WithHost.

(** The values [yaml.load] returns belong to the host, with what
    JavaScript does to them: [!!value]; [value[key]], which gives
    [None] for [undefined] and throws a [TypeError] for [null];
    [a === b]; and the elements of an array, [None] for a value that is
    no array.  The host also words the [TypeError] of reading a
    property of [undefined], and that of calling a method that is no
    function. *)
Variable Value : Type.
Variable truthy : Value -> bool.
Variable prop : Value -> string -> Js.Settled (option Value).
Variable strictEq : Value -> Value -> bool.
Variable elements : Value -> option (list Value).
Variable cannotRead : string -> string.
Variable notFunction : string -> string.

(** [join(homedir(), '.kube', 'config')], [existsSync], the loader, and
    [this.kubeconfigPath]. *)
Variable defaultPath : string.
Variable existsSync : string -> bool.
Variable load : string -> Loaded Value.
Variable thisKubeconfigPath : option string.

(** [!!value] for a value that may be [undefined]. *)
Definition isTruthy (value : option Value) : bool :=
  match value with
  | Some v => truthy v
  | None => false
  end.

(** [value[key]] for a value that may be [undefined]. *)
Definition read (value : option Value) (key : string)
  : Js.Settled (option Value) :=
  match value with
  | Some v => prop v key
  | None => Js.Rejected (cannotRead key)
  end.

(** [a === b] for values that may be [undefined]. *)
Definition same (a b : option Value) : bool :=
  match a, b with
  | Some x, Some y => strictEq x y
  | None, None => true
  | _, _ => false
  end.

(** The elements that [value.map(f)] or [value.find(f)] walks. *)
Definition walk (method : string) (value : option Value)
  : Js.Settled (list Value) :=
  match value with
  | Some v =>
      match elements v with
      | Some items => Js.Resolved items
      | None => Js.Rejected (notFunction method)
      end
  | None => Js.Rejected (cannotRead method)
  end.

Definition parseKubeConfig (kubeconfigPath : string) : Js.Settled Value :=
  if negb (existsSync kubeconfigPath) then
    Js.Rejected ("Kubeconfig file not found at: " ++ kubeconfigPath)%string
  else
    match load kubeconfigPath with
    | Document (Some kubeconfig) =>
        if negb (truthy kubeconfig) then
          Js.Rejected "Invalid kubeconfig format: missing contexts"
        else
          andThen (prop kubeconfig "contexts") (fun contexts =>
          if negb (isTruthy contexts) then
            Js.Rejected "Invalid kubeconfig format: missing contexts"
          else Js.Resolved kubeconfig)
    | Document None => Js.Rejected "Invalid kubeconfig format: missing contexts"
    | YamlException message =>
        Js.Rejected ("Invalid YAML in kubeconfig: " ++ message)%string
    | Failure message => Js.Rejected message
    end.

(** [kubeconfigPath || this.kubeconfigPath || join(homedir(), '.kube', 'config')] *)
Definition configPath (kubeconfigPath : option string) : string :=
  match kubeconfigPath with
  | Some path => if Js.truthy path then path else
      match thisKubeconfigPath with
      | Some own => if Js.truthy own then own else defaultPath
      | None => defaultPath
      end
  | None =>
      match thisKubeconfigPath with
      | Some own => if Js.truthy own then own else defaultPath
      | None => defaultPath
      end
  end.

(** [ctx.context[key]] *)
Definition ofContext (ctx : Value) (key : string) : Js.Settled (option Value) :=
  andThen (prop ctx "context") (fun context => read context key).

(** The argument of [kubeconfig.contexts.map]. *)
Definition contextInfo (kubeconfig ctx : Value)
  : Js.Settled (ContextInfo.t Value) :=
  andThen (prop ctx "name") (fun name =>
  andThen (ofContext ctx "cluster") (fun cluster =>
  andThen (ofContext ctx "user") (fun user =>
  andThen (ofContext ctx "namespace") (fun namespace =>
  andThen (prop ctx "name") (fun ctxName =>
  andThen (prop kubeconfig "current-context") (fun current =>
  Js.Resolved
    {| ContextInfo.name := name;
       ContextInfo.cluster := cluster;
       ContextInfo.user := user;
       ContextInfo.namespace := namespace;
       ContextInfo.isCurrent := same ctxName current |})))))).

Definition getAvailableContexts (kubeconfigPath : option string)
  : Js.Settled (list (ContextInfo.t Value)) :=
  rethrow "Failed to parse kubeconfig: "
    (andThen (parseKubeConfig (configPath kubeconfigPath)) (fun kubeconfig =>
     andThen (prop kubeconfig "contexts") (fun contexts =>
     andThen (walk "map" contexts) (fun items =>
     each (contextInfo kubeconfig) items)))).

Definition getCurrentContextInfo (kubeconfigPath : option string)
  : Js.Settled (option (ContextInfo.t Value)) :=
  rethrow "Failed to get current context info: "
    (andThen (parseKubeConfig (configPath kubeconfigPath)) (fun kubeconfig =>
     andThen (prop kubeconfig "current-context") (fun currentContextName =>
     if negb (isTruthy currentContextName) then Js.Resolved None
     else
       andThen (prop kubeconfig "contexts") (fun contexts =>
       andThen (walk "find" contexts) (fun items =>
       andThen
         (findFirst
            (fun ctx =>
               andThen (prop ctx "name") (fun name =>
               Js.Resolved (same name currentContextName)))
            items)
         (fun currentContext =>
            match currentContext with
            | None => Js.Resolved None
            | Some currentContext =>
                if negb (truthy currentContext) then Js.Resolved None
                else
                  andThen (prop currentContext "name") (fun name =>
                  andThen (ofContext currentContext "cluster") (fun cluster =>
                  andThen (ofContext currentContext "user") (fun user =>
                  andThen (ofContext currentContext "namespace") (fun namespace =>
                  Js.Resolved
                    (Some
                       {| ContextInfo.name := name;
                          ContextInfo.cluster := cluster;
                          ContextInfo.user := user;
                          ContextInfo.namespace := namespace;
                          ContextInfo.isCurrent := true |})))))
            end)))))).

End WithHost.

End Kubernetes.

Module SampleKube.

(** A host for the documents of the examples: null, strings, arrays
    and objects, with the words of Node for its errors. *)
Inductive Value : Type :=
| Null
| Text (text : string)
| Sequence (items : list Value)
| Mapping (fields : list (string * Value)).

Definition truthy (value : Value) : bool :=
  match value with
  | Null => false
  | Text text => Js.truthy text
  | Sequence _ => true
  | Mapping _ => true
  end.

Definition prop (value : Value) (key : string) : Js.Settled (option Value) :=
  match value with
  | Null =>
      Js.Rejected ("Cannot read properties of null (reading '" ++ key ++ "')")%string
  | Mapping fields => Js.Resolved (Js.mapGet key fields)
  | _ => Js.Resolved None
  end.

Definition strictEq (a b : Value) : bool :=
  match a, b with
  | Null, Null => true
  | Text x, Text y => (x =? y)%string
  | _, _ => false
  end.

Definition elements (value : Value) : option (list Value) :=
  match value with
  | Sequence items => Some items
  | _ => None
  end.

Definition cannotRead (key : string) : string :=
  ("Cannot read properties of undefined (reading '" ++ key ++ "')")%string.

Definition notFunction (method : string) : string :=
  ("kubeconfig.contexts." ++ method ++ " is not a function")%string.

(** An entry of [contexts]. *)
Definition entry (name cluster user : string) : Value :=
  Mapping [("name", Text name);
           ("context", Mapping [("cluster", Text cluster); ("user", Text user)])].

(** An entry of [contexts] that lacks its [context]. *)
Definition bare (name : string) : Value :=
  Mapping [("name", Text name)].

(** A kubeconfig with two contexts, the second one current. *)
Definition twoContexts : Value :=
  Mapping [("current-context", Text "prod");
           ("contexts", Sequence [entry "dev" "c1" "alice"; entry "prod" "c2" "bob"])].

(** A kubeconfig whose last entry, not the current one, lacks its
    [context]. *)
Definition oneBare : Value :=
  Mapping [("current-context", Text "dev");
           ("contexts", Sequence [entry "dev" "c1" "alice"; bare "broken"])].

Definition getAvailableContexts (document : Value)
  : Js.Settled (list (ContextInfo.t Value)) :=
  Kubernetes.getAvailableContexts Value truthy prop strictEq elements
    cannotRead notFunction "/home/.kube/config" (fun _ => true)
    (fun _ => Kubernetes.Document (Some document)) None None.

Definition getCurrentContextInfo (document : Value)
  : Js.Settled (option (ContextInfo.t Value)) :=
  Kubernetes.getCurrentContextInfo Value truthy prop strictEq elements
    cannotRead notFunction "/home/.kube/config" (fun _ => true)
    (fun _ => Kubernetes.Document (Some document)) None None.

End SampleKube.

(* ===================================================================== *)
(** ** [log-filter.js]: running [jq] *)
(* ===================================================================== *)

Module Jq.

(** What the spawned [jq] does. *)
Inductive Event : Type :=
| Stdout (data : string)
| Stderr (data : string)
| Close (code : Z)
| Error (message : string).

(** What [spawn('jq', args)] comes to: it throws at once, with a
    message (a filter that holds a NUL byte is refused so), or it
    returns a process, which then gives rise to events. *)
Inductive Launch : Type :=
| Throws (message : string)
| Started (events : list Event).

(** The double quote and the line feed. *)
Definition quote : string := String (ascii_of_nat 34) EmptyString.
Definition newline : ascii := ascii_of_nat 10.

(** [reject(new Error(message))]: no effect on a settled promise. *)
Definition reject {A : Type} (message : string) (promise : Js.Promise A)
  : Js.Promise A :=
  match promise with
  | Js.Pending => Js.Broken message
  | settled => settled
  end.

Section WithHost.

(** The values [JSON.parse] yields, with [None] for [null]; a
    [SyntaxError] is [Js.Rejected] with its message. *)
Context {Json : Type}.
Variable parse : string -> Js.Settled (option Json).

(** [JSON.stringify({ items: logs })], and what [spawn('jq', args)]
    comes to, fed the input once it has started. *)
Variable stringify : list FlowLog.t -> string.
Variable spawn : list string -> string -> Launch.

(** [lines.map(...).filter(result => result !== null)]; the first line
    that does not parse throws. *)
Fixpoint parseLines (lines : list string) : Js.Settled (list Json) :=
  match lines with
  | [] => Js.Resolved []
  | line :: rest =>
      if (line =? "null")%string then parseLines rest
      else
        match parse line with
        | Js.Rejected message => Js.Rejected message
        | Js.Resolved value =>
            match parseLines rest with
            | Js.Rejected message => Js.Rejected message
            | Js.Resolved values =>
                Js.Resolved
                  match value with
                  | Some json => json :: values
                  | None => values
                  end
            end
        end
  end.

(** The body of the [close] listener for code 0. *)
Definition onSuccess (output : string) (promise : Js.Promise (list Json))
  : Js.Promise (list Json) :=
  if negb (Js.truthy (Js.trim output)) then Js.resolve [] promise
  else
    let lines :=
      List.filter (fun line => Js.truthy (Js.trim line))
        (Js.split newline (Js.trim output)) in
    match lines with
    | [] => Js.resolve [] promise
    | _ :: _ =>
        match parseLines lines with
        | Js.Resolved results => Js.resolve results promise
        | Js.Rejected message =>
            reject
              ("Failed to parse JQ output: " ++ message ++ ". Output: "
               ++ quote ++ Js.trim output ++ quote)%string
              promise
        end
    end.

Record Process : Type := makeProcess {
  output : string;
  errorOutput : string;
  promise : Js.Promise (list Json)
}.

Definition started : Process :=
  {| output := ""; errorOutput := ""; promise := Js.Pending |}.

Definition onEvent (process : Process) (event : Event) : Process :=
  match event with
  | Stdout data =>
      {| output := (output process ++ data)%string;
         errorOutput := errorOutput process;
         promise := promise process |}
  | Stderr data =>
      {| output := output process;
         errorOutput := (errorOutput process ++ data)%string;
         promise := promise process |}
  | Close code =>
      {| output := output process;
         errorOutput := errorOutput process;
         promise :=
           if code =? 0 then onSuccess (output process) (promise process)
           else reject ("JQ filter failed: " ++ errorOutput process)%string
                  (promise process) |}
  | Error message =>
      {| output := output process;
         errorOutput := errorOutput process;
         promise :=
           reject ("Failed to execute JQ: " ++ message)%string (promise process) |}
  end.

(** The promise of [executeJqFilter(logs, filter)] once the host has
    nothing more to deliver; there is no timer.  [spawn] is called
    inside the executor of the promise, so what it throws rejects the
    promise, with the message as it is. *)
Definition executeJqFilter (logs : list FlowLog.t) (filter : string)
  : Js.Promise (list Json) :=
  match spawn ["-c"; filter] (stringify logs) with
  | Throws message => Js.Broken message
  | Started events => promise (fold_left onEvent events started)
  end.

End WithHost.

End Jq.

(* ===================================================================== *)
(** ** [calico-whisker.js]: the promise of the port-forward *)
(* ===================================================================== *)

Module PortForward.

(** What [kubectl port-forward] does before the five-second timer
    fires; [code] is [None] when the process was ended by a signal. *)
Inductive Event : Type :=
| Stdout (data : string)
| Stderr (data : string)
| Error (message : string)
| Close (code : option Z).

Definition lf : string := String (ascii_of_nat 10) EmptyString.

(** [errorMessage] of the [close] listener. *)
Definition closeMessage (code : option Z) (errorOutput : string) : string :=
  let errorMessage :=
    ("Port-forward process exited with code " ++ Js.templateItem code)%string in
  let errorMessage :=
    if Js.truthy errorOutput
    then (errorMessage ++ lf ++ "Error output: " ++ Js.trim errorOutput)%string
    else errorMessage in
  let errorMessage :=
    match code with
    | Some 1 =>
        (errorMessage
         ++ lf ++ lf ++ "Troubleshooting for exit code 1:"
         ++ lf ++ "- Check if the whisker service exists: kubectl get service whisker -n calico-system"
         ++ lf ++ "- Verify you have permissions to access calico-system namespace"
         ++ lf ++ "- Ensure your kubeconfig context is correct"
         ++ lf ++ "- Check if the service is ready: kubectl get pods -n calico-system -l app.kubernetes.io/name=whisker")%string
    | _ => errorMessage
    end in
  (errorMessage ++ lf
   ++ "This may indicate a Kubernetes connection issue or missing service.")%string.

Definition timeoutMessage : string :=
  "Port-forward failed to establish within timeout period (5 seconds)".

(** [reject(new Error(message))]: no effect on a settled promise. *)
Definition reject {A : Type} (message : string) (promise : Js.Promise A)
  : Js.Promise A :=
  match promise with
  | Js.Pending => Js.Broken message
  | settled => settled
  end.

(** The variables the listeners share: [errorOutput], [resolved],
    whether [this.portForwardProcess] is still set, and the promise. *)
Record State : Type := makeState {
  errorOutput : string;
  resolved : bool;
  running : bool;
  promise : Js.Promise unit
}.

Definition started : State :=
  {| errorOutput := ""; resolved := false; running := true;
     promise := Js.Pending |}.

Definition onEvent (state : State) (event : Event) : State :=
  match event with
  | Stdout _ => state
  | Stderr output =>
      if Js.includes "Forwarding from" output then
        {| errorOutput := (errorOutput state ++ output)%string;
           resolved := true;
           running := running state;
           promise :=
             if negb (resolved state) then Js.resolve tt (promise state)
             else promise state |}
      else
        {| errorOutput := (errorOutput state ++ output)%string;
           resolved := resolved state;
           running := running state;
           promise := promise state |}
  | Error message =>
      {| errorOutput := errorOutput state;
         resolved := resolved state;
         running := false;
         promise :=
           if negb (resolved state)
           then reject ("Failed to start port-forward: " ++ message)%string
                  (promise state)
           else promise state |}
  | Close code =>
      {| errorOutput := errorOutput state;
         resolved := resolved state;
         running := false;
         promise :=
           if negb (resolved state)
           then reject (closeMessage code (errorOutput state)) (promise state)
           else promise state |}
  end.

(** The callback of [setTimeout]; [pid] tells whether the process that
    was spawned has a [pid]. *)
Definition onTimer (pid : bool) (state : State) : State :=
  if running state && pid && negb (resolved state) then
    {| errorOutput := errorOutput state;
       resolved := true;
       running := running state;
       promise := Js.resolve tt (promise state) |}
  else if negb (resolved state) then
    {| errorOutput := errorOutput state;
       resolved := resolved state;
       running := running state;
       promise := reject timeoutMessage (promise state) |}
  else state.

(** The promise [setupPortForward] returns after its pre-flight checks,
    once the events before the timer and the timer have been
    delivered. *)
Definition established (pid : bool) (events : list Event) : Js.Promise unit :=
  promise (onTimer pid (fold_left onEvent events started)).

End PortForward.

(* ===================================================================== *)
(** ** Sums and orders used to state further properties *)
(* ===================================================================== *)

Module Notions.

(** The sum of [measure] over a list. *)
Definition total {A : Type} (measure : A -> Z) (xs : list A) : Z :=
  fold_right (fun x acc => measure x + acc) 0 xs.

(** [a] is not after [b] under the comparison [cmp] of a sort. *)
Definition inOrder {A : Type} (cmp : A -> A -> Z) (a b : A) : Prop :=
  cmp a b <= 0.

(** The comparison of views that the sort of their flows induces. *)
Definition byViewStart (localeCompare : string -> string -> Z)
    (a b : FlowView.t) : Z :=
  localeCompare (FlowView.timeRange_start a) (FlowView.timeRange_start b).

(** A [localeCompare] on bytes: the sign of the lexicographic order. *)
Definition byteCompare (a b : string) : Z :=
  match String_as_OT.compare a b with
  | Lt => -1
  | Eq => 0
  | Gt => 1
  end.

(** What the two loops of [analyzeBlockedFlows] find in a record, in
    their order: the named triggers of the pending hits, then those of
    the enforced Deny hits, each with its reason. *)
Definition findings (log : FlowLog.t) : list (Policy.t * string) :=
  List.flat_map
    (fun hit =>
       match Analyzer.namedTrigger hit with
       | Some trigger => [(trigger, Analyzer.pendingReason hit)]
       | None => []
       end)
    (Aggregator.pendingOf log)
  ++ List.flat_map
       (fun hit =>
          if (Policy.action hit =? "Deny")%string then
            match Analyzer.namedTrigger hit with
            | Some trigger => [(trigger, Analyzer.enforcedReason)]
            | None => []
            end
          else [])
       (Aggregator.enforcedOf log).

(** Output events, and the text the [stdout] ones carry. *)
Definition isData (event : Kubectl.Event) : bool :=
  match event with
  | Kubectl.Stdout _ | Kubectl.Stderr _ => true
  | _ => false
  end.

Fixpoint stdoutOf (events : list Kubectl.Event) : string :=
  match events with
  | [] => ""
  | Kubectl.Stdout data :: rest => (data ++ stdoutOf rest)%string
  | _ :: rest => stdoutOf rest
  end.

(** The records [analyzeBlockedFlows] keeps: the denied ones, on either
    side of the namespace when one is given. *)
Definition denied (namespace : option string) (log : FlowLog.t) : bool :=
  (FlowLog.action log =? "Deny")%string
  && (if Js.truthyOpt namespace then LogFilter.inNamespace namespace log else true).

(** A [getTime] that knows the two instants of the denied sample
    records, in milliseconds, and no other string. *)
Definition clock (s : string) : option Z :=
  if (s =? "2025-07-02T23:10:00Z")%string then Some 1751497800000
  else if (s =? "2025-07-02T23:11:00Z")%string then Some 1751497860000
  else None.

(** The analysis of three sample records of [shop], one of them
    allowed, on a host that prints a policy for every kind it knows. *)
Definition analysisDoc : AnalysisDoc.t :=
  {| AnalysisDoc.namespace := "shop";
     AnalysisDoc.analysis_totalBlockedFlows := 2;
     AnalysisDoc.analysis_uniqueBlockedConnections := 1;
     AnalysisDoc.analysis_timeWindow_start := Some 1751497800000;
     AnalysisDoc.analysis_timeWindow_end := Some 1751497860000;
     AnalysisDoc.blockedFlows :=
       List.map (Analyzer.analyzeLog None Sample.spawnPrints)
         [Sample.denied; Sample.deniedNameless];
     AnalysisDoc.securityInsights_message := "🚨 2 blocked flow(s) detected";
     AnalysisDoc.securityInsights_recommendations := Analyzer.recommendations |}.

(** A grouping of records under a partial key, spelt out: the keys in
    the order of their first record, and under each key the records
    that have it, in the order of the list. *)
Definition keysOf {A : Type} (keyOf : A -> option string) (xs : list A)
  : list string :=
  List.flat_map
    (fun x => match keyOf x with Some key => [key] | None => [] end) xs.

Definition firstSeen {A : Type} (keyOf : A -> option string) (xs : list A)
  : list string :=
  Js.unique (keysOf keyOf xs).

Definition filedUnder {A : Type} (keyOf : A -> option string) (key : string)
    (x : A) : bool :=
  match keyOf x with
  | Some key' => (key' =? key)%string
  | None => false
  end.

Definition membersOf {A : Type} (keyOf : A -> option string) (key : string)
    (xs : list A) : list A :=
  List.filter (filedUnder keyOf key) xs.

Definition grouped {A : Type} (keyOf : A -> option string) (xs : list A)
  : Js.Map (list A) :=
  List.map (fun key => (key, membersOf keyOf key xs)) (firstSeen keyOf xs).

(** The key of the inner grouping of [generateCalicoNetworkPolicies]:
    every flow has one. *)
Definition byDestination (flow : AggregatedLog.t) : option string :=
  Some (LogFilter.destKey flow).

(** The key of [aggregationMap]: every record has one. *)
Definition byAggregationKey (log : FlowLog.t) : option string :=
  Some (LogFilter.aggregationKey log).

(** The row of [aggregateLogsForPolicyGeneration] that stands for the
    records [members]: the endpoints, protocol and port of the first of
    them, their number, their traffic, and their distinct actions in
    the order of first appearance. *)
Definition standsFor (members : list FlowLog.t) (row : AggregatedLog.t) : Prop :=
  (exists first rest,
     members = first :: rest
     /\ AggregatedLog.source_name row = FlowLog.source_name first
     /\ AggregatedLog.source_namespace row = FlowLog.source_namespace first
     /\ AggregatedLog.source_labels row = FlowLog.source_labels first
     /\ AggregatedLog.dest_name row = FlowLog.dest_name first
     /\ AggregatedLog.dest_namespace row = FlowLog.dest_namespace first
     /\ AggregatedLog.dest_labels row = FlowLog.dest_labels first
     /\ AggregatedLog.protocol row = FlowLog.protocol first
     /\ AggregatedLog.dest_port row = FlowLog.dest_port first)
  /\ AggregatedLog.flow_count row = Z.of_nat (List.length members)
  /\ AggregatedLog.total_packets row =
       total (fun log => FlowLog.packets_in log + FlowLog.packets_out log) members
  /\ AggregatedLog.total_bytes row =
       total (fun log => FlowLog.bytes_in log + FlowLog.bytes_out log) members
  /\ AggregatedLog.actions row = Js.unique (List.map FlowLog.action members).

(** A port number a flow can carry in earnest. *)
Definition isPort (z : Z) : Prop := 0 < z <= 65535.

(** A character of [a-z0-9-]. *)
Definition isNameChar (c : ascii) : bool :=
  let n := nat_of_ascii c in
  (((97 <=? n) && (n <=? 122)) || ((48 <=? n) && (n <=? 57)) || (n =? 45))%nat.

Definition isName (s : string) : bool :=
  List.forallb isNameChar (list_ascii_of_string s).

(** Label strings as the flow logs write them: [key=value] pairs
    joined by a bar between two spaces. *)
Definition labelText (pairs : list (string * string)) : string :=
  Js.join " | " (List.map (fun p => (fst p ++ "=" ++ snd p)%string) pairs).

(** The first pair with the key [key] and a value that is not empty. *)
Fixpoint labelOf (key : string) (pairs : list (string * string))
  : option string :=
  match pairs with
  | [] => None
  | (k, v) :: rest =>
      if (k =? key)%string && Js.truthy v then Some v else labelOf key rest
  end.

(** The character [c] does not occur in [s]. *)
Definition free (c : ascii) (s : string) : bool :=
  negb (List.existsb (Ascii.eqb c) (list_ascii_of_string s)).

Definition leadingSpace (s : string) : bool :=
  match s with
  | String c _ => Js.isSpace c
  | EmptyString => false
  end.

Fixpoint trailingSpace (s : string) : bool :=
  match s with
  | EmptyString => false
  | String c EmptyString => Js.isSpace c
  | String _ rest => trailingSpace rest
  end.

(** A key or a value of a label: ASCII, with no bar, no equals sign,
    and no white space at either end. *)
Definition isAscii (s : string) : bool :=
  List.forallb (fun c => (nat_of_ascii c <? 128)%nat) (list_ascii_of_string s).

Definition isWord (s : string) : bool :=
  isAscii s && free "|" s && free "=" s
  && negb (leadingSpace s) && negb (trailingSpace s).

(** The names the dispatcher knows. *)
Definition toolNames : list string :=
  [ "generate_network_policies"; "get_namespace_flow_summary";
    "analyze_blocked_flows" ] ++ Dispatcher.otherTools.

(** Events of [jq] that only carry output, and the text gathered from
    each stream. *)
Definition jqOutput (event : Jq.Event) : bool :=
  match event with
  | Jq.Stdout _ | Jq.Stderr _ => true
  | _ => false
  end.

Fixpoint jqStdout (events : list Jq.Event) : string :=
  match events with
  | [] => ""
  | Jq.Stdout data :: rest => (data ++ jqStdout rest)%string
  | _ :: rest => jqStdout rest
  end.

Fixpoint jqStderr (events : list Jq.Event) : string :=
  match events with
  | [] => ""
  | Jq.Stderr data :: rest => (data ++ jqStderr rest)%string
  | _ :: rest => jqStderr rest
  end.

(** Events of the port-forward that decide nothing: output that does
    not announce the forwarding; and what they leave on the error
    stream. *)
Definition undecided (event : PortForward.Event) : bool :=
  match event with
  | PortForward.Stdout _ => true
  | PortForward.Stderr output => negb (Js.includes "Forwarding from" output)
  | _ => false
  end.

Fixpoint forwardStderr (events : list PortForward.Event) : string :=
  match events with
  | [] => ""
  | PortForward.Stderr output :: rest => (output ++ forwardStderr rest)%string
  | _ :: rest => forwardStderr rest
  end.

End Notions.

(* ===================================================================== *)
(** * Properties *)
(* ===================================================================== *)

(** ** The embedding at work *)

Example flowKey_sample :
  Aggregator.flowKey Sample.allowedBySource
  = "frontend-*|shop|backend-*|shop|tcp|8080|Allow".
Proof. reflexivity. Qed.

Example extractLabelValue_sample :
  LogFilter.extractLabelValue
    "app=summary | pod-template-hash=57569999f | version=v1" "version"
  = Some "v1"
  /\ LogFilter.extractLabelValue "app=summary | version=" "version" = None
  /\ LogFilter.extractLabelValue "" "app" = None.
Proof. repeat split; reflexivity. Qed.

Example split_sample :
  Js.split "|" "kube-system|udp|53" = ["kube-system"; "udp"; "53"]
  /\ Js.split "|" "" = [""]
  /\ Js.split "|" "a||" = ["a"; ""; ""].
Proof. repeat split; reflexivity. Qed.

Example parseInt_sample :
  Js.parseInt "8080" = Some 8080
  /\ Js.parseInt " -12px" = Some (-12)
  /\ Js.parseInt "tcp" = None.
Proof. repeat split; reflexivity. Qed.

Example retrievePolicyDetails_sample :
  Kubectl.retrievePolicyDetails None Sample.spawnPrints
    "allow-web" "shop" "NetworkPolicy" = Js.Resolved (Some "kind: NetworkPolicy")
  /\ Kubectl.retrievePolicyDetails None Sample.spawnPrints
       "staged-deny" "shop" "StagedNetworkPolicy" = Js.Resolved None
  /\ Kubectl.arguments (Some "/tmp/kubeconfig") "networkpolicy"
       "allow-web" "shop" "NetworkPolicy"
     = ["--kubeconfig"; "/tmp/kubeconfig"; "get"; "networkpolicy";
        "allow-web"; "-o"; "yaml"; "-n"; "shop"].
Proof. repeat split; reflexivity. Qed.

(** ** Maps in insertion order *)

Section MapFacts.

Context {V : Type}.

Lemma mapGet_mapSet (k k' : string) (v : V) (m : Js.Map V) :
  Js.mapGet k (Js.mapSet k' v m) =
  if (k' =? k)%string then Some v else Js.mapGet k m.
Proof.
  induction m as [|[k0 v0] m IH]; simpl.
  - reflexivity.
  - destruct (String.eqb_spec k0 k') as [->|Hne]; simpl.
    + destruct (k' =? k)%string; reflexivity.
    + rewrite IH.
      destruct (String.eqb_spec k0 k) as [->|Hne'].
      * destruct (String.eqb_spec k' k) as [->|_]; [congruence|reflexivity].
      * reflexivity.
Qed.

Lemma mapGet_In (k : string) (v : V) (m : Js.Map V) :
  Js.mapGet k m = Some v -> In (k, v) m.
Proof.
  induction m as [|[k0 v0] m IH]; simpl; [discriminate|].
  destruct (String.eqb_spec k0 k) as [->|Hne].
  - intros [= ->]. now left.
  - intros H. right. auto.
Qed.

Lemma mapGet_None (k : string) (m : Js.Map V) :
  Js.mapGet k m = None <-> ~ In k (Js.mapKeys m).
Proof.
  induction m as [|[k0 v0] m IH]; simpl.
  - tauto.
  - destruct (String.eqb_spec k0 k) as [->|Hne].
    + split; [discriminate|]. intros H. exfalso. apply H. now left.
    + rewrite IH. split; [intros H [E|I]; [congruence|auto] | tauto].
Qed.

End MapFacts.

(** ** The order on strings *)

Lemma lt_irrefl (x : string) : Js.lt x x = false.
Proof.
  unfold Js.lt.
  destruct (String_as_OT.compare_spec x x) as [_|H|H]; try reflexivity;
    exfalso; exact (StrictOrder_Irreflexive (R := String_as_OT.lt) x H).
Qed.

Lemma lt_trans (x y z : string) :
  Js.lt x y = true -> Js.lt y z = true -> Js.lt x z = true.
Proof.
  unfold Js.lt.
  destruct (String_as_OT.compare x y) eqn:Hxy; try discriminate.
  destruct (String_as_OT.compare y z) eqn:Hyz; try discriminate.
  intros _ _.
  assert (H : String_as_OT.lt x z).
  { exact (StrictOrder_Transitive (R := String_as_OT.lt) x y z Hxy Hyz). }
  unfold String_as_OT.lt in H. now rewrite H.
Qed.

Lemma lt_total (x y : string) :
  Js.lt x y = false -> Js.lt y x = false -> x = y.
Proof.
  unfold Js.lt.
  destruct (String_as_OT.compare_spec x y) as [E|H|H]; try discriminate.
  - auto.
  - unfold String_as_OT.lt in H. now rewrite H.
Qed.

(** Keeping the least, or the greatest, of the strings seen so far. *)
Section Pick.

Variable before : string -> string -> bool.
Hypothesis before_irrefl : forall x, before x x = false.
Hypothesis before_trans :
  forall x y z, before x y = true -> before y z = true -> before x z = true.
Hypothesis before_total :
  forall x y, before x y = false -> before y x = false -> x = y.

Local Abbreviation pick := (Spec.pick before).

Lemma before_asym (x y : string) : before x y = true -> before y x = false.
Proof.
  intros H. destruct (before y x) eqn:E; [|reflexivity].
  rewrite <- (before_irrefl x). symmetry. eauto.
Qed.

Lemma pick_comm (x y : string) : pick x y = pick y x.
Proof.
  unfold Spec.pick.
  destruct (before y x) eqn:Hyx.
  - now rewrite (before_asym _ _ Hyx).
  - destruct (before x y) eqn:Hxy; [reflexivity|]. now apply before_total.
Qed.

Lemma pick_swap (c x y : string) : pick (pick c x) y = pick (pick c y) x.
Proof.
  unfold Spec.pick.
  destruct (before x c) eqn:Hxc, (before y c) eqn:Hyc;
    rewrite ?Hxc, ?Hyc.
  - apply pick_comm.
  - destruct (before y x) eqn:Hyx.
    + rewrite (before_trans _ _ _ Hyx Hxc) in Hyc. discriminate.
    + reflexivity.
  - destruct (before x y) eqn:Hxy.
    + rewrite (before_trans _ _ _ Hxy Hyc) in Hxc. discriminate.
    + reflexivity.
  - reflexivity.
Qed.

Lemma fold_pick_perm (xs ys : list string) :
  Permutation xs ys ->
  forall c, fold_left pick xs c = fold_left pick ys c.
Proof.
  induction 1 as [|x xs ys _ IH|x y xs|xs ys zs _ IH1 _ IH2]; intros c; simpl.
  - reflexivity.
  - apply IH.
  - now rewrite pick_swap.
  - now rewrite IH1.
Qed.

(** The extreme string of a non-empty list does not depend on which
    of its elements comes first. *)
Lemma fold_pick_perm_cons (x y : string) (xs ys : list string) :
  Permutation (x :: xs) (y :: ys) ->
  fold_left pick xs x = fold_left pick ys y.
Proof.
  intros HP.
  destruct (string_dec x y) as [->|Hne].
  - apply fold_pick_perm. now apply Permutation_cons_inv in HP.
  - assert (Hin : In y xs).
    { assert (H : In y (x :: xs))
        by (apply (Permutation_in _ (Permutation_sym HP)); now left).
      destruct H as [E|H]; [congruence|exact H]. }
    destruct (in_split _ _ Hin) as (l1 & l2 & ->).
    assert (HP' : Permutation (x :: l1 ++ l2) ys).
    { apply (Permutation_cons_inv (a := y)).
      rewrite <- HP. rewrite perm_swap. apply perm_skip.
      apply Permutation_middle. }
    rewrite <- (fold_pick_perm _ _ HP' y). simpl.
    rewrite (fold_pick_perm (l1 ++ y :: l2) (y :: l1 ++ l2)
               (Permutation_sym (Permutation_middle _ _ _)) x).
    simpl. now rewrite pick_comm.
Qed.

End Pick.

(** ** The flow map of [getNamespaceFlowSummary] *)

Import Aggregator.

Lemma recordPolicies_closed (reporter : string) (ps : list Policy.t) :
  forall flow,
    fold_left (recordPolicy reporter) ps flow =
    {| Flow.source := Flow.source flow;
       Flow.sourceNamespace := Flow.sourceNamespace flow;
       Flow.destination := Flow.destination flow;
       Flow.destNamespace := Flow.destNamespace flow;
       Flow.protocol := Flow.protocol flow;
       Flow.port := Flow.port flow;
       Flow.sourceAction := Flow.sourceAction flow;
       Flow.destAction := Flow.destAction flow;
       Flow.packetsIn := Flow.packetsIn flow;
       Flow.packetsOut := Flow.packetsOut flow;
       Flow.bytesIn := Flow.bytesIn flow;
       Flow.bytesOut := Flow.bytesOut flow;
       Flow.startTime := Flow.startTime flow;
       Flow.endTime := Flow.endTime flow;
       Flow.sourcePolicies :=
         if (reporter =? "Src")%string
         then Spec.addNames (Flow.sourcePolicies flow) ps
         else Flow.sourcePolicies flow;
       Flow.destPolicies :=
         if (reporter =? "Src")%string then Flow.destPolicies flow
         else if (reporter =? "Dst")%string
         then Spec.addNames (Flow.destPolicies flow) ps
         else Flow.destPolicies flow;
       Flow.enforcedPolicies := Flow.enforcedPolicies flow ++ ps |}.
Proof.
  induction ps as [|p ps IH]; intros flow; simpl.
  - rewrite app_nil_r. destruct flow; simpl.
    destruct (reporter =? "Src")%string, (reporter =? "Dst")%string; reflexivity.
  - rewrite IH. simpl. rewrite <- app_assoc. simpl.
    destruct (reporter =? "Src")%string, (reporter =? "Dst")%string; reflexivity.
Qed.

Lemma addNames_In (ps : list Policy.t) :
  forall names x,
    In x (Spec.addNames names ps) <-> In x names \/ In x (List.map policyName ps).
Proof.
  unfold Spec.addNames.
  induction ps as [|p ps IH]; intros names x; simpl.
  - tauto.
  - rewrite IH. rewrite set_add_iff. intuition.
Qed.

(** *** One merge, field by field *)

Ltac merge_field := intros; unfold mergeFlow; rewrite recordPolicies_closed; reflexivity.

Lemma mergeFlow_packetsIn e l :
  Flow.packetsIn (mergeFlow e l) = Js.add (Flow.packetsIn e) (FlowLog.packets_in l).
Proof. merge_field. Qed.

Lemma mergeFlow_packetsOut e l :
  Flow.packetsOut (mergeFlow e l) = Js.add (Flow.packetsOut e) (FlowLog.packets_out l).
Proof. merge_field. Qed.

Lemma mergeFlow_bytesIn e l :
  Flow.bytesIn (mergeFlow e l) = Js.add (Flow.bytesIn e) (FlowLog.bytes_in l).
Proof. merge_field. Qed.

Lemma mergeFlow_bytesOut e l :
  Flow.bytesOut (mergeFlow e l) = Js.add (Flow.bytesOut e) (FlowLog.bytes_out l).
Proof. merge_field. Qed.

Lemma mergeFlow_startTime e l :
  Flow.startTime (mergeFlow e l) = Spec.pick Js.lt (Flow.startTime e) (FlowLog.start_time l).
Proof. merge_field. Qed.

Lemma mergeFlow_endTime e l :
  Flow.endTime (mergeFlow e l) = Spec.pick Js.gt (Flow.endTime e) (FlowLog.end_time l).
Proof. merge_field. Qed.

Lemma mergeFlow_enforcedPolicies e l :
  Flow.enforcedPolicies (mergeFlow e l) = Flow.enforcedPolicies e ++ enforcedOf l.
Proof. merge_field. Qed.

Lemma mergeFlow_sourcePolicies e l :
  Flow.sourcePolicies (mergeFlow e l) =
  if Spec.isSrc l then Spec.addNames (Flow.sourcePolicies e) (enforcedOf l)
  else Flow.sourcePolicies e.
Proof. merge_field. Qed.

Lemma mergeFlow_destPolicies e l :
  Flow.destPolicies (mergeFlow e l) =
  if Spec.isDst l then Spec.addNames (Flow.destPolicies e) (enforcedOf l)
  else Flow.destPolicies e.
Proof.
  intros; unfold mergeFlow; rewrite recordPolicies_closed. unfold Spec.isDst. simpl.
  destruct (FlowLog.reporter l =? "Src")%string, (FlowLog.reporter l =? "Dst")%string; reflexivity.
Qed.

Lemma mergeFlow_sourceAction e l :
  Flow.sourceAction (mergeFlow e l) =
  if Spec.isSrc l then
    if sourceConflict e l
    then (Flow.sourceAction e ++ "+" ++ FlowLog.action l)%string
    else FlowLog.action l
  else Flow.sourceAction e.
Proof. merge_field. Qed.

Lemma mergeFlow_destAction e l :
  Flow.destAction (mergeFlow e l) =
  if Spec.isDst l then
    if destConflict e l
    then (Flow.destAction e ++ "+" ++ FlowLog.action l)%string
    else FlowLog.action l
  else Flow.destAction e.
Proof.
  intros; unfold mergeFlow, updateActions, Spec.isDst, destConflict.
  rewrite recordPolicies_closed. simpl.
  destruct (FlowLog.reporter l =? "Src")%string, (FlowLog.reporter l =? "Dst")%string; reflexivity.
Qed.

(** *** A run of merges, field by field *)

(** Sums within [Js.maxExact] are exact. *)
Lemma add_exact (a b : Z) :
  Z.abs a + Z.abs b <= Js.maxExact -> Js.add a b = a + b.
Proof.
  intros H. unfold Js.add, Js.roundDouble.
  replace (Z.abs (a + b) <=? Js.maxExact) with true; [reflexivity|].
  symmetry. apply Z.leb_le. lia.
Qed.

Lemma magnitude_nonneg (counter : FlowLog.t -> Z) (ls : list FlowLog.t) :
  0 <= Spec.magnitude counter ls.
Proof.
  unfold Spec.magnitude, Spec.sumOf.
  induction ls as [|l ls IH]; cbn [fold_right]; [lia|].
  pose proof (Z.abs_nonneg (counter l)). lia.
Qed.

Lemma run_counter (field : Flow.t -> Z) (counter : FlowLog.t -> Z) :
  (forall e l, field (mergeFlow e l) = Js.add (field e) (counter l)) ->
  forall ls f,
    Z.abs (field f) + Spec.magnitude counter ls <= Js.maxExact ->
    field (fold_left mergeFlow ls f) = field f + Spec.sumOf counter ls.
Proof.
  intros Hmerge. induction ls as [|l ls IH]; intros f Hbound.
  - cbn [fold_left Spec.sumOf fold_right]. lia.
  - change (Spec.magnitude counter (l :: ls))
      with (Z.abs (counter l) + Spec.magnitude counter ls) in Hbound.
    change (Spec.sumOf counter (l :: ls)) with (counter l + Spec.sumOf counter ls).
    pose proof (magnitude_nonneg counter ls) as Hnn.
    assert (Hstep : field (mergeFlow f l) = field f + counter l)
      by (rewrite Hmerge; apply add_exact; lia).
    cbn [fold_left]. rewrite IH; rewrite Hstep; lia.
Qed.

Section Runs.

Variable ls : list FlowLog.t.

Lemma run_packetsIn : forall f,
  Z.abs (Flow.packetsIn f) + Spec.magnitude FlowLog.packets_in ls <= Js.maxExact ->
  Flow.packetsIn (fold_left mergeFlow ls f) =
  Flow.packetsIn f + Spec.sumOf FlowLog.packets_in ls.
Proof. apply run_counter, mergeFlow_packetsIn. Qed.

Lemma run_packetsOut : forall f,
  Z.abs (Flow.packetsOut f) + Spec.magnitude FlowLog.packets_out ls <= Js.maxExact ->
  Flow.packetsOut (fold_left mergeFlow ls f) =
  Flow.packetsOut f + Spec.sumOf FlowLog.packets_out ls.
Proof. apply run_counter, mergeFlow_packetsOut. Qed.

Lemma run_bytesIn : forall f,
  Z.abs (Flow.bytesIn f) + Spec.magnitude FlowLog.bytes_in ls <= Js.maxExact ->
  Flow.bytesIn (fold_left mergeFlow ls f) =
  Flow.bytesIn f + Spec.sumOf FlowLog.bytes_in ls.
Proof. apply run_counter, mergeFlow_bytesIn. Qed.

Lemma run_bytesOut : forall f,
  Z.abs (Flow.bytesOut f) + Spec.magnitude FlowLog.bytes_out ls <= Js.maxExact ->
  Flow.bytesOut (fold_left mergeFlow ls f) =
  Flow.bytesOut f + Spec.sumOf FlowLog.bytes_out ls.
Proof. apply run_counter, mergeFlow_bytesOut. Qed.

Lemma run_startTime : forall f,
  Flow.startTime (fold_left mergeFlow ls f) =
  fold_left (Spec.pick Js.lt) (List.map FlowLog.start_time ls) (Flow.startTime f).
Proof.
  induction ls as [|l ls' IH]; intros f; simpl; [reflexivity|].
  now rewrite IH, mergeFlow_startTime.
Qed.

Lemma run_endTime : forall f,
  Flow.endTime (fold_left mergeFlow ls f) =
  fold_left (Spec.pick Js.gt) (List.map FlowLog.end_time ls) (Flow.endTime f).
Proof.
  induction ls as [|l ls' IH]; intros f; simpl; [reflexivity|].
  now rewrite IH, mergeFlow_endTime.
Qed.

Lemma run_enforcedPolicies : forall f,
  Flow.enforcedPolicies (fold_left mergeFlow ls f) =
  Flow.enforcedPolicies f ++ List.flat_map enforcedOf ls.
Proof.
  induction ls as [|l ls' IH]; intros f; simpl; [now rewrite app_nil_r|].
  now rewrite IH, mergeFlow_enforcedPolicies, app_assoc.
Qed.

Lemma run_sourcePolicies : forall f x,
  In x (Flow.sourcePolicies (fold_left mergeFlow ls f)) <->
  In x (Flow.sourcePolicies f) \/ In x (Spec.namesBy Spec.isSrc ls).
Proof.
  induction ls as [|l ls' IH]; intros f x; simpl; [tauto|].
  rewrite IH, mergeFlow_sourcePolicies, in_app_iff.
  destruct (Spec.isSrc l); [rewrite addNames_In|]; simpl; tauto.
Qed.

Lemma run_destPolicies : forall f x,
  In x (Flow.destPolicies (fold_left mergeFlow ls f)) <->
  In x (Flow.destPolicies f) \/ In x (Spec.namesBy Spec.isDst ls).
Proof.
  induction ls as [|l ls' IH]; intros f x; simpl; [tauto|].
  rewrite IH, mergeFlow_destPolicies, in_app_iff.
  destruct (Spec.isDst l); [rewrite addNames_In|]; simpl; tauto.
Qed.

End Runs.

(** With one action [a] on every record, a side action that is the
    sentinel or [a] stays so, and no concatenation takes place. *)
Lemma merge_sourceAction_one (a : string) (f : Flow.t) (l : FlowLog.t) :
  FlowLog.action l = a ->
  Flow.sourceAction f = "N/A" \/ Flow.sourceAction f = a ->
  sourceConflict f l = false /\
  Flow.sourceAction (mergeFlow f l) =
  if Spec.isSrc l then a else Flow.sourceAction f.
Proof.
  intros Hl Hf.
  assert (Hc : sourceConflict f l = false).
  { unfold sourceConflict. rewrite Hl.
    destruct Hf as [-> | ->]; simpl;
      rewrite ?String.eqb_refl, ?andb_false_r; reflexivity. }
  split; [exact Hc|].
  rewrite mergeFlow_sourceAction, Hc, Hl. reflexivity.
Qed.

Lemma merge_destAction_one (a : string) (f : Flow.t) (l : FlowLog.t) :
  FlowLog.action l = a ->
  Flow.destAction f = "N/A" \/ Flow.destAction f = a ->
  destConflict f l = false /\
  Flow.destAction (mergeFlow f l) =
  if Spec.isDst l then a else Flow.destAction f.
Proof.
  intros Hl Hf.
  assert (Hc : destConflict f l = false).
  { unfold destConflict. rewrite Hl.
    destruct Hf as [-> | ->]; simpl;
      rewrite ?String.eqb_refl, ?andb_false_r; reflexivity. }
  split; [exact Hc|].
  rewrite mergeFlow_destAction, Hc, Hl. reflexivity.
Qed.

Lemma run_sourceAction (a : string) (ls : list FlowLog.t) :
  Forall (fun l => FlowLog.action l = a) ls ->
  forall f,
    Flow.sourceAction f = "N/A" \/ Flow.sourceAction f = a ->
    Flow.sourceAction (fold_left mergeFlow ls f) =
    if List.existsb Spec.isSrc ls then a else Flow.sourceAction f.
Proof.
  induction 1 as [|l ls' Hl _ IH]; intros f Hf; simpl; [reflexivity|].
  destruct (merge_sourceAction_one a f l Hl Hf) as [_ Hstep].
  rewrite IH; rewrite Hstep.
  - destruct (Spec.isSrc l); simpl; [now destruct (existsb _ _)|reflexivity].
  - destruct (Spec.isSrc l); auto.
Qed.

Lemma run_destAction (a : string) (ls : list FlowLog.t) :
  Forall (fun l => FlowLog.action l = a) ls ->
  forall f,
    Flow.destAction f = "N/A" \/ Flow.destAction f = a ->
    Flow.destAction (fold_left mergeFlow ls f) =
    if List.existsb Spec.isDst ls then a else Flow.destAction f.
Proof.
  induction 1 as [|l ls' Hl _ IH]; intros f Hf; simpl; [reflexivity|].
  destruct (merge_destAction_one a f l Hl Hf) as [_ Hstep].
  rewrite IH; rewrite Hstep.
  - destruct (Spec.isDst l); simpl; [now destruct (existsb _ _)|reflexivity].
  - destruct (Spec.isDst l); auto.
Qed.

(** *** The first record of a key *)

Lemma isDst_eq (l : FlowLog.t) :
  Spec.isDst l = (FlowLog.reporter l =? "Dst")%string.
Proof.
  unfold Spec.isDst.
  destruct (String.eqb_spec (FlowLog.reporter l) "Dst") as [->|_];
    [reflexivity|apply andb_false_r].
Qed.

Ltac new_field := intros; unfold newFlow; rewrite recordPolicies_closed; reflexivity.

Lemma newFlow_packetsIn l : Flow.packetsIn (newFlow l) = FlowLog.packets_in l.
Proof. new_field. Qed.

Lemma newFlow_packetsOut l : Flow.packetsOut (newFlow l) = FlowLog.packets_out l.
Proof. new_field. Qed.

Lemma newFlow_bytesIn l : Flow.bytesIn (newFlow l) = FlowLog.bytes_in l.
Proof. new_field. Qed.

Lemma newFlow_bytesOut l : Flow.bytesOut (newFlow l) = FlowLog.bytes_out l.
Proof. new_field. Qed.

Lemma newFlow_startTime l : Flow.startTime (newFlow l) = FlowLog.start_time l.
Proof. new_field. Qed.

Lemma newFlow_endTime l : Flow.endTime (newFlow l) = FlowLog.end_time l.
Proof. new_field. Qed.

Lemma newFlow_enforcedPolicies l : Flow.enforcedPolicies (newFlow l) = enforcedOf l.
Proof. new_field. Qed.

Lemma newFlow_sourceAction l :
  Flow.sourceAction (newFlow l) = if Spec.isSrc l then FlowLog.action l else "N/A".
Proof. new_field. Qed.

Lemma newFlow_destAction l :
  Flow.destAction (newFlow l) = if Spec.isDst l then FlowLog.action l else "N/A".
Proof. rewrite isDst_eq. new_field. Qed.

Lemma newFlow_sourcePolicies l x :
  In x (Flow.sourcePolicies (newFlow l)) <-> In x (Spec.namesBy Spec.isSrc [l]).
Proof.
  unfold newFlow; rewrite recordPolicies_closed; simpl.
  fold (Spec.isSrc l). rewrite app_nil_r.
  destruct (Spec.isSrc l); [rewrite addNames_In|]; simpl; tauto.
Qed.

Lemma newFlow_destPolicies l x :
  In x (Flow.destPolicies (newFlow l)) <-> In x (Spec.namesBy Spec.isDst [l]).
Proof.
  unfold newFlow; rewrite recordPolicies_closed; simpl.
  rewrite app_nil_r. unfold Spec.isDst.
  destruct (FlowLog.reporter l =? "Src")%string, (FlowLog.reporter l =? "Dst")%string;
    simpl; rewrite ?addNames_In; simpl; tauto.
Qed.

(** *** Sums, names and sides under permutation *)

Lemma sumOf_perm (counter : FlowLog.t -> Z) (ls ls' : list FlowLog.t) :
  Permutation ls ls' -> Spec.sumOf counter ls = Spec.sumOf counter ls'.
Proof. induction 1; simpl; lia. Qed.

Lemma existsb_perm (side : FlowLog.t -> bool) (ls ls' : list FlowLog.t) :
  Permutation ls ls' -> List.existsb side ls = List.existsb side ls'.
Proof.
  induction 1 as [|x xs ys _ IH|x y xs|xs ys zs _ IH1 _ IH2]; simpl.
  - reflexivity.
  - now rewrite IH.
  - now rewrite !orb_assoc, (orb_comm (side y)).
  - now rewrite IH1.
Qed.

Lemma namesBy_perm (side : FlowLog.t -> bool) (ls ls' : list FlowLog.t) :
  Permutation ls ls' ->
  Spec.sameMembers (Spec.namesBy side ls) (Spec.namesBy side ls').
Proof.
  intros HP x. unfold Spec.namesBy.
  split; apply Permutation_in; [|symmetry]; now apply Permutation_flat_map.
Qed.

Lemma filter_perm {A : Type} (keep : A -> bool) (xs ys : list A) :
  Permutation xs ys -> Permutation (List.filter keep xs) (List.filter keep ys).
Proof.
  induction 1 as [|x xs ys _ IH|x y xs|xs ys zs _ IH1 _ IH2]; simpl.
  - constructor.
  - destruct (keep x); [now constructor|exact IH].
  - destruct (keep x), (keep y); try reflexivity. constructor.
  - now transitivity (List.filter keep ys).
Qed.

Lemma gt_irrefl (x : string) : Js.gt x x = false.
Proof. apply lt_irrefl. Qed.

Lemma gt_trans (x y z : string) :
  Js.gt x y = true -> Js.gt y z = true -> Js.gt x z = true.
Proof. unfold Js.gt. intros H1 H2. exact (lt_trans _ _ _ H2 H1). Qed.

Lemma gt_total (x y : string) :
  Js.gt x y = false -> Js.gt y x = false -> x = y.
Proof. unfold Js.gt. intros H1 H2. exact (lt_total _ _ H2 H1). Qed.

Lemma exactCounters_perm (ls ls' : list FlowLog.t) :
  Permutation ls ls' -> Spec.exactCounters ls -> Spec.exactCounters ls'.
Proof.
  intros HP. unfold Spec.exactCounters, Spec.magnitude.
  now rewrite !(sumOf_perm _ _ _ HP).
Qed.

Lemma magnitude_filter (counter : FlowLog.t -> Z) (keep : FlowLog.t -> bool)
    (ls : list FlowLog.t) :
  Spec.magnitude counter (List.filter keep ls) <= Spec.magnitude counter ls.
Proof.
  induction ls as [|l ls IH]; [reflexivity|].
  cbn [List.filter].
  change (Spec.magnitude counter (l :: ls))
    with (Z.abs (counter l) + Spec.magnitude counter ls).
  pose proof (Z.abs_nonneg (counter l)).
  destruct (keep l); [|lia].
  change (Spec.magnitude counter (l :: List.filter keep ls))
    with (Z.abs (counter l) + Spec.magnitude counter (List.filter keep ls)).
  lia.
Qed.

Lemma exactCounters_filter (keep : FlowLog.t -> bool) (ls : list FlowLog.t) :
  Spec.exactCounters ls -> Spec.exactCounters (List.filter keep ls).
Proof.
  unfold Spec.exactCounters. intros (H1 & H2 & H3 & H4).
  pose proof (magnitude_filter FlowLog.packets_in keep ls).
  pose proof (magnitude_filter FlowLog.packets_out keep ls).
  pose proof (magnitude_filter FlowLog.bytes_in keep ls).
  pose proof (magnitude_filter FlowLog.bytes_out keep ls).
  repeat split; lia.
Qed.

(** *** What the records of one key merge into *)

(** Within the bound the counters of a flow are the sums over its
    records. *)
Lemma mergeAll_counters (l : FlowLog.t) (ls : list FlowLog.t) :
  Spec.exactCounters (l :: ls) ->
  Flow.packetsIn (fold_left mergeFlow ls (newFlow l))
    = Spec.sumOf FlowLog.packets_in (l :: ls)
  /\ Flow.packetsOut (fold_left mergeFlow ls (newFlow l))
       = Spec.sumOf FlowLog.packets_out (l :: ls)
  /\ Flow.bytesIn (fold_left mergeFlow ls (newFlow l))
       = Spec.sumOf FlowLog.bytes_in (l :: ls)
  /\ Flow.bytesOut (fold_left mergeFlow ls (newFlow l))
       = Spec.sumOf FlowLog.bytes_out (l :: ls).
Proof.
  intros (H1 & H2 & H3 & H4).
  rewrite run_packetsIn, run_packetsOut, run_bytesIn, run_bytesOut;
    rewrite ?newFlow_packetsIn, ?newFlow_packetsOut, ?newFlow_bytesIn,
      ?newFlow_bytesOut;
    try assumption.
  repeat split; reflexivity.
Qed.

Lemma mergeAll_perm (a : string) (ls ls' : list FlowLog.t) :
  Permutation ls ls' ->
  Forall (fun l => FlowLog.action l = a) ls ->
  Spec.exactCounters ls ->
  match Spec.mergeAll ls, Spec.mergeAll ls' with
  | Some f, Some g => Spec.flowEquiv f g
  | None, None => True
  | _, _ => False
  end.
Proof.
  intros HP Ha Hexact.
  assert (Ha' : Forall (fun l => FlowLog.action l = a) ls').
  { rewrite Forall_forall in *. intros l Hl. apply Ha.
    now apply (Permutation_in _ (Permutation_sym HP)). }
  pose proof (exactCounters_perm _ _ HP Hexact) as Hexact'.
  destruct ls as [|l ls], ls' as [|l' ls']; simpl.
  - exact I.
  - now apply Permutation_nil_cons in HP.
  - symmetry in HP. now apply Permutation_nil_cons in HP.
  - inversion Ha as [|? ? Hl Hls]; inversion Ha' as [|? ? Hl' Hls']; subst.
    destruct (mergeAll_counters l ls Hexact) as (C1 & C2 & C3 & C4).
    destruct (mergeAll_counters l' ls' Hexact') as (C1' & C2' & C3' & C4').
    constructor.
    + rewrite C1, C1'. exact (sumOf_perm FlowLog.packets_in _ _ HP).
    + rewrite C2, C2'. exact (sumOf_perm FlowLog.packets_out _ _ HP).
    + rewrite C3, C3'. exact (sumOf_perm FlowLog.bytes_in _ _ HP).
    + rewrite C4, C4'. exact (sumOf_perm FlowLog.bytes_out _ _ HP).
    + rewrite !run_startTime, !newFlow_startTime.
      apply (fold_pick_perm_cons Js.lt lt_irrefl lt_trans lt_total).
      exact (Permutation_map FlowLog.start_time HP).
    + rewrite !run_endTime, !newFlow_endTime.
      apply (fold_pick_perm_cons Js.gt gt_irrefl gt_trans gt_total).
      exact (Permutation_map FlowLog.end_time HP).
    + assert (H1 : Flow.sourceAction (newFlow l) = "N/A"
                   \/ Flow.sourceAction (newFlow l) = FlowLog.action l)
        by (rewrite newFlow_sourceAction; destruct (Spec.isSrc l); auto).
      assert (H2 : Flow.sourceAction (newFlow l') = "N/A"
                   \/ Flow.sourceAction (newFlow l') = FlowLog.action l)
        by (rewrite newFlow_sourceAction, Hl'; destruct (Spec.isSrc l'); auto).
      rewrite (run_sourceAction _ _ Hls _ H1), (run_sourceAction _ _ Hls' _ H2).
      rewrite !newFlow_sourceAction, Hl'.
      generalize (existsb_perm Spec.isSrc _ _ HP). simpl.
      destruct (Spec.isSrc l), (Spec.isSrc l'),
        (existsb Spec.isSrc ls), (existsb Spec.isSrc ls');
        simpl; congruence.
    + assert (H1 : Flow.destAction (newFlow l) = "N/A"
                   \/ Flow.destAction (newFlow l) = FlowLog.action l)
        by (rewrite newFlow_destAction; destruct (Spec.isDst l); auto).
      assert (H2 : Flow.destAction (newFlow l') = "N/A"
                   \/ Flow.destAction (newFlow l') = FlowLog.action l)
        by (rewrite newFlow_destAction, Hl'; destruct (Spec.isDst l'); auto).
      rewrite (run_destAction _ _ Hls _ H1), (run_destAction _ _ Hls' _ H2).
      rewrite !newFlow_destAction, Hl'.
      generalize (existsb_perm Spec.isDst _ _ HP). simpl.
      destruct (Spec.isDst l), (Spec.isDst l'),
        (existsb Spec.isDst ls), (existsb Spec.isDst ls');
        simpl; congruence.
    + intros x. rewrite !run_sourcePolicies, !newFlow_sourcePolicies.
      generalize (namesBy_perm Spec.isSrc _ _ HP x).
      unfold Spec.namesBy. simpl. rewrite !app_nil_r, !in_app_iff. tauto.
    + intros x. rewrite !run_destPolicies, !newFlow_destPolicies.
      generalize (namesBy_perm Spec.isDst _ _ HP x).
      unfold Spec.namesBy. simpl. rewrite !app_nil_r, !in_app_iff. tauto.
    + rewrite !run_enforcedPolicies, !newFlow_enforcedPolicies.
      exact (Permutation_flat_map enforcedOf HP).
Qed.

(** *** The flow map, key by key *)

Lemma mapGet_step (k : string) (m : Js.Map Flow.t) (l : FlowLog.t) :
  Js.mapGet k (step m l) =
  if Spec.hasKey k l then Some (Spec.stepAt (Js.mapGet k m) l) else Js.mapGet k m.
Proof.
  unfold step, Spec.hasKey, Spec.stepAt.
  destruct (String.eqb_spec (flowKey l) k) as [<-|Hne].
  - destruct (Js.mapGet (flowKey l) m);
      now rewrite mapGet_mapSet, String.eqb_refl.
  - destruct (Js.mapGet (flowKey l) m); rewrite mapGet_mapSet;
      now destruct (String.eqb_spec (flowKey l) k).
Qed.

Lemma mapGet_run (k : string) (ls : list FlowLog.t) :
  forall m,
    Js.mapGet k (fold_left step ls m) =
    match Js.mapGet k m with
    | Some f => Some (fold_left mergeFlow (List.filter (Spec.hasKey k) ls) f)
    | None => Spec.mergeAll (List.filter (Spec.hasKey k) ls)
    end.
Proof.
  induction ls as [|l ls IH]; intros m; simpl.
  - now destruct (Js.mapGet k m).
  - rewrite IH, mapGet_step.
    destruct (Spec.hasKey k l); simpl; [|reflexivity].
    now destruct (Js.mapGet k m).
Qed.

Lemma mapGet_aggregate (k : string) (ls : list FlowLog.t) :
  Js.mapGet k (aggregate ls) = Spec.mergeAll (List.filter (Spec.hasKey k) ls).
Proof. unfold aggregate. now rewrite mapGet_run. Qed.

(** *** The action at the end of a key *)

Lemma split_nonempty (c : ascii) (s : string) : Js.split c s <> [].
Proof.
  destruct s as [|d s]; simpl; [discriminate|].
  destruct (Ascii.eqb d c); [discriminate|].
  destruct (Js.split c s); discriminate.
Qed.

Lemma split_app (c : ascii) (p x : string) :
  Js.split c (p ++ String c x) = Js.split c p ++ Js.split c x.
Proof.
  induction p as [|d p IH]; simpl.
  - now rewrite Ascii.eqb_refl.
  - destruct (Ascii.eqb d c); rewrite IH; [reflexivity|].
    destruct (Js.split c p) eqn:E; [now apply split_nonempty in E|reflexivity].
Qed.

Lemma split_barFree (x : string) :
  Spec.barFree x = true -> Js.split "|" x = [x].
Proof.
  unfold Spec.barFree. induction x as [|d x IH]; [reflexivity|].
  cbn [list_ascii_of_string existsb Js.split].
  rewrite negb_true_iff, orb_false_iff. intros [Hd Hx].
  rewrite Ascii.eqb_sym, Hd, IH; [reflexivity|now rewrite Hx].
Qed.

Lemma last_app_nonempty {A : Type} (xs ys : list A) (d : A) :
  ys <> [] -> List.last (xs ++ ys) d = List.last ys d.
Proof.
  intros Hys. induction xs as [|x xs IH]; simpl; [reflexivity|].
  destruct (xs ++ ys) eqn:E; [|exact IH].
  apply app_eq_nil in E. tauto.
Qed.

Lemma keyAction_app (p x : string) :
  Spec.keyAction (p ++ String "|" x) = Spec.keyAction x.
Proof.
  unfold Spec.keyAction. rewrite split_app.
  apply last_app_nonempty, split_nonempty.
Qed.

Lemma keyAction_flowKey (l : FlowLog.t) :
  Spec.barFree (FlowLog.action l) = true ->
  Spec.keyAction (flowKey l) = FlowLog.action l.
Proof.
  intros H. unfold flowKey, Js.join. simpl.
  rewrite !keyAction_app. unfold Spec.keyAction.
  now rewrite split_barFree.
Qed.

Lemma hasKey_action (k : string) (ls : list FlowLog.t) :
  Forall (fun l => Spec.barFree (FlowLog.action l) = true) ls ->
  Forall (fun l => FlowLog.action l = Spec.keyAction k)
    (List.filter (Spec.hasKey k) ls).
Proof.
  intros H. rewrite Forall_forall in *. intros l Hl.
  apply filter_In in Hl as [Hin Hk].
  unfold Spec.hasKey in Hk. apply String.eqb_eq in Hk. subst k.
  symmetry. now apply keyAction_flowKey, H.
Qed.

(** The endpoints, protocol and port of a flow are those of the record
    that opened it. *)
Lemma mergeAll_identity (l : FlowLog.t) (ls : list FlowLog.t) (f : Flow.t) :
  Spec.mergeAll (l :: ls) = Some f ->
  Flow.source f = FlowLog.source_name l
  /\ Flow.sourceNamespace f = FlowLog.source_namespace l
  /\ Flow.destination f = FlowLog.dest_name l
  /\ Flow.destNamespace f = FlowLog.dest_namespace l
  /\ Flow.protocol f = FlowLog.protocol l
  /\ Flow.port f = FlowLog.dest_port l.
Proof.
  simpl. intros [= <-].
  assert (H : forall g,
             Flow.source (fold_left mergeFlow ls g) = Flow.source g
             /\ Flow.sourceNamespace (fold_left mergeFlow ls g) = Flow.sourceNamespace g
             /\ Flow.destination (fold_left mergeFlow ls g) = Flow.destination g
             /\ Flow.destNamespace (fold_left mergeFlow ls g) = Flow.destNamespace g
             /\ Flow.protocol (fold_left mergeFlow ls g) = Flow.protocol g
             /\ Flow.port (fold_left mergeFlow ls g) = Flow.port g).
  { induction ls as [|l' ls' IH]; intros g; simpl; [repeat split|].
    destruct (IH (mergeFlow g l')) as (H1 & H2 & H3 & H4 & H5 & H6).
    rewrite H1, H2, H3, H4, H5, H6.
    unfold mergeFlow. rewrite recordPolicies_closed. repeat split. }
  destruct (H (newFlow l)) as (H1 & H2 & H3 & H4 & H5 & H6).
  rewrite H1, H2, H3, H4, H5, H6.
  unfold newFlow. rewrite recordPolicies_closed. repeat split.
Qed.

(** Two reports of one conversation add up: 10 and 5 packets in make
    15, 100 and 50 bytes in make 150. *)
Example merged_counters :
  List.map (fun entry => (Flow.packetsIn (snd entry), Flow.bytesIn (snd entry)))
    (aggregate [Sample.allowedBySource; Sample.allowedByDest]) = [(15, 150)].
Proof. reflexivity. Qed.

Lemma plainAction_spec (a : string) :
  Spec.plainAction a = true ->
  Spec.barFree a = true /\ Js.includes "+" a = false.
Proof.
  unfold Spec.plainAction. rewrite andb_true_iff, negb_true_iff. tauto.
Qed.

(** C1 as stated fails in two ways.  Counters are added as doubles,
    so past 2^53 the order of the records shows in the sums: one record
    of 2^53 packets followed by two of one packet leaves 2^53, the same
    records with the two small ones first leave 2^53 + 2.  And the key
    is a text joined with bars, so two records with different actions
    share a key when an action holds a bar, and the side action of
    their flow then lists the actions in the order of the records. *)
Lemma flow_set_depends_on_order :
  Permutation [Sample.heavy; Sample.light; Sample.light]
    [Sample.light; Sample.light; Sample.heavy]
  /\ List.map (fun entry => Flow.packetsIn (snd entry))
       (aggregate [Sample.heavy; Sample.light; Sample.light])
     = [9007199254740992]
  /\ List.map (fun entry => Flow.packetsIn (snd entry))
       (aggregate [Sample.light; Sample.light; Sample.heavy])
     = [9007199254740994]
  /\ ~ Spec.sameFlowSet
        (aggregate [Sample.heavy; Sample.light; Sample.light])
        (aggregate [Sample.light; Sample.light; Sample.heavy])
  /\ Permutation [Sample.barredA; Sample.barredB] [Sample.barredB; Sample.barredA]
  /\ flowKey Sample.barredA = flowKey Sample.barredB
  /\ List.map (fun entry => Flow.sourceAction (snd entry))
       (aggregate [Sample.barredA; Sample.barredB]) = ["Allow+80|Allow"]
  /\ List.map (fun entry => Flow.sourceAction (snd entry))
       (aggregate [Sample.barredB; Sample.barredA]) = ["80|Allow+Allow"]
  /\ ~ Spec.sameFlowSet
        (aggregate [Sample.barredA; Sample.barredB])
        (aggregate [Sample.barredB; Sample.barredA]).
Proof.
  split; [|split; [|split; [|split; [|split; [|split; [|split; [|split]]]]]]].
  - apply (Permutation_cons_app [_; _] [] _). apply Permutation_refl.
  - vm_compute. reflexivity.
  - vm_compute. reflexivity.
  - intros H. specialize (H (flowKey Sample.heavy)).
    vm_compute in H. destruct H as [E _ _ _ _ _ _ _ _ _ _]. discriminate E.
  - apply perm_swap.
  - reflexivity.
  - reflexivity.
  - reflexivity.
  - intros H. specialize (H (flowKey Sample.barredA)).
    vm_compute in H. destruct H as [_ _ _ _ _ _ E _ _ _ _]. discriminate E.
Qed.

(** C1, amended.  Aggregation does not depend on the order of the
    records when no action holds a bar and the counters stay within
    the exact range of doubles (the absolute values of each counter add
    up to 2^53 at most): for every such list of raw flow records and
    every permutation of it, the two flow maps have the same keys, and
    under each key flows with the same counters, time window, side
    actions, policy sets and enforced-policy contents.  Names,
    namespaces and protocols are unrestricted. *)
Theorem aggregate_order_independent (logs logs' : list FlowLog.t) :
  Forall (fun l => Spec.barFree (FlowLog.action l) = true) logs ->
  Spec.exactCounters logs ->
  Permutation logs logs' ->
  Spec.sameFlowSet (aggregate logs) (aggregate logs').
Proof.
  intros Hbar Hexact HP key.
  rewrite !mapGet_aggregate.
  apply (mergeAll_perm (Spec.keyAction key)).
  - now apply filter_perm.
  - now apply hasKey_action.
  - now apply exactCounters_filter.
Qed.

Lemma aggregate_order_independent_witness :
  Spec.sameFlowSet
    (aggregate [Sample.allowedBySource; Sample.denied; Sample.allowedByDest])
    (aggregate [Sample.allowedByDest; Sample.allowedBySource; Sample.denied]).
Proof.
  apply aggregate_order_independent.
  - repeat constructor.
  - repeat split; vm_compute; discriminate.
  - apply Permutation_sym. apply (Permutation_cons_app [_; _] [] _).
    apply Permutation_refl.
Defined.

(** *** Allow and Deny *)

Lemma flowKey_differs (r1 r2 : FlowLog.t) :
  Spec.barFree (FlowLog.action r1) = true ->
  Spec.barFree (FlowLog.action r2) = true ->
  FlowLog.action r1 <> FlowLog.action r2 ->
  flowKey r1 <> flowKey r2.
Proof.
  intros H1 H2 Hne E. apply Hne.
  now rewrite <- (keyAction_flowKey r1 H1), <- (keyAction_flowKey r2 H2), E.
Qed.

Lemma aggregate_two_keys (r1 r2 : FlowLog.t) :
  flowKey r1 <> flowKey r2 ->
  aggregate [r1; r2] = [(flowKey r1, newFlow r1); (flowKey r2, newFlow r2)].
Proof.
  intros Hne. unfold aggregate. simpl. unfold step at 2. simpl.
  unfold step. simpl.
  destruct (String.eqb_spec (flowKey r1) (flowKey r2)) as [E|_]; [contradiction|].
  reflexivity.
Qed.

(** C2.  Two records of one conversation (the same source name, source
    namespace, destination name, destination namespace, protocol and
    destination port), one with action Allow and the other with action
    Deny, are never merged: in either order their keys differ and the
    flow map holds exactly two flows, each made of its own record. *)
Theorem allow_and_deny_never_merge (r1 r2 : FlowLog.t) :
  Spec.sameConversation r1 r2 ->
  FlowLog.action r1 = "Allow" ->
  FlowLog.action r2 = "Deny" ->
  flowKey r1 <> flowKey r2
  /\ aggregate [r1; r2] = [(flowKey r1, newFlow r1); (flowKey r2, newFlow r2)]
  /\ aggregate [r2; r1] = [(flowKey r2, newFlow r2); (flowKey r1, newFlow r1)]
  /\ List.length (aggregate [r1; r2]) = 2%nat
  /\ List.length (aggregate [r2; r1]) = 2%nat.
Proof.
  intros _ H1 H2.
  assert (Hne : flowKey r1 <> flowKey r2).
  { apply flowKey_differs; rewrite ?H1, ?H2; try reflexivity. discriminate. }
  assert (Hne' : flowKey r2 <> flowKey r1) by congruence.
  rewrite !aggregate_two_keys by assumption. auto.
Qed.

Lemma allow_and_deny_never_merge_witness :
  flowKey Sample.allowedBySource <> flowKey Sample.denied
  /\ aggregate [Sample.allowedBySource; Sample.denied] =
     [(flowKey Sample.allowedBySource, newFlow Sample.allowedBySource);
      (flowKey Sample.denied, newFlow Sample.denied)]
  /\ aggregate [Sample.denied; Sample.allowedBySource] =
     [(flowKey Sample.denied, newFlow Sample.denied);
      (flowKey Sample.allowedBySource, newFlow Sample.allowedBySource)]
  /\ List.length (aggregate [Sample.allowedBySource; Sample.denied]) = 2%nat
  /\ List.length (aggregate [Sample.denied; Sample.allowedBySource]) = 2%nat.
Proof.
  apply allow_and_deny_never_merge.
  - repeat split; reflexivity.
  - reflexivity.
  - reflexivity.
Defined.

(** *** Side actions *)

Lemma In_mapSet {V : Type} (k k' : string) (v v' : V) (m : Js.Map V) :
  In (k, v) (Js.mapSet k' v' m) -> (k, v) = (k', v') \/ In (k, v) m.
Proof.
  induction m as [|[k0 v0] m IH]; simpl.
  - intros [E|[]]. now left.
  - destruct (String.eqb_spec k0 k') as [->|Hne]; simpl.
    + intros [E|H]; [now left|right; now right].
    + intros [E|H]; [right; now left|].
      destruct (IH H) as [E|H']; [now left|right; now right].
Qed.

Lemma stepAt_ok (m : Js.Map Flow.t) (l : FlowLog.t) :
  Spec.plainAction (FlowLog.action l) = true ->
  (forall k f, In (k, f) m -> Spec.flowOk k f) ->
  Spec.flowOk (flowKey l) (Spec.stepAt (Js.mapGet (flowKey l) m) l)
  /\ match Js.mapGet (flowKey l) m with
     | Some existing => sourceConflict existing l || destConflict existing l
     | None => false
     end = false.
Proof.
  intros Hplain Hm.
  destruct (plainAction_spec _ Hplain) as [Hbar Hplus].
  pose proof (keyAction_flowKey l Hbar) as Hkey.
  unfold Spec.flowOk, Spec.sideOk. rewrite Hkey.
  destruct (Js.mapGet (flowKey l) m) as [e|] eqn:E; cbn [Spec.stepAt].
  - apply mapGet_In, Hm in E. destruct E as (Hs & Hd & _).
    unfold Spec.sideOk in Hs, Hd. rewrite Hkey in Hs, Hd.
    destruct (merge_sourceAction_one _ e l eq_refl Hs) as [Hcs Hsa].
    destruct (merge_destAction_one _ e l eq_refl Hd) as [Hcd Hda].
    rewrite Hsa, Hda, Hcs, Hcd.
    repeat split; try assumption.
    + destruct (Spec.isSrc l); auto.
    + destruct (Spec.isDst l); auto.
  - rewrite newFlow_sourceAction, newFlow_destAction.
    repeat split; try assumption.
    + destruct (Spec.isSrc l); auto.
    + destruct (Spec.isDst l); auto.
Qed.

Lemma step_ok (m : Js.Map Flow.t) (l : FlowLog.t) :
  Spec.plainAction (FlowLog.action l) = true ->
  (forall k f, In (k, f) m -> Spec.flowOk k f) ->
  forall k f, In (k, f) (step m l) -> Spec.flowOk k f.
Proof.
  intros Hplain Hm k f Hin.
  destruct (stepAt_ok m l Hplain Hm) as [Hok _].
  unfold step in Hin. unfold Spec.stepAt in Hok.
  destruct (Js.mapGet (flowKey l) m);
    apply In_mapSet in Hin as [E|Hin]; try (now apply Hm);
    injection E as -> ->; exact Hok.
Qed.

Lemma run_ok (ls : list FlowLog.t) :
  Forall (fun l => Spec.plainAction (FlowLog.action l) = true) ls ->
  forall m,
    (forall k f, In (k, f) m -> Spec.flowOk k f) ->
    conflictFrom m ls = false
    /\ forall k f, In (k, f) (fold_left step ls m) -> Spec.flowOk k f.
Proof.
  induction 1 as [|l ls Hl _ IH]; intros m Hm; simpl.
  - auto.
  - destruct (stepAt_ok m l Hl Hm) as [_ Hc].
    destruct (IH (step m l) (step_ok m l Hl Hm)) as [Hcs Hok].
    rewrite Hc, Hcs. auto.
Qed.

Lemma formatAction_plus (a : string) :
  Js.includes "+" a = false -> Js.includes "+" (Summary.formatAction a) = false.
Proof.
  intros H. unfold Summary.formatAction.
  destruct (a =? "Allow")%string; [reflexivity|].
  destruct (a =? "Deny")%string; [reflexivity|].
  destruct (a =? "N/A")%string; [reflexivity|exact H].
Qed.

Lemma sideOk_plus (key side : string) :
  Spec.sideOk key side ->
  Js.includes "+" (Spec.keyAction key) = false ->
  Js.includes "+" side = false.
Proof. intros [-> | ->] H; [reflexivity|exact H]. Qed.

Lemma key_has_record (key : string) (flow : Flow.t) (logs : list FlowLog.t) :
  In (key, flow) (aggregate logs) ->
  exists log, In log logs /\ flowKey log = key.
Proof.
  intros Hin.
  assert (Hk : In key (Js.mapKeys (aggregate logs))).
  { change key with (fst (key, flow)). now apply in_map. }
  destruct (Js.mapGet key (aggregate logs)) eqn:E.
  - rewrite mapGet_aggregate in E.
    destruct (List.filter (Spec.hasKey key) logs) as [|log rest] eqn:F;
      [discriminate|].
    assert (Hlog : In log (List.filter (Spec.hasKey key) logs))
      by (rewrite F; now left).
    apply filter_In in Hlog as [Hlog Hkey].
    exists log. split; [exact Hlog|]. now apply String.eqb_eq.
  - apply mapGet_None in E. contradiction.
Qed.

(** C10 as stated fails.  Where an action holds a bar, two records
    with different actions can share a key: the concatenation branch is
    then taken and the side action of the flow is neither the sentinel
    nor the action at the end of its key.  And an action that holds a
    plus sign is emitted as it is. *)
Lemma barred_actions_are_concatenated :
  flowKey Sample.barredA = flowKey Sample.barredB
  /\ conflictBranchTaken [Sample.barredA; Sample.barredB] = true
  /\ List.map (fun entry => Flow.sourceAction (snd entry))
       (aggregate [Sample.barredA; Sample.barredB]) = ["Allow+80|Allow"]
  /\ Spec.keyAction (flowKey Sample.barredA) = "Allow"
  /\ conflictBranchTaken [Sample.plusAction] = false
  /\ List.map (fun entry => Flow.sourceAction (snd entry))
       (aggregate [Sample.plusAction]) = ["Allow+Log"].
Proof. repeat split; reflexivity. Qed.

(** C10, amended.  For every list of raw flow records whose actions
    hold neither a bar nor a plus sign, no visit takes a concatenation
    branch; every key of the flow map is the key of a record, and ends
    with the action of that record; every side action is the sentinel
    N/A or exactly that action; and no side action, raw or formatted
    for the summary, holds a plus sign. *)
Theorem side_actions_never_concatenated (logs : list FlowLog.t) :
  Forall (fun l => Spec.plainAction (FlowLog.action l) = true) logs ->
  conflictBranchTaken logs = false
  /\ forall key flow,
       In (key, flow) (aggregate logs) ->
       (exists log, In log logs /\ flowKey log = key
                    /\ FlowLog.action log = Spec.keyAction key)
       /\ (Flow.sourceAction flow = "N/A"
           \/ Flow.sourceAction flow = Spec.keyAction key)
       /\ (Flow.destAction flow = "N/A"
           \/ Flow.destAction flow = Spec.keyAction key)
       /\ Js.includes "+" (Flow.sourceAction flow) = false
       /\ Js.includes "+" (Flow.destAction flow) = false
       /\ Js.includes "+" (Summary.formatAction (Flow.sourceAction flow)) = false
       /\ Js.includes "+" (Summary.formatAction (Flow.destAction flow)) = false.
Proof.
  intros Hplain.
  destruct (run_ok logs Hplain [] (fun k f (H : In (k, f) []) => match H with end))
    as [Hc Hok].
  split; [exact Hc|].
  intros key flow Hin.
  destruct (Hok key flow Hin) as (Hs & Hd & Hplus).
  pose proof (sideOk_plus _ _ Hs Hplus) as Hsp.
  pose proof (sideOk_plus _ _ Hd Hplus) as Hdp.
  split; [|repeat split; auto using formatAction_plus].
  destruct (key_has_record key flow logs Hin) as (log & Hlog & Hkey).
  exists log. repeat split; try assumption.
  rewrite <- Hkey. symmetry. apply keyAction_flowKey.
  rewrite Forall_forall in Hplain.
  now apply plainAction_spec, Hplain.
Qed.

Lemma side_actions_never_concatenated_witness :
  conflictBranchTaken
    [Sample.allowedBySource; Sample.denied; Sample.allowedByDest] = false
  /\ forall key flow,
       In (key, flow)
         (aggregate [Sample.allowedBySource; Sample.denied; Sample.allowedByDest]) ->
       (exists log,
           In log [Sample.allowedBySource; Sample.denied; Sample.allowedByDest]
           /\ flowKey log = key
           /\ FlowLog.action log = Spec.keyAction key)
       /\ (Flow.sourceAction flow = "N/A"
           \/ Flow.sourceAction flow = Spec.keyAction key)
       /\ (Flow.destAction flow = "N/A"
           \/ Flow.destAction flow = Spec.keyAction key)
       /\ Js.includes "+" (Flow.sourceAction flow) = false
       /\ Js.includes "+" (Flow.destAction flow) = false
       /\ Js.includes "+" (Summary.formatAction (Flow.sourceAction flow)) = false
       /\ Js.includes "+" (Summary.formatAction (Flow.destAction flow)) = false.
Proof.
  apply side_actions_never_concatenated.
  repeat constructor.
Defined.

(** ** The summary document *)

Lemma insertBy_In {A : Type} (cmp : A -> A -> Z) (x y : A) (ys : list A) :
  In x (Js.insertBy cmp y ys) <-> x = y \/ In x ys.
Proof.
  induction ys as [|z ys IH]; simpl.
  - intuition.
  - destruct (0 <? cmp y z); simpl; [rewrite IH|]; intuition.
Qed.

Lemma sort_In {A : Type} (cmp : A -> A -> Z) (x : A) (xs : list A) :
  In x (Js.sort cmp xs) <-> In x xs.
Proof.
  unfold Js.sort. induction xs as [|y ys IH]; simpl; [tauto|].
  rewrite insertBy_In, IH. intuition.
Qed.

Lemma view_status (getTime : string -> option Z) (flow : Flow.t) :
  (FlowView.status (Summary.view getTime flow) = Summary.BLOCKED
   <-> Spec.isDenied flow)
  /\ (FlowView.status (Summary.view getTime flow) = Summary.ALLOWED
      <-> ~ Spec.isDenied flow).
Proof.
  unfold Spec.isDenied. simpl.
  destruct (String.eqb_spec (Flow.sourceAction flow) "Deny") as [Hs|Hs];
    destruct (String.eqb_spec (Flow.destAction flow) "Deny") as [Hd|Hd];
    simpl; (split; split; intros H; try tauto; try discriminate H).
  all: exfalso; apply H; auto.
Qed.

Lemma view_blocked (getTime : string -> option Z) (flow : Flow.t) :
  Js.includes "BLOCKED" (FlowView.status (Summary.view getTime flow)) =
  Spec.isBlocked (Summary.view getTime flow).
Proof.
  unfold Spec.isBlocked. simpl.
  destruct ((Flow.sourceAction flow =? "Deny")%string
            || (Flow.destAction flow =? "Deny")%string); reflexivity.
Qed.

Lemma blockedOf_views (localeCompare : string -> string -> Z)
    (getTime : string -> option Z) (flowMap : Js.Map Flow.t) :
  Summary.blockedOf (Summary.flowsOf localeCompare getTime flowMap) =
  List.filter Spec.isBlocked (Summary.flowsOf localeCompare getTime flowMap).
Proof.
  unfold Summary.blockedOf. apply filter_ext_in.
  intros v Hv. unfold Summary.flowsOf in Hv.
  apply in_map_iff in Hv as (flow & <- & _). apply view_blocked.
Qed.

(** The summary is either the document that says no record touches
    the namespace, with no flow and no alert, or the document built from
    the records that touch it. *)
Lemma summarize_cases (localeCompare : string -> string -> Z)
    (getTime : string -> option Z) (namespace : string)
    (allLogs : list FlowLog.t) :
  match Summary.summarize localeCompare getTime namespace allLogs with
  | Summary.NoFlows doc =>
      List.filter (Summary.touches namespace) allLogs = []
      /\ NoFlowsDoc.flows doc = []
      /\ NoFlowsDoc.totalFlows doc = 0
  | Summary.Summarised doc =>
      List.filter (Summary.touches namespace) allLogs <> []
      /\ doc = Summary.document localeCompare getTime namespace
                 (List.filter (Summary.touches namespace) allLogs)
  end.
Proof.
  unfold Summary.summarize.
  destruct (List.filter (Summary.touches namespace) allLogs); simpl.
  - repeat split.
  - split; [discriminate|reflexivity].
Qed.

Lemma filter_map_views {A B : Type} (f : A -> B) (keep : B -> bool)
    (xs : list A) :
  List.filter keep (List.map f xs) =
  List.map f (List.filter (fun x => keep (f x)) xs).
Proof.
  induction xs as [|x xs IH]; simpl; [reflexivity|].
  destruct (keep (f x)); simpl; now rewrite IH.
Qed.

(** C7.  The flows of the summary are the views of the flows of the
    map; the status of a view is BLOCKED exactly when the source-side or
    the destination-side action of its flow is the string Deny, and
    ALLOWED exactly when neither is; [securityAlerts] is not [null]
    exactly when some flow of the summary is BLOCKED, and it then lists,
    for each blocked flow in order, its source name, an arrow, its
    destination name, a colon and its port (null for no port): these
    are the source, the destination and the port of the flows of the
    map whose source-side or destination-side action is Deny, in the
    order of their start times. *)
Theorem blocked_status_and_alerts
    (localeCompare : string -> string -> Z) (getTime : string -> option Z)
    (namespace : string) (namespaceLogs : list FlowLog.t) :
  let doc := Summary.document localeCompare getTime namespace namespaceLogs in
  (forall v,
      In v (SummaryDoc.flows doc) <->
      exists flow,
        In flow (Js.mapValues (aggregate namespaceLogs))
        /\ v = Summary.view getTime flow)
  /\ (forall flow,
        (FlowView.status (Summary.view getTime flow) = Summary.BLOCKED
         <-> Flow.sourceAction flow = "Deny" \/ Flow.destAction flow = "Deny")
        /\ (FlowView.status (Summary.view getTime flow) = Summary.ALLOWED
            <-> ~ (Flow.sourceAction flow = "Deny"
                   \/ Flow.destAction flow = "Deny")))
  /\ (SummaryDoc.securityAlerts doc <> None
      <-> exists v,
            In v (SummaryDoc.flows doc)
            /\ FlowView.status v = Summary.BLOCKED)
  /\ (forall alerts,
        SummaryDoc.securityAlerts doc = Some alerts ->
        SecurityAlerts.blockedFlows alerts =
        List.map
          (fun v =>
             (Endpoint.name (FlowView.source v) ++ " → "
              ++ Endpoint.name (FlowView.destination v) ++ ":"
              ++ match FlowView.connection_port v with
                 | Some port => Js.numberToString port
                 | None => "null"
                 end)%string)
          (List.filter Spec.isBlocked (SummaryDoc.flows doc)))
  /\ (forall alerts,
        SummaryDoc.securityAlerts doc = Some alerts ->
        SecurityAlerts.blockedFlows alerts =
        List.map
          (fun flow =>
             (Flow.source flow ++ " → " ++ Flow.destination flow ++ ":"
              ++ match Flow.port flow with
                 | Some port => Js.numberToString port
                 | None => "null"
                 end)%string)
          (List.filter
             (fun flow => (Flow.sourceAction flow =? "Deny")%string
                          || (Flow.destAction flow =? "Deny")%string)
             (Js.sort (Summary.byStartTime localeCompare)
                (Js.mapValues (aggregate namespaceLogs))))).
Proof.
  intros doc. subst doc. unfold Summary.document. cbn [SummaryDoc.flows SummaryDoc.securityAlerts].
  rewrite blockedOf_views.
  set (flows := Summary.flowsOf localeCompare getTime (aggregate namespaceLogs)).
  split; [|split; [|split; [|split]]].
  - intros v. unfold flows, Summary.flowsOf. rewrite in_map_iff.
    split; intros (flow & H1 & H2).
    + exists flow. rewrite sort_In in H2. auto.
    + exists flow. rewrite sort_In. auto.
  - intros flow. apply view_status.
  - unfold Summary.securityAlertsOf, Summary.len.
    destruct (List.filter Spec.isBlocked flows) as [|v vs] eqn:F.
    + simpl. split; [congruence|].
      intros (v & Hv & Hs).
      assert (H : In v (List.filter Spec.isBlocked flows)).
      { apply filter_In. split; [exact Hv|]. now apply String.eqb_eq. }
      rewrite F in H. destruct H.
    + replace (0 <? Z.of_nat (List.length (v :: vs))) with true
        by (symmetry; apply Z.ltb_lt; simpl; lia).
      split; [|discriminate]. intros _.
      assert (H : In v (List.filter Spec.isBlocked flows))
        by (rewrite F; now left).
      apply filter_In in H as [Hv Hs]. exists v. split; [exact Hv|].
      now apply String.eqb_eq.
  - intros alerts. unfold Summary.securityAlertsOf.
    destruct (0 <? _); [|discriminate]. now intros [= <-].
  - intros alerts. unfold Summary.securityAlertsOf.
    destruct (0 <? _); [|discriminate]. intros [= <-].
    cbn [SecurityAlerts.blockedFlows].
    unfold flows, Summary.flowsOf.
    rewrite filter_map_views, map_map.
    rewrite (filter_ext
               (fun x => Spec.isBlocked (Summary.view getTime x))
               (fun flow => (Flow.sourceAction flow =? "Deny")%string
                            || (Flow.destAction flow =? "Deny")%string)).
    + reflexivity.
    + intros flow. unfold Spec.isBlocked.
      cbn [Summary.view FlowView.status].
      now destruct ((Flow.sourceAction flow =? "Deny")%string
                    || (Flow.destAction flow =? "Deny")%string).
Qed.

(** The alerts of the summary of two sample records. *)
Example securityAlerts_sample :
  option_map SecurityAlerts.blockedFlows
    (SummaryDoc.securityAlerts
       (Summary.document (fun _ _ => 0) (fun _ => None) "shop"
          [Sample.allowedBySource; Sample.denied]))
  = Some ["frontend-* → backend-*:8080"]
  /\ SummaryDoc.securityAlerts
       (Summary.document (fun _ _ => 0) (fun _ => None) "shop"
          [Sample.allowedBySource]) = None.
Proof. split; reflexivity. Qed.

Lemma blocked_status_and_alerts_witness :
  exists v,
    In v (SummaryDoc.flows
            (Summary.document (fun _ _ => 0) (fun _ => None) "shop"
               [Sample.allowedBySource; Sample.denied]))
    /\ FlowView.status v = Summary.BLOCKED.
Proof.
  apply (proj1 (proj1 (proj2 (proj2
           (blocked_status_and_alerts (fun _ _ => 0) (fun _ => None) "shop"
              [Sample.allowedBySource; Sample.denied]))))).
  vm_compute. discriminate.
Defined.

(** ** Policy resolution *)

Lemma settled_stays (events : list Kubectl.Event) :
  forall process value,
    Kubectl.promise process = Js.Fulfilled value ->
    Kubectl.promise (fold_left Kubectl.onEvent events process) = Js.Fulfilled value.
Proof.
  induction events as [|event events IH]; intros process value H; simpl.
  - exact H.
  - apply IH. destruct event as [data|data|code|]; simpl; rewrite ?H; try reflexivity.
    now destruct (code =? 0).
Qed.

(** The promise is fulfilled by whichever comes first. *)
Lemma promise_outcome (events : list Kubectl.Event) :
  forall process,
    Kubectl.promise process = Js.Pending ->
    Kubectl.promise (Kubectl.onTimer (fold_left Kubectl.onEvent events process)) =
    Js.Fulfilled
      match Kubectl.outcome (Kubectl.stdout process) events with
      | Kubectl.Exited code out => if code =? 0 then Some (Js.trim out) else None
      | Kubectl.SpawnFailed => None
      | Kubectl.TimedOut => None
      end.
Proof.
  induction events as [|event events IH]; intros process H.
  - simpl. now rewrite H.
  - destruct event as [data|data|code|]; cbn [fold_left Kubectl.outcome].
    + rewrite IH; [reflexivity|exact H].
    + rewrite IH; [reflexivity|exact H].
    + cbn [Kubectl.onTimer Kubectl.promise].
      rewrite (settled_stays events _
                 (if code =? 0
                  then Some (Js.trim (Kubectl.stdout process)) else None)).
      * reflexivity.
      * simpl. rewrite H. now destruct (code =? 0).
    + cbn [Kubectl.onTimer Kubectl.promise].
      rewrite (settled_stays events _ None); [reflexivity|].
      simpl. now rewrite H.
Qed.

Section Resolution.

Variable kubeconfigPath : option string.
Variable spawn : Kubectl.Spawn.

Lemma retrievePolicyDetails_settles (policyName policyNamespace policyKind : string) :
  Kubectl.retrievePolicyDetails kubeconfigPath spawn
    policyName policyNamespace policyKind =
  match Kubectl.resourceType policyKind with
  | None => Js.Resolved None
  | Some resourceType =>
      match spawn (Kubectl.arguments kubeconfigPath resourceType
                     policyName policyNamespace policyKind) with
      | Kubectl.Throws message => Js.Rejected message
      | Kubectl.Started events =>
          Js.Resolved
            match Kubectl.outcome "" events with
            | Kubectl.Exited code out =>
                if code =? 0 then Some (Js.trim out) else None
            | Kubectl.SpawnFailed => None
            | Kubectl.TimedOut => None
            end
      end
  end.
Proof.
  unfold Kubectl.retrievePolicyDetails, Kubectl.policyDetailsPromise.
  destruct (Kubectl.resourceType policyKind); [|reflexivity].
  destruct (spawn _) as [message|events]; [reflexivity|].
  now rewrite promise_outcome.
Qed.

Lemma retrievePolicyDetails_rejected
    (policyName policyNamespace policyKind message : string) :
  Kubectl.retrievePolicyDetails kubeconfigPath spawn
    policyName policyNamespace policyKind = Js.Rejected message
  <-> Kubectl.thrown kubeconfigPath spawn
        policyName policyNamespace policyKind = Some message.
Proof.
  rewrite retrievePolicyDetails_settles. unfold Kubectl.thrown.
  destruct (Kubectl.resourceType policyKind); [|split; discriminate].
  destruct (spawn _) as [thrown|events]; split; congruence.
Qed.

(** Both branches of the [try]/[catch] push the same trigger and the
    same reason; the [catch] branch, taken when [spawn] throws, adds
    the message. *)
Lemma blockingEntry_fields (trigger : Policy.t) (reason : string) :
  BlockingPolicy.triggerPolicy
    (Analyzer.blockingEntry kubeconfigPath spawn trigger reason) = trigger
  /\ BlockingPolicy.blockingReason
       (Analyzer.blockingEntry kubeconfigPath spawn trigger reason) = reason
  /\ BlockingPolicy.error
       (Analyzer.blockingEntry kubeconfigPath spawn trigger reason) =
     match Kubectl.thrown kubeconfigPath spawn (Policy.name trigger)
             (Policy.namespace trigger) (Policy.kind trigger) with
     | Some message => Some ("Failed to retrieve policy: " ++ message)%string
     | None => None
     end.
Proof.
  unfold Analyzer.blockingEntry, Kubectl.thrown.
  rewrite retrievePolicyDetails_settles.
  destruct (Kubectl.resourceType (Policy.kind trigger)); [|now repeat split].
  destruct (spawn _) as [message|events]; now repeat split.
Qed.

Lemma visitPending_run (ps : list Policy.t) :
  forall acc,
    fold_left (Analyzer.visitPending kubeconfigPath spawn) ps acc =
    acc ++ List.flat_map
             (fun p =>
                match Analyzer.namedTrigger p with
                | Some t => [Analyzer.blockingEntry kubeconfigPath spawn t
                               (Analyzer.pendingReason p)]
                | None => []
                end) ps.
Proof.
  induction ps as [|p ps IH]; intros acc; simpl.
  - now rewrite app_nil_r.
  - rewrite IH. unfold Analyzer.visitPending.
    destruct (Analyzer.namedTrigger p); [now rewrite <- app_assoc|reflexivity].
Qed.

Lemma visitEnforced_run (ps : list Policy.t) :
  forall acc,
    fold_left (Analyzer.visitEnforced kubeconfigPath spawn) ps acc =
    acc ++ List.flat_map
             (fun p =>
                if (Policy.action p =? "Deny")%string then
                  match Analyzer.namedTrigger p with
                  | Some t => [Analyzer.blockingEntry kubeconfigPath spawn t
                                 Analyzer.enforcedReason]
                  | None => []
                  end
                else []) ps.
Proof.
  induction ps as [|p ps IH]; intros acc; simpl.
  - now rewrite app_nil_r.
  - rewrite IH. unfold Analyzer.visitEnforced.
    destruct (Policy.action p =? "Deny")%string; [|reflexivity].
    destruct (Analyzer.namedTrigger p); [now rewrite <- app_assoc|reflexivity].
Qed.

Lemma blockingPoliciesOf_entries (log : FlowLog.t) :
  Analyzer.blockingPoliciesOf kubeconfigPath spawn log =
  Analyzer.pendingEntries kubeconfigPath spawn log
  ++ Analyzer.enforcedEntries kubeconfigPath spawn log.
Proof.
  unfold Analyzer.blockingPoliciesOf.
  now rewrite visitEnforced_run, visitPending_run.
Qed.

Lemma pendingEntries_In (log : FlowLog.t) (entry : BlockingPolicy.t) :
  In entry (Analyzer.pendingEntries kubeconfigPath spawn log) <->
  exists p t,
    In p (pendingOf log) /\ Analyzer.namedTrigger p = Some t
    /\ entry = Analyzer.blockingEntry kubeconfigPath spawn t
                 (Analyzer.pendingReason p).
Proof.
  unfold Analyzer.pendingEntries. rewrite in_flat_map. split.
  - intros (p & Hp & He). destruct (Analyzer.namedTrigger p) as [t|] eqn:E.
    + destruct He as [<-|[]]. eauto.
    + destruct He.
  - intros (p & t & Hp & Ht & ->). exists p. rewrite Ht. split; [exact Hp|now left].
Qed.

Lemma enforcedEntries_In (log : FlowLog.t) (entry : BlockingPolicy.t) :
  In entry (Analyzer.enforcedEntries kubeconfigPath spawn log) <->
  exists p t,
    In p (enforcedOf log) /\ Policy.action p = "Deny"
    /\ Analyzer.namedTrigger p = Some t
    /\ entry = Analyzer.blockingEntry kubeconfigPath spawn t
                 Analyzer.enforcedReason.
Proof.
  unfold Analyzer.enforcedEntries. rewrite in_flat_map. split.
  - intros (p & Hp & He).
    destruct (String.eqb_spec (Policy.action p) "Deny") as [Ha|Ha]; [|destruct He].
    destruct (Analyzer.namedTrigger p) as [t|] eqn:E.
    + destruct He as [<-|[]]. exists p, t. auto.
    + destruct He.
  - intros (p & t & Hp & Ha & Ht & ->). exists p.
    rewrite Ha, Ht. split; [exact Hp|now left].
Qed.

End Resolution.

(** The entry of a resolution that fails. *)
Lemma fails_entry (kubeconfigPath : option string) (spawn : Kubectl.Spawn)
    (trigger : Policy.t) (reason : string) :
  Kubectl.fails kubeconfigPath spawn (Policy.name trigger)
    (Policy.namespace trigger) (Policy.kind trigger) = true ->
  Analyzer.blockingEntry kubeconfigPath spawn trigger reason =
  {| BlockingPolicy.triggerPolicy := trigger;
     BlockingPolicy.policyYaml := None;
     BlockingPolicy.error :=
       match Kubectl.thrown kubeconfigPath spawn (Policy.name trigger)
               (Policy.namespace trigger) (Policy.kind trigger) with
       | Some message => Some ("Failed to retrieve policy: " ++ message)%string
       | None => None
       end;
     BlockingPolicy.blockingReason := reason |}.
Proof.
  unfold Analyzer.blockingEntry, Kubectl.fails, Kubectl.thrown.
  rewrite retrievePolicyDetails_settles.
  destruct (Kubectl.resourceType (Policy.kind trigger)); [|reflexivity].
  destruct (spawn _) as [message|events]; [reflexivity|].
  destruct (Kubectl.outcome _ _) as [code out| |]; try reflexivity.
  destruct (code =? 0); [discriminate|reflexivity].
Qed.

Lemma attempt_entry (kubeconfigPath : option string) (spawn : Kubectl.Spawn)
    (log : FlowLog.t) (hit trigger : Policy.t) (reason : string) :
  Analyzer.attempt log hit trigger reason ->
  In (Analyzer.blockingEntry kubeconfigPath spawn trigger reason)
     (Analyzer.blockingPoliciesOf kubeconfigPath spawn log).
Proof.
  rewrite blockingPoliciesOf_entries, in_app_iff.
  intros [(Hp & Ht & ->)|(Hp & Ha & Ht & ->)].
  - left. apply pendingEntries_In. eauto.
  - right. apply enforcedEntries_In. exists hit, trigger. auto.
Qed.

Lemma analyze_blocked (kubeconfigPath : option string) (spawn : Kubectl.Spawn)
    (getTime : string -> option Z) (namespace : option string)
    (allLogs : list FlowLog.t) (log : FlowLog.t) :
  In log (Analyzer.blockedLogsOf namespace allLogs) ->
  exists doc,
    Analyzer.analyzeBlockedFlows kubeconfigPath spawn getTime
      (Js.Resolved allLogs) namespace = Js.Resolved (Analyzer.Analysed doc)
    /\ In (Analyzer.analyzeLog kubeconfigPath spawn log)
          (AnalysisDoc.blockedFlows doc).
Proof.
  intros Hin. unfold Analyzer.analyzeBlockedFlows, Analyzer.analyze.
  destruct (Analyzer.blockedLogsOf namespace allLogs) as [|l ls] eqn:E;
    [destruct Hin|].
  eexists. split; [reflexivity|]. cbn [AnalysisDoc.blockedFlows].
  now apply in_map.
Qed.

(** C3 as stated fails where a pending hit has a trigger without a
    name: the hit is passed over and no entry is produced. *)
Lemma nameless_trigger_produces_no_entry :
  In Sample.namelessTrigger (pendingOf Sample.deniedNameless)
  /\ Policy.trigger Sample.namelessTrigger <> None
  /\ Analyzer.blockingPoliciesOf None Sample.spawnPrints Sample.deniedNameless = [].
Proof. split; [now left|split; [discriminate|reflexivity]]. Qed.

(** C3, amended.  For every denied record analysed, each pending hit
    whose trigger is present and carries a non-empty name produces an
    entry for that trigger, whose reason is Explicit deny rule when the
    action of the pending hit itself is Deny, and End of tier default
    deny otherwise. *)
Theorem pending_hit_reason (kubeconfigPath : option string)
    (spawn : Kubectl.Spawn) (getTime : string -> option Z)
    (namespace : option string) (allLogs : list FlowLog.t)
    (log : FlowLog.t) (pendingPolicy trigger : Policy.t) :
  In log (Analyzer.blockedLogsOf namespace allLogs) ->
  In pendingPolicy (pendingOf log) ->
  Policy.trigger pendingPolicy = Some trigger ->
  Js.truthy (Policy.name trigger) = true ->
  exists doc flow entry,
    Analyzer.analyzeBlockedFlows kubeconfigPath spawn getTime
      (Js.Resolved allLogs) namespace = Js.Resolved (Analyzer.Analysed doc)
    /\ In flow (AnalysisDoc.blockedFlows doc)
    /\ flow = Analyzer.analyzeLog kubeconfigPath spawn log
    /\ In entry (BlockedFlow.blockingPolicies flow)
    /\ BlockingPolicy.triggerPolicy entry = trigger
    /\ BlockingPolicy.blockingReason entry =
       if (Policy.action pendingPolicy =? "Deny")%string
       then "Explicit deny rule" else "End of tier default deny".
Proof.
  intros Hlog Hp Ht Hname.
  destruct (analyze_blocked kubeconfigPath spawn getTime _ _ _ Hlog)
    as (doc & Hdoc & Hflow).
  assert (Hnamed : Analyzer.namedTrigger pendingPolicy = Some trigger)
    by (unfold Analyzer.namedTrigger; now rewrite Ht, Hname).
  exists doc, (Analyzer.analyzeLog kubeconfigPath spawn log),
    (Analyzer.blockingEntry kubeconfigPath spawn trigger
       (Analyzer.pendingReason pendingPolicy)).
  repeat split; try assumption.
  - cbn [Analyzer.analyzeLog BlockedFlow.blockingPolicies].
    apply (attempt_entry _ _ log pendingPolicy). left. auto.
  - apply blockingEntry_fields.
  - apply blockingEntry_fields.
Qed.

Lemma pending_hit_reason_witness :
  exists doc flow entry,
    Analyzer.analyzeBlockedFlows None Sample.spawnPrints (fun _ => None)
      (Js.Resolved [Sample.allowedBySource; Sample.denied]) (Some "shop")
    = Js.Resolved (Analyzer.Analysed doc)
    /\ In flow (AnalysisDoc.blockedFlows doc)
    /\ flow = Analyzer.analyzeLog None Sample.spawnPrints Sample.denied
    /\ In entry (BlockedFlow.blockingPolicies flow)
    /\ BlockingPolicy.triggerPolicy entry = Sample.allowWeb
    /\ BlockingPolicy.blockingReason entry =
       if (Policy.action Sample.endOfTier =? "Deny")%string
       then "Explicit deny rule" else "End of tier default deny".
Proof.
  apply (pending_hit_reason None Sample.spawnPrints (fun _ => None)
           (Some "shop") [Sample.allowedBySource; Sample.denied]
           Sample.denied Sample.endOfTier Sample.allowWeb).
  - simpl. now left.
  - simpl. right. now left.
  - reflexivity.
  - reflexivity.
Defined.

(** C4 as stated fails on a host where no [kubectl] starts (the
    process reports an error, or nothing happens before the timer):
    the entries are kept with a null policy text, but none carries an
    error message. *)
Lemma failed_resolution_carries_no_error :
  Kubectl.fails None Sample.spawnFails "default-deny" "" "GlobalNetworkPolicy" = true
  /\ Kubectl.fails None Sample.spawnFails "allow-web" "shop" "NetworkPolicy" = true
  /\ Analyzer.blockingPoliciesOf None Sample.spawnFails Sample.denied =
     [ {| BlockingPolicy.triggerPolicy := Sample.defaultDeny;
          BlockingPolicy.policyYaml := None;
          BlockingPolicy.error := None;
          BlockingPolicy.blockingReason := "Explicit deny rule" |};
       {| BlockingPolicy.triggerPolicy := Sample.allowWeb;
          BlockingPolicy.policyYaml := None;
          BlockingPolicy.error := None;
          BlockingPolicy.blockingReason := "End of tier default deny" |} ]
  /\ Kubectl.fails None Sample.spawnSilent "default-deny" "" "GlobalNetworkPolicy" = true
  /\ List.map BlockingPolicy.error
       (Analyzer.blockingPoliciesOf None Sample.spawnSilent Sample.denied)
     = [None; None].
Proof. repeat split; reflexivity. Qed.

(** C4, amended.  For every denied record analysed and every resolution
    attempt of its analysis, a resolution that fails (a kind outside the
    table, a [spawn] that throws, a process that does not start, a
    non-zero exit, the timer) keeps the entry in the result with a null
    policy text, and the batch does not fail.  The entry carries an
    error message exactly when [spawn] itself has thrown: the message
    thrown, after Failed to retrieve policy.  In every other failure
    the entry has no error. *)
Theorem failed_resolution_keeps_entry (kubeconfigPath : option string)
    (spawn : Kubectl.Spawn) (getTime : string -> option Z)
    (namespace : option string) (allLogs : list FlowLog.t)
    (log : FlowLog.t) (hit trigger : Policy.t) (reason : string) :
  In log (Analyzer.blockedLogsOf namespace allLogs) ->
  Analyzer.attempt log hit trigger reason ->
  Kubectl.fails kubeconfigPath spawn (Policy.name trigger)
    (Policy.namespace trigger) (Policy.kind trigger) = true ->
  exists doc flow,
    Analyzer.analyzeBlockedFlows kubeconfigPath spawn getTime
      (Js.Resolved allLogs) namespace = Js.Resolved (Analyzer.Analysed doc)
    /\ In flow (AnalysisDoc.blockedFlows doc)
    /\ flow = Analyzer.analyzeLog kubeconfigPath spawn log
    /\ In {| BlockingPolicy.triggerPolicy := trigger;
             BlockingPolicy.policyYaml := None;
             BlockingPolicy.error :=
               match Kubectl.thrown kubeconfigPath spawn (Policy.name trigger)
                       (Policy.namespace trigger) (Policy.kind trigger) with
               | Some message =>
                   Some ("Failed to retrieve policy: " ++ message)%string
               | None => None
               end;
             BlockingPolicy.blockingReason := reason |}
          (BlockedFlow.blockingPolicies flow).
Proof.
  intros Hlog Hattempt Hfails.
  destruct (analyze_blocked kubeconfigPath spawn getTime _ _ _ Hlog)
    as (doc & Hdoc & Hflow).
  exists doc, (Analyzer.analyzeLog kubeconfigPath spawn log).
  repeat split; try assumption.
  cbn [Analyzer.analyzeLog BlockedFlow.blockingPolicies].
  rewrite <- (fails_entry _ _ _ reason Hfails).
  exact (attempt_entry kubeconfigPath spawn _ _ _ _ Hattempt).
Qed.

Lemma failed_resolution_keeps_entry_witness :
  (exists doc flow,
      Analyzer.analyzeBlockedFlows None Sample.spawnFails (fun _ => None)
        (Js.Resolved [Sample.allowedBySource; Sample.denied]) None
      = Js.Resolved (Analyzer.Analysed doc)
      /\ In flow (AnalysisDoc.blockedFlows doc)
      /\ flow = Analyzer.analyzeLog None Sample.spawnFails Sample.denied
      /\ In {| BlockingPolicy.triggerPolicy := Sample.defaultDeny;
               BlockingPolicy.policyYaml := None;
               BlockingPolicy.error := None;
               BlockingPolicy.blockingReason := "Explicit deny rule" |}
            (BlockedFlow.blockingPolicies flow))
  /\ (exists doc flow,
        Analyzer.analyzeBlockedFlows None Sample.spawnChecks (fun _ => None)
          (Js.Resolved [Sample.allowedBySource; Sample.deniedNul]) None
        = Js.Resolved (Analyzer.Analysed doc)
        /\ In flow (AnalysisDoc.blockedFlows doc)
        /\ flow = Analyzer.analyzeLog None Sample.spawnChecks Sample.deniedNul
        /\ In {| BlockingPolicy.triggerPolicy := Sample.nulTrigger;
                 BlockingPolicy.policyYaml := None;
                 BlockingPolicy.error :=
                   Some ("Failed to retrieve policy: " ++ Sample.nulRefused)%string;
                 BlockingPolicy.blockingReason := "Explicit deny rule" |}
              (BlockedFlow.blockingPolicies flow)).
Proof.
  split.
  - apply (failed_resolution_keeps_entry None Sample.spawnFails (fun _ => None)
             None [Sample.allowedBySource; Sample.denied]
             Sample.denied Sample.stagedDeny Sample.defaultDeny
             "Explicit deny rule").
    + simpl. now left.
    + left. repeat split. simpl. now left.
    + reflexivity.
  - apply (failed_resolution_keeps_entry None Sample.spawnChecks (fun _ => None)
             None [Sample.allowedBySource; Sample.deniedNul]
             Sample.deniedNul Sample.stagedNul Sample.nulTrigger
             "Explicit deny rule").
    + simpl. now left.
    + left. repeat split. simpl. now left.
    + reflexivity.
Defined.

(** C8.  When the records hold no denied record (after the restriction
    to the namespace, if one is given), [analyzeBlockedFlows] does not
    fail and resolves to the document that says so: the namespace (or
    [all]), the message No blocked flows found and an empty list.  It
    is no list, and no other input resolves to it: with a denied record
    the analysis document, with a flow per denied record, is returned
    instead. *)
Theorem no_blocked_flows_is_explicit (kubeconfigPath : option string)
    (spawn : Kubectl.Spawn) (getTime : string -> option Z)
    (namespace : option string) (allLogs : list FlowLog.t) :
  Analyzer.blockedLogsOf namespace allLogs = [] ->
  Analyzer.analyzeBlockedFlows kubeconfigPath spawn getTime
    (Js.Resolved allLogs) namespace =
  Js.Resolved
    (Analyzer.NoBlocked
       {| NoBlockedDoc.namespace := Analyzer.namespaceOrAll namespace;
          NoBlockedDoc.message := "No blocked flows found";
          NoBlockedDoc.blockedFlows := [] |})
  /\ forall allLogs' doc,
       Analyzer.analyzeBlockedFlows kubeconfigPath spawn getTime
         (Js.Resolved allLogs') namespace = Js.Resolved (Analyzer.NoBlocked doc) ->
       Analyzer.blockedLogsOf namespace allLogs' = [].
Proof.
  intros Hnone. unfold Analyzer.analyzeBlockedFlows, Analyzer.analyze.
  rewrite Hnone. split; [reflexivity|].
  intros allLogs' doc.
  destruct (Analyzer.blockedLogsOf namespace allLogs'); [reflexivity|discriminate].
Qed.

Lemma no_blocked_flows_is_explicit_witness :
  Analyzer.analyzeBlockedFlows None Sample.spawnPrints (fun _ => None)
    (Js.Resolved [Sample.allowedBySource; Sample.allowedByDest]) (Some "shop") =
  Js.Resolved
    (Analyzer.NoBlocked
       {| NoBlockedDoc.namespace := Analyzer.namespaceOrAll (Some "shop");
          NoBlockedDoc.message := "No blocked flows found";
          NoBlockedDoc.blockedFlows := [] |})
  /\ forall allLogs' doc,
       Analyzer.analyzeBlockedFlows None Sample.spawnPrints (fun _ => None)
         (Js.Resolved allLogs') (Some "shop") = Js.Resolved (Analyzer.NoBlocked doc) ->
       Analyzer.blockedLogsOf (Some "shop") allLogs' = [].
Proof.
  apply no_blocked_flows_is_explicit. reflexivity.
Defined.

(** C9 as stated fails where [spawn] itself throws, as Node does at
    once for an argument that holds a NUL byte: the throw happens
    inside the executor of the promise, so the lookup of a trigger
    whose name holds a NUL byte rejects, and the catch branch of
    [analyzeBlockedFlows] is taken and adds its message to the entry;
    the other entry of the record has its policy text. *)
Lemma thrown_spawn_rejects :
  Kubectl.retrievePolicyDetails None Sample.spawnChecks
    (Policy.name Sample.nulTrigger) (Policy.namespace Sample.nulTrigger)
    (Policy.kind Sample.nulTrigger)
  = Js.Rejected Sample.nulRefused
  /\ Analyzer.blockingPoliciesOf None Sample.spawnChecks Sample.deniedNul =
     [ {| BlockingPolicy.triggerPolicy := Sample.nulTrigger;
          BlockingPolicy.policyYaml := None;
          BlockingPolicy.error :=
            Some ("Failed to retrieve policy: " ++ Sample.nulRefused)%string;
          BlockingPolicy.blockingReason := "Explicit deny rule" |};
       {| BlockingPolicy.triggerPolicy := Sample.allowWeb;
          BlockingPolicy.policyYaml := Some "kind: NetworkPolicy";
          BlockingPolicy.error := None;
          BlockingPolicy.blockingReason := "End of tier default deny" |} ].
Proof. split; reflexivity. Qed.

(** C9, amended.  [retrievePolicyDetails] settles in every case.  A
    kind outside the table, a [kubectl] that reports an error, a
    non-zero exit and the timer all resolve to null, and only an exit
    with code 0 resolves to the trimmed output.  It rejects exactly
    when [spawn] itself throws, with the message thrown.  Hence an
    entry of an analysis carries an error message exactly when [spawn]
    has thrown for its trigger: the catch branches of
    [analyzeBlockedFlows] are taken then, and only then. *)
Theorem retrievePolicyDetails_rejects_only_on_throw
    (kubeconfigPath : option string) (spawn : Kubectl.Spawn) :
  (forall policyName policyNamespace policyKind,
      Kubectl.retrievePolicyDetails kubeconfigPath spawn
        policyName policyNamespace policyKind =
      match Kubectl.resourceType policyKind with
      | None => Js.Resolved None
      | Some resourceType =>
          match spawn (Kubectl.arguments kubeconfigPath resourceType
                         policyName policyNamespace policyKind) with
          | Kubectl.Throws message => Js.Rejected message
          | Kubectl.Started events =>
              Js.Resolved
                match Kubectl.outcome "" events with
                | Kubectl.Exited code out =>
                    if code =? 0 then Some (Js.trim out) else None
                | Kubectl.SpawnFailed => None
                | Kubectl.TimedOut => None
                end
          end
      end)
  /\ (forall policyName policyNamespace policyKind message,
        Kubectl.retrievePolicyDetails kubeconfigPath spawn
          policyName policyNamespace policyKind = Js.Rejected message
        <-> Kubectl.thrown kubeconfigPath spawn
              policyName policyNamespace policyKind = Some message)
  /\ (forall log entry,
        In entry (Analyzer.blockingPoliciesOf kubeconfigPath spawn log) ->
        BlockingPolicy.error entry =
        match Kubectl.thrown kubeconfigPath spawn
                (Policy.name (BlockingPolicy.triggerPolicy entry))
                (Policy.namespace (BlockingPolicy.triggerPolicy entry))
                (Policy.kind (BlockingPolicy.triggerPolicy entry)) with
        | Some message => Some ("Failed to retrieve policy: " ++ message)%string
        | None => None
        end).
Proof.
  split; [|split].
  - apply retrievePolicyDetails_settles.
  - apply retrievePolicyDetails_rejected.
  - intros log entry. rewrite blockingPoliciesOf_entries, in_app_iff.
    intros [H|H].
    + apply pendingEntries_In in H as (p & t & _ & _ & ->).
      destruct (blockingEntry_fields kubeconfigPath spawn t
                  (Analyzer.pendingReason p)) as (-> & _ & ->). reflexivity.
    + apply enforcedEntries_In in H as (p & t & _ & _ & _ & ->).
      destruct (blockingEntry_fields kubeconfigPath spawn t
                  Analyzer.enforcedReason) as (-> & _ & ->). reflexivity.
Qed.

(** ** Policy drafts *)

Lemma mapGet_pushTo (k key : string) (log : AggregatedLog.t)
    (groups : Js.Map (list AggregatedLog.t)) :
  Js.mapGet k (LogFilter.pushTo key log groups) =
  if (key =? k)%string
  then Some (match Js.mapGet k groups with
             | Some members => members ++ [log]
             | None => [log]
             end)
  else Js.mapGet k groups.
Proof.
  unfold LogFilter.pushTo.
  destruct (String.eqb_spec key k) as [->|Hne].
  - destruct (Js.mapGet k groups); now rewrite mapGet_mapSet, String.eqb_refl.
  - destruct (Js.mapGet key groups); rewrite mapGet_mapSet;
      now destruct (String.eqb_spec key k).
Qed.

Lemma In_pushTo (k key : string) (members : list AggregatedLog.t)
    (log : AggregatedLog.t) (groups : Js.Map (list AggregatedLog.t)) :
  In (k, members) (LogFilter.pushTo key log groups) ->
  In (k, members) groups
  \/ (k = key
      /\ exists old, members = old ++ [log]
                     /\ (old = [] \/ In (key, old) groups)).
Proof.
  unfold LogFilter.pushTo.
  destruct (Js.mapGet key groups) as [old|] eqn:E; intros H;
    apply In_mapSet in H as [H|H]; auto; injection H as -> ->; right;
    (split; [reflexivity|]).
  - exists old. split; [reflexivity|]. right. now apply mapGet_In.
  - exists []. auto.
Qed.

Section Grouping.

Variable keyOf : AggregatedLog.t -> option string.

Local Abbreviation visit := (Spec.visitGroup keyOf).

Lemma grouping_sound (logs : list AggregatedLog.t) :
  forall groups seen,
    (forall k ms, In (k, ms) groups ->
                  forall f, In f ms -> In f seen /\ keyOf f = Some k) ->
    forall k ms,
      In (k, ms) (fold_left visit logs groups) ->
      forall f, In f ms -> In f (seen ++ logs) /\ keyOf f = Some k.
Proof.
  induction logs as [|log logs IH]; intros groups seen Hg k ms Hin f Hf; simpl in Hin.
  - rewrite app_nil_r. eauto.
  - replace (seen ++ log :: logs) with ((seen ++ [log]) ++ logs)
      by (now rewrite <- app_assoc).
    apply (IH (visit groups log) (seen ++ [log])) with (ms := ms); try assumption.
    clear - Hg. intros k ms Hin f Hf. unfold Spec.visitGroup in Hin.
    destruct (keyOf log) as [key|] eqn:Ek.
    + apply In_pushTo in Hin as [Hin|(-> & old & -> & Hold)].
      * destruct (Hg _ _ Hin _ Hf). split; [apply in_or_app|]; auto.
      * apply in_app_iff in Hf as [Hf|[<-|[]]].
        -- destruct Hold as [->|Hold]; [destruct Hf|].
           destruct (Hg _ _ Hold _ Hf). split; [apply in_or_app|]; auto.
        -- split; [apply in_or_app; right; now left|exact Ek].
    + destruct (Hg _ _ Hin _ Hf). split; [apply in_or_app|]; auto.
Qed.

Lemma grouping_keeps (logs : list AggregatedLog.t) :
  forall groups k ms f,
    Js.mapGet k groups = Some ms -> In f ms ->
    exists ms', Js.mapGet k (fold_left visit logs groups) = Some ms' /\ In f ms'.
Proof.
  induction logs as [|log logs IH]; intros groups k ms f Hk Hf; simpl.
  - eauto.
  - unfold Spec.visitGroup at 2. destruct (keyOf log) as [key|]; [|eauto].
    apply (IH _ k (if (key =? k)%string then ms ++ [log] else ms)).
    + rewrite mapGet_pushTo, Hk. now destruct (key =? k)%string.
    + destruct (key =? k)%string; [apply in_or_app|]; auto.
Qed.

Lemma grouping_complete (logs : list AggregatedLog.t) :
  forall groups f k,
    In f logs -> keyOf f = Some k ->
    exists ms, Js.mapGet k (fold_left visit logs groups) = Some ms /\ In f ms.
Proof.
  induction logs as [|log logs IH]; intros groups f k Hin Hk; [destruct Hin|].
  destruct Hin as [->|Hin]; simpl.
  - unfold Spec.visitGroup at 2. rewrite Hk.
    apply (grouping_keeps logs _ k
             (match Js.mapGet k groups with
              | Some members => members ++ [f]
              | None => [f]
              end)).
    + now rewrite mapGet_pushTo, String.eqb_refl.
    + destruct (Js.mapGet k groups); [apply in_or_app; right|]; now left.
  - now apply IH.
Qed.

Lemma groupBy_sound (logs : list AggregatedLog.t) (k : string)
    (ms : list AggregatedLog.t) :
  In (k, ms) (Spec.groupBy keyOf logs) ->
  forall f, In f ms -> In f logs /\ keyOf f = Some k.
Proof.
  intros Hin f Hf.
  apply (grouping_sound logs [] [] (fun _ _ (H : In _ []) => match H with end)
           k ms Hin f Hf).
Qed.

Lemma groupBy_complete (logs : list AggregatedLog.t) (f : AggregatedLog.t)
    (k : string) :
  In f logs -> keyOf f = Some k ->
  exists ms, In (k, ms) (Spec.groupBy keyOf logs) /\ In f ms.
Proof.
  intros Hin Hk.
  destruct (grouping_complete logs [] f k Hin Hk) as (ms & Hget & Hf).
  exists ms. split; [now apply mapGet_In|exact Hf].
Qed.

End Grouping.

Lemma sourceGroupsOf_groupBy (namespace selectorKey : string)
    (logs : list AggregatedLog.t) :
  LogFilter.sourceGroupsOf namespace selectorKey logs =
  Spec.groupBy (Spec.sourceKey namespace selectorKey) logs.
Proof.
  unfold LogFilter.sourceGroupsOf, Spec.groupBy.
  generalize (@nil (string * list AggregatedLog.t)).
  induction logs as [|log logs IH]; intros groups; simpl; [reflexivity|].
  rewrite IH. f_equal. unfold Spec.sourceKey, Spec.visitGroup.
  destruct (AggregatedLog.source_namespace log =? namespace)%string; reflexivity.
Qed.

Lemma destinationGroupsOf_groupBy (flows : list AggregatedLog.t) :
  LogFilter.destinationGroupsOf flows =
  Spec.groupBy (fun flow => Some (LogFilter.destKey flow)) flows.
Proof. reflexivity. Qed.

Lemma egressRule_without_ports (namespace selectorKey : string)
    (flow : AggregatedLog.t) (destFlows : list AggregatedLog.t) :
  AggregatedLog.dest_port flow = None \/ AggregatedLog.dest_port flow = Some 0 ->
  Spec.barFree (AggregatedLog.dest_namespace flow) = true ->
  Spec.barFree (AggregatedLog.protocol flow) = true ->
  EgressRule.ports
    (LogFilter.egressRule namespace selectorKey (LogFilter.destKey flow) destFlows)
  = None.
Proof.
  intros Hport Hns Hproto.
  unfold LogFilter.egressRule, LogFilter.destKey. cbn [EgressRule.ports].
  change ("|" ++ AggregatedLog.protocol flow ++ "|"
          ++ Js.templateItem (AggregatedLog.dest_port flow))%string
    with (String "|" (AggregatedLog.protocol flow
                      ++ String "|" (Js.templateItem (AggregatedLog.dest_port flow)))).
  rewrite !split_app, (split_barFree _ Hns), (split_barFree _ Hproto).
  destruct Hport as [-> | ->]; reflexivity.
Qed.

(** C5 as stated fails: a sub-group whose destination port is 0, or
    null, still gets its egress rule; the rule only lacks [ports]. *)
Lemma portless_group_still_gets_a_rule :
  List.map NetworkPolicy.spec_egress
    (LogFilter.generateCalicoNetworkPolicies "shop" "app"
       [Sample.portless (Some 0)]) =
  [[ {| EgressRule.action := "Allow";
        EgressRule.destination_namespaceSelector := None;
        EgressRule.destination_selector := Some ("app", "backend");
        EgressRule.protocol := "ICMP";
        EgressRule.ports := None |} ]]
  /\ List.map NetworkPolicy.spec_egress
       (LogFilter.generateCalicoNetworkPolicies "shop" "app"
          [Sample.portless None]) =
     [[ {| EgressRule.action := "Allow";
           EgressRule.destination_namespaceSelector := None;
           EgressRule.destination_selector := Some ("app", "backend");
           EgressRule.protocol := "ICMP";
           EgressRule.ports := None |} ]].
Proof. split; reflexivity. Qed.

(** C5, amended.  A record of the namespace that carries the selector
    label, whose destination port is 0 or null and whose destination
    namespace and protocol hold no bar, belongs to a sub-group whose
    egress rule is emitted in a draft, and that rule has no [ports]. *)
Theorem portless_rule_has_no_ports (namespace selectorKey : string)
    (aggregatedLogs : list AggregatedLog.t) (flow : AggregatedLog.t)
    (selectorValue : string) :
  In flow aggregatedLogs ->
  AggregatedLog.source_namespace flow = namespace ->
  LogFilter.extractLabelValue (AggregatedLog.source_labels flow) selectorKey
    = Some selectorValue ->
  AggregatedLog.dest_port flow = None \/ AggregatedLog.dest_port flow = Some 0 ->
  Spec.barFree (AggregatedLog.dest_namespace flow) = true ->
  Spec.barFree (AggregatedLog.protocol flow) = true ->
  exists policy destFlows rule,
    In policy (LogFilter.generateCalicoNetworkPolicies namespace selectorKey
                 aggregatedLogs)
    /\ NetworkPolicy.spec_selector policy = (selectorKey, selectorValue)
    /\ In flow destFlows
    /\ rule = LogFilter.egressRule namespace selectorKey
                (LogFilter.destKey flow) destFlows
    /\ In rule (NetworkPolicy.spec_egress policy)
    /\ EgressRule.ports rule = None.
Proof.
  intros Hin Hns Hlabel Hport Hbns Hbproto.
  assert (Hkey : Spec.sourceKey namespace selectorKey flow = Some selectorValue).
  { unfold Spec.sourceKey. now rewrite Hns, String.eqb_refl. }
  destruct (groupBy_complete _ aggregatedLogs flow selectorValue Hin Hkey)
    as (flows & Hgroup & Hflow).
  destruct (groupBy_complete (fun f => Some (LogFilter.destKey f)) flows flow
              (LogFilter.destKey flow) Hflow eq_refl)
    as (destFlows & Hsub & Hmember).
  exists (LogFilter.policyFor namespace selectorKey selectorValue flows),
    destFlows,
    (LogFilter.egressRule namespace selectorKey (LogFilter.destKey flow) destFlows).
  repeat split.
  - unfold LogFilter.generateCalicoNetworkPolicies.
    rewrite sourceGroupsOf_groupBy.
    apply (in_map (fun group => LogFilter.policyFor namespace selectorKey
                                  (fst group) (snd group))) in Hgroup.
    exact Hgroup.
  - exact Hmember.
  - cbn [LogFilter.policyFor NetworkPolicy.spec_egress].
    rewrite destinationGroupsOf_groupBy.
    apply (in_map (fun group => LogFilter.egressRule namespace selectorKey
                                  (fst group) (snd group))) in Hsub.
    exact Hsub.
  - now apply egressRule_without_ports.
Qed.

Lemma portless_rule_has_no_ports_witness :
  exists policy destFlows rule,
    In policy (LogFilter.generateCalicoNetworkPolicies "shop" "app"
                 [Sample.portless (Some 53); Sample.portless (Some 0)])
    /\ NetworkPolicy.spec_selector policy = ("app", "frontend")
    /\ In (Sample.portless (Some 0)) destFlows
    /\ rule = LogFilter.egressRule "shop" "app"
                (LogFilter.destKey (Sample.portless (Some 0))) destFlows
    /\ In rule (NetworkPolicy.spec_egress policy)
    /\ EgressRule.ports rule = None.
Proof.
  apply (portless_rule_has_no_ports "shop" "app"
           [Sample.portless (Some 53); Sample.portless (Some 0)]
           (Sample.portless (Some 0)) "frontend").
  - right. now left.
  - reflexivity.
  - reflexivity.
  - now right.
  - reflexivity.
  - reflexivity.
Defined.

(** Every rule of a draft is the rule of a sub-group of records of the
    namespace. *)
Lemma egress_rules_come_from_groups (namespace selectorKey : string)
    (aggregatedLogs : list AggregatedLog.t) (policy : NetworkPolicy.t)
    (rule : EgressRule.t) :
  In policy (LogFilter.generateCalicoNetworkPolicies namespace selectorKey
               aggregatedLogs) ->
  In rule (NetworkPolicy.spec_egress policy) ->
  exists destKey destFlows,
    rule = LogFilter.egressRule namespace selectorKey destKey destFlows
    /\ forall flow,
         In flow destFlows ->
         In flow aggregatedLogs
         /\ AggregatedLog.source_namespace flow = namespace
         /\ LogFilter.destKey flow = destKey.
Proof.
  unfold LogFilter.generateCalicoNetworkPolicies.
  rewrite sourceGroupsOf_groupBy, in_map_iff.
  intros ([v flows] & <- & Hgroup).
  cbn [LogFilter.policyFor NetworkPolicy.spec_egress fst snd].
  rewrite destinationGroupsOf_groupBy, in_map_iff.
  intros ([k destFlows] & <- & Hsub).
  exists k, destFlows. split; [reflexivity|].
  intros flow Hflow.
  destruct (groupBy_sound _ _ _ _ Hsub flow Hflow) as [Hin Hk].
  destruct (groupBy_sound _ _ _ _ Hgroup flow Hin) as [Hin' Hv].
  injection Hk as Hk.
  repeat split; try assumption.
  unfold Spec.sourceKey in Hv.
  destruct (String.eqb_spec (AggregatedLog.source_namespace flow) namespace);
    [assumption|discriminate].
Qed.

(** Where the destination namespace holds a bar, the parts of the key
    shift, and a record with port 0 gets a rule with a port that is
    not a number. *)
Remark barred_namespace_shifts_the_port :
  List.map NetworkPolicy.spec_egress
    (LogFilter.generateCalicoNetworkPolicies "shop" "app"
       [Sample.barredNamespace]) =
  [[ {| EgressRule.action := "Allow";
        EgressRule.destination_namespaceSelector := Some "a";
        EgressRule.destination_selector := None;
        EgressRule.protocol := "B";
        EgressRule.ports :=
          Some [ {| PortSpec.protocol := "B"; PortSpec.port := None |} ] |} ]].
Proof. reflexivity. Qed.

(** ** Request validation *)

(** C6, at the input where it fails.  With the selector key given and
    the namespace left out, [handleGenerateNetworkPolicies] fetches the flow records and answers
    with the aggregated data of no namespace, not with an error. *)
Theorem generate_policies_fetches_without_namespace
    (backend : list FlowLog.t) :
  Server.perform
    (Server.handleGenerateNetworkPolicies (Js.Resolved backend)
       {| Server.namespace := None; Server.selectorKey := Some "app" |}) =
  (Js.Resolved
     (Server.PolicyDataJson
        {| PolicyData.namespace := None;
           PolicyData.selectorKey := Some "app";
           PolicyData.aggregatedFlows := [];
           PolicyData.summary_totalUniqueFlows := 0;
           PolicyData.summary_analysisNote := Server.analysisNote |}),
   [Server.FetchFlowLogs]).
Proof.
  unfold Server.perform, Server.handleGenerateNetworkPolicies, Server.bind,
    Server.getFlowLogs, Server.ret.
  cbn [Server.namespace Server.selectorKey Js.truthyOpt Js.truthy negb
       String.eqb Ascii.eqb Bool.eqb app].
  unfold LogFilter.aggregateLogsForPolicyGeneration.
  assert (H : List.filter (LogFilter.inNamespace None) backend = []).
  { induction backend as [|l ls IH]; [reflexivity|exact IH]. }
  rewrite H. reflexivity.
Qed.

(** The validations that are there: a missing or empty selector key,
    and a missing or empty namespace of the summary, are answered with
    an error text before any fetch. *)
Lemma missing_parameters_answered_before_fetch
    (backend : Js.Settled (list FlowLog.t))
    (localeCompare : string -> string -> Z) (getTime : string -> option Z)
    (args : Server.Args) :
  (Js.truthyOpt (Server.selectorKey args) = false ->
   Server.perform (Server.handleGenerateNetworkPolicies backend args) =
   (Js.Resolved (Server.Text Server.selectorKeyRequired), []))
  /\ (Js.truthyOpt (Server.namespace args) = false ->
      Server.perform
        (Server.handleGetNamespaceFlowSummary backend localeCompare getTime args) =
      (Js.Resolved (Server.Text Server.namespaceRequired), [])).
Proof.
  split; intros H.
  - unfold Server.perform, Server.handleGenerateNetworkPolicies.
    now rewrite H.
  - unfold Server.perform, Server.handleGetNamespaceFlowSummary.
    destruct (Server.namespace args) as [ns|]; [|reflexivity].
    simpl in H. now rewrite H.
Qed.

(** With its parameters given, each handler fetches once. *)
Lemma handlers_fetch_once
    (backend : Js.Settled (list FlowLog.t))
    (localeCompare : string -> string -> Z) (getTime : string -> option Z)
    (args : Server.Args) :
  (Js.truthyOpt (Server.selectorKey args) = true ->
   snd (Server.perform (Server.handleGenerateNetworkPolicies backend args))
   = [Server.FetchFlowLogs])
  /\ (Js.truthyOpt (Server.namespace args) = true ->
      snd (Server.perform
             (Server.handleGetNamespaceFlowSummary backend localeCompare
                getTime args))
      = [Server.FetchFlowLogs]).
Proof.
  split; intros H.
  - unfold Server.perform, Server.handleGenerateNetworkPolicies.
    rewrite H. unfold Server.bind, Server.getFlowLogs, Server.ret. simpl.
    now destruct backend.
  - unfold Server.perform, Server.handleGetNamespaceFlowSummary.
    destruct (Server.namespace args) as [ns|]; [|discriminate].
    simpl in H. rewrite H.
    unfold Server.catch, Server.bind, Server.getNamespaceFlowSummary,
      Server.getFlowLogs, Server.ret. simpl.
    now destruct backend.
Qed.

(** ** Further properties of the flow map *)

(** *** Counters, hits and names of a flow *)

Lemma mergeAll_some (ls : list FlowLog.t) (f : Flow.t) :
  Spec.mergeAll ls = Some f ->
  exists l rest, ls = l :: rest /\ f = fold_left mergeFlow rest (newFlow l).
Proof.
  destruct ls as [|l rest]; simpl; [discriminate|].
  intros [= <-]. eauto.
Qed.

(** X1.  The flow found under a key adds up the records of that key.
    Where the counters of those records stay within the exact range of
    doubles (the absolute values of each counter add up to 2^53 at
    most), each of the four counters of the flow is the sum of that
    counter over the records of the list that have the key; and its
    enforced hits are theirs, in the order of the list. *)
Theorem flow_counters_are_sums (logs : list FlowLog.t) (key : string)
    (flow : Flow.t) :
  Js.mapGet key (aggregate logs) = Some flow ->
  Spec.exactCounters (List.filter (Spec.hasKey key) logs) ->
  let records := List.filter (Spec.hasKey key) logs in
  records <> []
  /\ Flow.packetsIn flow = Spec.sumOf FlowLog.packets_in records
  /\ Flow.packetsOut flow = Spec.sumOf FlowLog.packets_out records
  /\ Flow.bytesIn flow = Spec.sumOf FlowLog.bytes_in records
  /\ Flow.bytesOut flow = Spec.sumOf FlowLog.bytes_out records
  /\ Flow.enforcedPolicies flow = List.flat_map enforcedOf records.
Proof.
  intros Hget Hexact records. subst records.
  rewrite mapGet_aggregate in Hget.
  apply mergeAll_some in Hget as (l & rest & E & ->).
  rewrite E in Hexact |- *.
  split; [discriminate|].
  destruct (mergeAll_counters l rest Hexact) as (-> & -> & -> & ->).
  rewrite run_enforcedPolicies, newFlow_enforcedPolicies.
  repeat split; reflexivity.
Qed.

Lemma flow_counters_are_sums_witness :
  let records :=
    List.filter (Spec.hasKey (flowKey Sample.allowedBySource))
      [Sample.allowedBySource; Sample.denied; Sample.allowedByDest] in
  let flow := mergeFlow (newFlow Sample.allowedBySource) Sample.allowedByDest in
  records <> []
  /\ Flow.packetsIn flow = Spec.sumOf FlowLog.packets_in records
  /\ Flow.packetsOut flow = Spec.sumOf FlowLog.packets_out records
  /\ Flow.bytesIn flow = Spec.sumOf FlowLog.bytes_in records
  /\ Flow.bytesOut flow = Spec.sumOf FlowLog.bytes_out records
  /\ Flow.enforcedPolicies flow = List.flat_map enforcedOf records.
Proof.
  apply (flow_counters_are_sums
           [Sample.allowedBySource; Sample.denied; Sample.allowedByDest]
           (flowKey Sample.allowedBySource)).
  - reflexivity.
  - repeat split; vm_compute; discriminate.
Defined.

(** *** The time window of a flow *)

Section Extreme.

Variable before : string -> string -> bool.
Hypothesis before_irrefl : forall x, before x x = false.
Hypothesis before_trans :
  forall x y z, before x y = true -> before y z = true -> before x z = true.
Hypothesis before_total :
  forall x y, before x y = false -> before y x = false -> x = y.

Lemma fold_pick_extreme (xs : list string) :
  forall x,
    In (fold_left (Spec.pick before) xs x) (x :: xs)
    /\ forall y, In y (x :: xs) ->
                 before y (fold_left (Spec.pick before) xs x) = false.
Proof.
  induction xs as [|z xs IH]; intros x.
  - simpl. split; [now left|]. intros y [<-|[]]. apply before_irrefl.
  - cbn [fold_left]. destruct (IH (Spec.pick before x z)) as [Hin Hleast].
    set (r := fold_left (Spec.pick before) xs (Spec.pick before x z)) in *.
    assert (Hp : before (Spec.pick before x z) r = false)
      by (apply Hleast; now left).
    split.
    + destruct Hin as [E|Hin]; [|right; now right].
      rewrite <- E. unfold Spec.pick.
      destruct (before z x); [right|]; now left.
    + intros y [<-|[<-|Hy]].
      * unfold Spec.pick in Hp. destruct (before z x) eqn:Ezx; [|exact Hp].
        destruct (before x r) eqn:Exr; [|reflexivity].
        rewrite (before_trans _ _ _ Ezx Exr) in Hp. discriminate.
      * unfold Spec.pick in Hp. destruct (before z x) eqn:Ezx; [exact Hp|].
        destruct (before z r) eqn:Ezr; [|reflexivity].
        destruct (before x z) eqn:Exz.
        -- rewrite (before_trans _ _ _ Exz Ezr) in Hp. discriminate.
        -- rewrite (before_total _ _ Exz Ezx) in Hp. congruence.
      * apply Hleast. now right.
Qed.

End Extreme.

(** X2.  The time window of a flow is the widest its records span: its
    start is the start of one of the records of its key and no record
    of the key starts before it; its end is the end of one of them and
    none ends after it. *)
Theorem flow_window_is_extreme (logs : list FlowLog.t) (key : string)
    (flow : Flow.t) :
  Js.mapGet key (aggregate logs) = Some flow ->
  (exists first, In first logs /\ flowKey first = key
                 /\ FlowLog.start_time first = Flow.startTime flow)
  /\ (exists last, In last logs /\ flowKey last = key
                   /\ FlowLog.end_time last = Flow.endTime flow)
  /\ forall log,
       In log logs -> flowKey log = key ->
       Js.lt (FlowLog.start_time log) (Flow.startTime flow) = false
       /\ Js.gt (FlowLog.end_time log) (Flow.endTime flow) = false.
Proof.
  intros Hget. rewrite mapGet_aggregate in Hget.
  assert (Hrecords : forall log, In log (List.filter (Spec.hasKey key) logs)
                                 <-> In log logs /\ flowKey log = key).
  { intros log. rewrite filter_In. unfold Spec.hasKey.
    now rewrite String.eqb_eq. }
  apply mergeAll_some in Hget as (l & rest & Hls & ->).
  rewrite run_startTime, run_endTime, newFlow_startTime, newFlow_endTime.
  destruct (fold_pick_extreme Js.lt lt_irrefl lt_trans lt_total
              (List.map FlowLog.start_time rest) (FlowLog.start_time l))
    as [Hs1 Hs2].
  destruct (fold_pick_extreme Js.gt gt_irrefl gt_trans gt_total
              (List.map FlowLog.end_time rest) (FlowLog.end_time l))
    as [He1 He2].
  change (FlowLog.start_time l :: List.map FlowLog.start_time rest)
    with (List.map FlowLog.start_time (l :: rest)) in Hs1, Hs2.
  change (FlowLog.end_time l :: List.map FlowLog.end_time rest)
    with (List.map FlowLog.end_time (l :: rest)) in He1, He2.
  rewrite <- Hls in Hs1, Hs2, He1, He2.
  split; [|split].
  - apply in_map_iff in Hs1 as (first & E & Hin).
    apply Hrecords in Hin as [Hin Hk]. exists first. auto.
  - apply in_map_iff in He1 as (last & E & Hin).
    apply Hrecords in Hin as [Hin Hk]. exists last. auto.
  - intros log Hin Hk.
    assert (Hlog : In log (List.filter (Spec.hasKey key) logs))
      by (apply Hrecords; auto).
    split; [apply Hs2|apply He2]; now apply in_map.
Qed.

Lemma flow_window_is_extreme_witness :
  let logs := [Sample.allowedBySource; Sample.denied; Sample.allowedByDest] in
  let key := flowKey Sample.allowedBySource in
  let flow := mergeFlow (newFlow Sample.allowedBySource) Sample.allowedByDest in
  (exists first, In first logs /\ flowKey first = key
                 /\ FlowLog.start_time first = Flow.startTime flow)
  /\ (exists last, In last logs /\ flowKey last = key
                   /\ FlowLog.end_time last = Flow.endTime flow)
  /\ forall log,
       In log logs -> flowKey log = key ->
       Js.lt (FlowLog.start_time log) (Flow.startTime flow) = false
       /\ Js.gt (FlowLog.end_time log) (Flow.endTime flow) = false.
Proof.
  apply (flow_window_is_extreme
           [Sample.allowedBySource; Sample.denied; Sample.allowedByDest]
           (flowKey Sample.allowedBySource)).
  reflexivity.
Defined.

(** *** The keys of the flow map *)

Lemma mapKeys_mapSet_found {V : Type} (k : string) (v old : V) (m : Js.Map V) :
  Js.mapGet k m = Some old -> Js.mapKeys (Js.mapSet k v m) = Js.mapKeys m.
Proof.
  unfold Js.mapKeys.
  induction m as [|[k0 v0] m IH]; simpl; [discriminate|].
  destruct (String.eqb_spec k0 k) as [->|Hne]; simpl; [reflexivity|].
  intros H. now rewrite IH.
Qed.

Lemma mapKeys_mapSet_new {V : Type} (k : string) (v : V) (m : Js.Map V) :
  Js.mapGet k m = None -> Js.mapKeys (Js.mapSet k v m) = Js.mapKeys m ++ [k].
Proof.
  unfold Js.mapKeys.
  induction m as [|[k0 v0] m IH]; simpl; [reflexivity|].
  destruct (String.eqb_spec k0 k) as [->|Hne]; simpl; [discriminate|].
  intros H. now rewrite IH.
Qed.

Lemma mapKeys_step (m : Js.Map Flow.t) (l : FlowLog.t) :
  Js.mapKeys (step m l) =
  match Js.mapGet (flowKey l) m with
  | Some _ => Js.mapKeys m
  | None => Js.mapKeys m ++ [flowKey l]
  end.
Proof.
  unfold step. destruct (Js.mapGet (flowKey l) m) eqn:E.
  - now apply mapKeys_mapSet_found with (old := t).
  - now apply mapKeys_mapSet_new.
Qed.

Lemma keys_run (ls : list FlowLog.t) :
  forall m,
    NoDup (Js.mapKeys m) ->
    NoDup (Js.mapKeys (fold_left step ls m))
    /\ (List.length (Js.mapKeys (fold_left step ls m))
        <= List.length (Js.mapKeys m) + List.length ls)%nat.
Proof.
  induction ls as [|l ls IH]; intros m Hm; simpl.
  - split; [exact Hm|lia].
  - assert (Hstep : NoDup (Js.mapKeys (step m l))
                    /\ (List.length (Js.mapKeys (step m l))
                        <= S (List.length (Js.mapKeys m)))%nat).
    { rewrite mapKeys_step. destruct (Js.mapGet (flowKey l) m) eqn:E.
      - split; [exact Hm|lia].
      - split.
        + apply NoDup_app; [exact Hm|repeat constructor; intros []|].
          intros k Hk [<-|[]]. now apply mapGet_None in E.
        + rewrite length_app. simpl. lia. }
    destruct Hstep as [Hnd Hlen].
    destruct (IH _ Hnd) as [Hnd' Hlen']. split; [exact Hnd'|lia].
Qed.

(** X3.  The keys of the flow map are pairwise distinct and are exactly
    the keys of the records; the map has no more flows than there are
    records, and at least one when there is a record. *)
Theorem flow_keys_are_distinct (logs : list FlowLog.t) :
  NoDup (Js.mapKeys (aggregate logs))
  /\ (forall key, In key (Js.mapKeys (aggregate logs))
                  <-> exists log, In log logs /\ flowKey log = key)
  /\ (List.length (aggregate logs) <= List.length logs)%nat
  /\ (logs <> [] -> aggregate logs <> []).
Proof.
  destruct (keys_run logs [] (NoDup_nil _)) as [Hnd Hlen].
  fold (aggregate logs) in Hnd, Hlen.
  assert (Hkeys : forall key, In key (Js.mapKeys (aggregate logs))
                              <-> exists log, In log logs /\ flowKey log = key).
  { intros key. split.
    - intros Hin. destruct (Js.mapGet key (aggregate logs)) as [f|] eqn:E.
      + apply mapGet_In in E. now apply key_has_record in E.
      + apply mapGet_None in E. contradiction.
    - intros (log & Hin & <-).
      destruct (Js.mapGet (flowKey log) (aggregate logs)) as [f|] eqn:E.
      + apply mapGet_In in E. change (flowKey log) with (fst (flowKey log, f)).
        now apply in_map.
      + rewrite mapGet_aggregate in E.
        assert (H : In log (List.filter (Spec.hasKey (flowKey log)) logs)).
        { apply filter_In. split; [exact Hin|]. unfold Spec.hasKey.
          apply String.eqb_refl. }
        destruct (List.filter _ logs); [destruct H|discriminate]. }
  split; [exact Hnd|]. split; [exact Hkeys|]. split.
  - unfold Js.mapKeys in Hlen. rewrite length_map in Hlen. simpl in Hlen. lia.
  - intros Hne E. destruct logs as [|l ls]; [contradiction|].
    assert (H : In (flowKey l) (Js.mapKeys (aggregate (l :: ls)))).
    { apply Hkeys. exists l. split; [now left|reflexivity]. }
    rewrite E in H. destruct H.
Qed.

(** ** Further properties of the summary document *)

Lemma total_app {A : Type} (measure : A -> Z) (xs ys : list A) :
  Notions.total measure (xs ++ ys) = Notions.total measure xs + Notions.total measure ys.
Proof. induction xs as [|x xs IH]; simpl; [reflexivity|]. rewrite IH. lia. Qed.

Lemma total_perm {A : Type} (measure : A -> Z) (xs ys : list A) :
  Permutation xs ys -> Notions.total measure xs = Notions.total measure ys.
Proof. induction 1; simpl; lia. Qed.

Lemma total_map {A B : Type} (f : A -> B) (measure : B -> Z) (xs : list A) :
  Notions.total measure (List.map f xs) = Notions.total (fun x => measure (f x)) xs.
Proof. induction xs as [|x xs IH]; simpl; [reflexivity|]. now rewrite IH. Qed.

Lemma fold_left_total {A : Type} (measure : A -> Z) (xs : list A) :
  forall acc,
    fold_left (fun acc x => acc + measure x) xs acc = acc + Notions.total measure xs.
Proof.
  induction xs as [|x xs IH]; intros acc; simpl; [lia|]. rewrite IH. lia.
Qed.

Lemma insertBy_perm {A : Type} (cmp : A -> A -> Z) (x : A) (ys : list A) :
  Permutation (Js.insertBy cmp x ys) (x :: ys).
Proof.
  induction ys as [|y ys IH]; simpl; [reflexivity|].
  destruct (0 <? cmp x y); [|reflexivity].
  rewrite IH. apply perm_swap.
Qed.

Lemma sort_perm {A : Type} (cmp : A -> A -> Z) (xs : list A) :
  Permutation (Js.sort cmp xs) xs.
Proof.
  unfold Js.sort. induction xs as [|x xs IH]; simpl; [reflexivity|].
  rewrite insertBy_perm. now constructor.
Qed.

Lemma total_values_mapSet {V : Type} (measure : V -> Z) (k : string) (v : V)
    (m : Js.Map V) :
  Notions.total measure (Js.mapValues (Js.mapSet k v m)) =
  Notions.total measure (Js.mapValues m) + measure v
  - match Js.mapGet k m with
    | Some old => measure old
    | None => 0
    end.
Proof.
  unfold Js.mapValues.
  induction m as [|[k0 v0] m IH]; simpl; [lia|].
  destruct (String.eqb_spec k0 k) as [->|Hne]; simpl; [lia|].
  rewrite IH. lia.
Qed.

Lemma total_nonneg {A : Type} (weight : A -> Z) (xs : list A) :
  (forall x, 0 <= weight x) -> 0 <= Notions.total weight xs.
Proof.
  intros H. induction xs as [|x xs IH]; simpl; [lia|]. specialize (H x). lia.
Qed.

Lemma mapGet_weight {V : Type} (weight : V -> Z) (k : string) (m : Js.Map V)
    (e : V) :
  (forall v, 0 <= weight v) ->
  Js.mapGet k m = Some e ->
  weight e <= Notions.total weight (Js.mapValues m).
Proof.
  intros Hpos. unfold Js.mapValues.
  induction m as [|[k0 v0] m IH]; simpl; [discriminate|].
  pose proof (total_nonneg weight (List.map snd m) Hpos) as Hrest.
  destruct (String.eqb_spec k0 k) as [->|Hne].
  - intros [= ->]. lia.
  - intros H. specialize (IH H). specialize (Hpos v0). lia.
Qed.

(** A measure of flows that each record raises by its own share, as
    long as the weight of the flow and the load of the record leave the
    sums exact, is, over the whole map, the sum of the shares. *)
Lemma aggregate_additive (measure weight : Flow.t -> Z)
    (share load : FlowLog.t -> Z) :
  (forall f, 0 <= weight f) ->
  (forall l, 0 <= load l) ->
  (forall l, measure (newFlow l) = share l /\ weight (newFlow l) <= load l) ->
  (forall e l,
      weight e + load l <= Js.maxExact ->
      measure (mergeFlow e l) = measure e + share l
      /\ weight (mergeFlow e l) <= weight e + load l) ->
  forall logs,
    Notions.total load logs <= Js.maxExact ->
    Notions.total measure (Js.mapValues (aggregate logs)) = Notions.total share logs
    /\ Notions.total weight (Js.mapValues (aggregate logs))
       <= Notions.total load logs.
Proof.
  intros Hweight Hload Hnew Hmerge logs Hbound. unfold aggregate.
  assert (H : forall ls m,
             Notions.total weight (Js.mapValues m) + Notions.total load ls
             <= Js.maxExact ->
             Notions.total measure (Js.mapValues (fold_left step ls m)) =
             Notions.total measure (Js.mapValues m) + Notions.total share ls
             /\ Notions.total weight (Js.mapValues (fold_left step ls m))
                <= Notions.total weight (Js.mapValues m) + Notions.total load ls).
  { induction ls as [|l ls IH]; intros m Hm.
    - simpl. lia.
    - cbn [fold_left].
      change (Notions.total load (l :: ls))
        with (load l + Notions.total load ls) in *.
      change (Notions.total share (l :: ls))
        with (share l + Notions.total share ls).
      pose proof (total_nonneg load ls Hload) as Hrest.
      assert (Hstep :
                Notions.total measure (Js.mapValues (step m l)) =
                Notions.total measure (Js.mapValues m) + share l
                /\ Notions.total weight (Js.mapValues (step m l))
                   <= Notions.total weight (Js.mapValues m) + load l).
      { unfold step.
        destruct (Js.mapGet (flowKey l) m) as [e|] eqn:E;
          rewrite !total_values_mapSet, E.
        - pose proof (mapGet_weight weight _ _ _ Hweight E) as He.
          destruct (Hmerge e l) as [-> Hw]; lia.
        - destruct (Hnew l) as [-> Hw]. lia. }
      destruct Hstep as [Em Ew].
      destruct (IH (step m l)) as [Em' Ew']; lia. }
  destruct (H logs []) as [Em Ew]; simpl in *; lia.
Qed.

Lemma total_zero {A : Type} (xs : list A) :
  Notions.total (fun _ => 0) xs = 0.
Proof. induction xs as [|x xs IH]; simpl; lia. Qed.

(** The two counters of each flow added, and these added over the
    flows, as [totalPackets] and [totalBytes] are. *)
Lemma fold_add_views (getTime : string -> option Z)
    (totalOf : FlowView.t -> Z) (incoming outgoing : Flow.t -> Z) :
  (forall f, totalOf (Summary.view getTime f) = Js.add (incoming f) (outgoing f)) ->
  forall fs acc,
    Z.abs acc
    + Notions.total (fun f => Z.abs (incoming f) + Z.abs (outgoing f)) fs
    <= Js.maxExact ->
    fold_left (fun sum v => Js.add sum (totalOf v))
      (List.map (Summary.view getTime) fs) acc
    = acc + Notions.total (fun f => incoming f + outgoing f) fs.
Proof.
  intros Hview fs. induction fs as [|f fs IH]; intros acc Hacc.
  - simpl. lia.
  - cbn [List.map fold_left].
    change (Notions.total (fun f => Z.abs (incoming f) + Z.abs (outgoing f)) (f :: fs))
      with (Z.abs (incoming f) + Z.abs (outgoing f)
            + Notions.total (fun f => Z.abs (incoming f) + Z.abs (outgoing f)) fs)
      in Hacc.
    change (Notions.total (fun f => incoming f + outgoing f) (f :: fs))
      with (incoming f + outgoing f
            + Notions.total (fun f => incoming f + outgoing f) fs).
    assert (Hrest : 0 <= Notions.total
                           (fun f => Z.abs (incoming f) + Z.abs (outgoing f)) fs)
      by (apply total_nonneg; intros; lia).
    rewrite Hview, (add_exact (incoming f) (outgoing f)) by lia.
    rewrite add_exact by lia.
    rewrite IH by lia. lia.
Qed.

(** X4.  The summary loses and invents no traffic.  Where the packets
    of the records of the namespace stay within the exact range of
    doubles (the absolute values of packets in and out add up to 2^53
    at most), and their bytes likewise, its total packets and total
    bytes are the sums, over those records, of packets in plus out and
    of bytes in plus out.  Its number of policy applications is the
    number of enforced hits of those records, whatever the counters. *)
Theorem summary_traffic_is_conserved
    (localeCompare : string -> string -> Z) (getTime : string -> option Z)
    (namespace : string) (namespaceLogs : list FlowLog.t) :
  let doc := Summary.document localeCompare getTime namespace namespaceLogs in
  (Spec.exactTraffic namespaceLogs ->
   SummaryDoc.statistics_traffic_totalPackets doc =
     Notions.total (fun l => FlowLog.packets_in l + FlowLog.packets_out l) namespaceLogs
   /\ SummaryDoc.statistics_traffic_totalBytes doc =
        Notions.total (fun l => FlowLog.bytes_in l + FlowLog.bytes_out l) namespaceLogs)
  /\ SummaryDoc.statistics_policies_totalPolicyApplications doc =
       Notions.total (fun l => Z.of_nat (List.length (enforcedOf l))) namespaceLogs.
Proof.
  intros doc. subst doc. unfold Summary.document.
  cbn [SummaryDoc.statistics_traffic_totalPackets
       SummaryDoc.statistics_traffic_totalBytes
       SummaryDoc.statistics_policies_totalPolicyApplications].
  unfold Summary.flowsOf.
  split; [intros [Hpackets Hbytes]; split|].
  - destruct (aggregate_additive
                (fun f => Flow.packetsIn f + Flow.packetsOut f)
                (fun f => Z.abs (Flow.packetsIn f) + Z.abs (Flow.packetsOut f))
                (fun l => FlowLog.packets_in l + FlowLog.packets_out l)
                (fun l => Z.abs (FlowLog.packets_in l)
                          + Z.abs (FlowLog.packets_out l)))
      with (logs := namespaceLogs) as [Em Ew].
    + intros; lia.
    + intros; lia.
    + intros l. rewrite newFlow_packetsIn, newFlow_packetsOut. lia.
    + intros e l Hel. rewrite mergeFlow_packetsIn, mergeFlow_packetsOut.
      rewrite !add_exact by lia. lia.
    + exact Hpackets.
    + rewrite (fold_add_views getTime FlowView.traffic_packets_total
                 Flow.packetsIn Flow.packetsOut).
      * rewrite (total_perm _ _ _ (sort_perm _ _)), Em. lia.
      * reflexivity.
      * rewrite (total_perm _ _ _ (sort_perm _ _)).
        unfold Spec.exactTraffic in Hpackets. simpl Z.abs.
        etransitivity; [exact Ew|exact Hpackets].
  - destruct (aggregate_additive
                (fun f => Flow.bytesIn f + Flow.bytesOut f)
                (fun f => Z.abs (Flow.bytesIn f) + Z.abs (Flow.bytesOut f))
                (fun l => FlowLog.bytes_in l + FlowLog.bytes_out l)
                (fun l => Z.abs (FlowLog.bytes_in l)
                          + Z.abs (FlowLog.bytes_out l)))
      with (logs := namespaceLogs) as [Em Ew].
    + intros; lia.
    + intros; lia.
    + intros l. rewrite newFlow_bytesIn, newFlow_bytesOut. lia.
    + intros e l Hel. rewrite mergeFlow_bytesIn, mergeFlow_bytesOut.
      rewrite !add_exact by lia. lia.
    + exact Hbytes.
    + rewrite (fold_add_views getTime FlowView.traffic_bytes_total
                 Flow.bytesIn Flow.bytesOut).
      * rewrite (total_perm _ _ _ (sort_perm _ _)), Em. lia.
      * reflexivity.
      * rewrite (total_perm _ _ _ (sort_perm _ _)).
        simpl Z.abs. etransitivity; [exact Ew|exact Hbytes].
  - unfold Summary.len. rewrite flat_map_concat_map, map_map.
    assert (H : forall vs : list Flow.t,
               Z.of_nat (List.length
                 (List.concat (List.map (fun x => FlowView.enforcement_policyDetails
                                               (Summary.view getTime x)) vs))) =
               Notions.total (fun f => Z.of_nat (List.length (Flow.enforcedPolicies f))) vs).
    { induction vs as [|v vs IH]; [reflexivity|].
      cbn [List.map List.concat Notions.total fold_right].
      rewrite length_app, Nat2Z.inj_add, IH.
      cbn [Summary.view FlowView.enforcement_policyDetails].
      now rewrite length_map. }
    rewrite H, (total_perm _ _ _ (sort_perm _ _)).
    apply (aggregate_additive _ (fun _ => 0) _ (fun _ => 0)).
    + intros; lia.
    + intros; lia.
    + intros l. rewrite newFlow_enforcedPolicies. split; [reflexivity|lia].
    + intros e l _. rewrite mergeFlow_enforcedPolicies, length_app. lia.
    + rewrite total_zero. vm_compute. discriminate.
Qed.

Lemma summary_traffic_is_conserved_witness :
  let doc :=
    Summary.document (fun _ _ => 0) (fun _ => None) "shop"
      [Sample.allowedBySource; Sample.denied; Sample.allowedByDest] in
  SummaryDoc.statistics_traffic_totalPackets doc =
    Notions.total (fun l => FlowLog.packets_in l + FlowLog.packets_out l)
      [Sample.allowedBySource; Sample.denied; Sample.allowedByDest]
  /\ SummaryDoc.statistics_traffic_totalBytes doc =
       Notions.total (fun l => FlowLog.bytes_in l + FlowLog.bytes_out l)
         [Sample.allowedBySource; Sample.denied; Sample.allowedByDest].
Proof.
  apply (proj1 (summary_traffic_is_conserved (fun _ _ => 0) (fun _ => None)
                  "shop"
                  [Sample.allowedBySource; Sample.denied; Sample.allowedByDest])).
  split; vm_compute; discriminate.
Defined.

Lemma view_allowed (getTime : string -> option Z) (flow : Flow.t) :
  Js.includes "ALLOWED" (FlowView.status (Summary.view getTime flow)) =
  negb (Spec.isBlocked (Summary.view getTime flow)).
Proof.
  unfold Spec.isBlocked. simpl.
  destruct ((Flow.sourceAction flow =? "Deny")%string
            || (Flow.destAction flow =? "Deny")%string); reflexivity.
Qed.

Lemma filter_partition_length {A : Type} (keep : A -> bool) (xs : list A) :
  (List.length (List.filter keep xs)
   + List.length (List.filter (fun x => negb (keep x)) xs))%nat = List.length xs.
Proof.
  induction xs as [|x xs IH]; simpl; [reflexivity|].
  destruct (keep x); simpl; lia.
Qed.

(** X5.  In the summary every flow is counted once: the total is the
    allowed count plus the blocked count, it is the number of flows of
    the map, which is at most the number of records, and the flows
    listed are the views of the flows of the map, each once. *)
Theorem summary_counts_add_up
    (localeCompare : string -> string -> Z) (getTime : string -> option Z)
    (namespace : string) (namespaceLogs : list FlowLog.t) :
  let doc := Summary.document localeCompare getTime namespace namespaceLogs in
  SummaryDoc.statistics_flows_total doc =
    SummaryDoc.statistics_flows_allowed doc + SummaryDoc.statistics_flows_blocked doc
  /\ SummaryDoc.statistics_flows_total doc = SummaryDoc.analysis_totalUniqueFlows doc
  /\ SummaryDoc.analysis_totalUniqueFlows doc <= SummaryDoc.analysis_totalLogEntries doc
  /\ Permutation (SummaryDoc.flows doc)
       (List.map (Summary.view getTime) (Js.mapValues (aggregate namespaceLogs))).
Proof.
  intros doc. subst doc. unfold Summary.document.
  cbn [SummaryDoc.statistics_flows_total SummaryDoc.statistics_flows_allowed
       SummaryDoc.statistics_flows_blocked SummaryDoc.analysis_totalUniqueFlows
       SummaryDoc.analysis_totalLogEntries SummaryDoc.flows].
  rewrite blockedOf_views.
  set (flows := Summary.flowsOf localeCompare getTime (aggregate namespaceLogs)).
  assert (Hallowed : Summary.allowedOf flows =
                     List.filter (fun v => negb (Spec.isBlocked v)) flows).
  { unfold Summary.allowedOf. apply filter_ext_in.
    intros v Hv. unfold flows, Summary.flowsOf in Hv.
    apply in_map_iff in Hv as (flow & <- & _). apply view_allowed. }
  assert (Hperm : Permutation flows
                    (List.map (Summary.view getTime)
                       (Js.mapValues (aggregate namespaceLogs)))).
  { unfold flows, Summary.flowsOf. apply Permutation_map, sort_perm. }
  rewrite Hallowed. unfold Summary.len.
  pose proof (filter_partition_length Spec.isBlocked flows) as Hpart.
  pose proof (Permutation_length Hperm) as Hlen.
  unfold Js.mapValues in Hlen. rewrite !length_map in Hlen.
  destruct (keys_run namespaceLogs [] (NoDup_nil _)) as [_ Hle].
  fold (aggregate namespaceLogs) in Hle.
  unfold Js.mapKeys in Hle. rewrite length_map in Hle. simpl in Hle.
  repeat split; try lia. exact Hperm.
Qed.

(** *** The order of the flows *)

Lemma insertBy_sorted {A : Type} (cmp : A -> A -> Z) :
  (forall a b, 0 < cmp a b -> cmp b a <= 0) ->
  forall x ys,
    Sorted (Notions.inOrder cmp) ys ->
    Sorted (Notions.inOrder cmp) (Js.insertBy cmp x ys).
Proof.
  intros Hanti x ys Hs.
  induction ys as [|y ys IH]; simpl.
  - repeat constructor.
  - destruct (0 <? cmp x y) eqn:E.
    + apply Z.ltb_lt in E. inversion Hs as [|? ? Hs' Hhd]; subst.
      constructor; [now apply IH|].
      destruct ys as [|z zs]; simpl.
      * constructor. now apply Hanti.
      * destruct (0 <? cmp x z); constructor.
        -- now inversion Hhd.
        -- now apply Hanti.
    + apply Z.ltb_ge in E. constructor; [exact Hs|]. now constructor.
Qed.

Lemma sort_sorted {A : Type} (cmp : A -> A -> Z) :
  (forall a b, 0 < cmp a b -> cmp b a <= 0) ->
  forall xs, Sorted (Notions.inOrder cmp) (Js.sort cmp xs).
Proof.
  intros Hanti xs. unfold Js.sort.
  induction xs as [|x xs IH]; simpl; [constructor|].
  now apply insertBy_sorted.
Qed.

Lemma sort_of_sorted {A : Type} (cmp : A -> A -> Z) (xs : list A) :
  Sorted (Notions.inOrder cmp) xs -> Js.sort cmp xs = xs.
Proof.
  unfold Js.sort. induction 1 as [|x xs Hs IH Hhd]; simpl; [reflexivity|].
  rewrite IH. destruct Hhd as [|y ys Hxy]; simpl; [reflexivity|].
  unfold Notions.inOrder in Hxy.
  destruct (0 <? cmp x y) eqn:E; [apply Z.ltb_lt in E; lia|reflexivity].
Qed.

Lemma sorted_map {A B : Type} (f : A -> B) (cmpA : A -> A -> Z)
    (cmpB : B -> B -> Z) (xs : list A) :
  (forall a b, cmpB (f a) (f b) = cmpA a b) ->
  Sorted (Notions.inOrder cmpA) xs ->
  Sorted (Notions.inOrder cmpB) (List.map f xs).
Proof.
  intros Hcmp. induction 1 as [|x xs Hs IH Hhd]; simpl; constructor.
  - exact IH.
  - destruct Hhd as [|y ys Hxy]; simpl; constructor.
    unfold Notions.inOrder in *. now rewrite Hcmp.
Qed.

(** X6.  With a [localeCompare] that never puts two strings each after
    the other, the flows of the summary are in the order of their start
    times, and a map whose flows are in that order already is listed as
    it stands, ties in the order of insertion. *)
Theorem summary_flows_are_in_start_order
    (localeCompare : string -> string -> Z) (getTime : string -> option Z)
    (namespace : string) (namespaceLogs : list FlowLog.t) :
  (forall a b, 0 < localeCompare a b -> localeCompare b a <= 0) ->
  let doc := Summary.document localeCompare getTime namespace namespaceLogs in
  Sorted (Notions.inOrder (Notions.byViewStart localeCompare)) (SummaryDoc.flows doc)
  /\ (Sorted (Notions.inOrder (Summary.byStartTime localeCompare))
        (Js.mapValues (aggregate namespaceLogs)) ->
      SummaryDoc.flows doc =
      List.map (Summary.view getTime) (Js.mapValues (aggregate namespaceLogs))).
Proof.
  intros Hanti doc. subst doc. unfold Summary.document.
  cbn [SummaryDoc.flows]. unfold Summary.flowsOf. split.
  - apply (sorted_map _ (Summary.byStartTime localeCompare)); [reflexivity|].
    apply sort_sorted. intros a b. apply Hanti.
  - intros Hs. now rewrite sort_of_sorted.
Qed.

Lemma byteCompare_anti (a b : string) :
  0 < Notions.byteCompare a b -> Notions.byteCompare b a <= 0.
Proof.
  unfold Notions.byteCompare.
  destruct (String_as_OT.compare_spec a b) as [E|H|H]; try lia.
  intros _. unfold String_as_OT.lt in H. rewrite H. lia.
Qed.

Lemma summary_flows_are_in_start_order_witness :
  let doc :=
    Summary.document Notions.byteCompare (fun _ => None) "shop"
      [Sample.denied; Sample.allowedBySource; Sample.allowedByDest] in
  Sorted (Notions.inOrder (Notions.byViewStart Notions.byteCompare))
    (SummaryDoc.flows doc)
  /\ (Sorted (Notions.inOrder (Summary.byStartTime Notions.byteCompare))
        (Js.mapValues
           (aggregate [Sample.denied; Sample.allowedBySource; Sample.allowedByDest])) ->
      SummaryDoc.flows doc =
      List.map (Summary.view (fun _ => None))
        (Js.mapValues
           (aggregate [Sample.denied; Sample.allowedBySource; Sample.allowedByDest]))).
Proof.
  apply (summary_flows_are_in_start_order Notions.byteCompare (fun _ => None)
           "shop" [Sample.denied; Sample.allowedBySource; Sample.allowedByDest]).
  exact byteCompare_anti.
Defined.

(** ** Further properties of the analysis of blocked flows *)

Lemma blockingEntry_settled (kubeconfigPath : option string)
    (spawn : Kubectl.Spawn) (trigger : Policy.t) (reason : string) :
  BlockingPolicy.policyYaml
    (Analyzer.blockingEntry kubeconfigPath spawn trigger reason) =
  match Kubectl.retrievePolicyDetails kubeconfigPath spawn (Policy.name trigger)
          (Policy.namespace trigger) (Policy.kind trigger) with
  | Js.Resolved policyDetails => policyDetails
  | Js.Rejected _ => None
  end
  /\ BlockingPolicy.error
       (Analyzer.blockingEntry kubeconfigPath spawn trigger reason) =
     match Kubectl.retrievePolicyDetails kubeconfigPath spawn (Policy.name trigger)
             (Policy.namespace trigger) (Policy.kind trigger) with
     | Js.Resolved _ => None
     | Js.Rejected message => Some ("Failed to retrieve policy: " ++ message)%string
     end.
Proof.
  unfold Analyzer.blockingEntry.
  destruct (Kubectl.retrievePolicyDetails _ _ _ _ _); split; reflexivity.
Qed.

(** X7.  The blocking policies reported for a record are its findings
    and nothing else: one entry for each pending hit with a named
    trigger, then one for each enforced Deny hit with a named trigger,
    in the order of the record, each with the reason of its loop.  The
    YAML of an entry is what the lookup of its own trigger resolved
    with, and the entry has no error then; where the lookup rejected,
    the YAML is null and the error is the message of the rejection,
    after Failed to retrieve policy. *)
Theorem blocking_entries_follow_the_hits (kubeconfigPath : option string)
    (spawn : Kubectl.Spawn) (log : FlowLog.t) :
  List.map (fun entry => (BlockingPolicy.triggerPolicy entry,
                          BlockingPolicy.blockingReason entry))
    (Analyzer.blockingPoliciesOf kubeconfigPath spawn log)
  = Notions.findings log
  /\ forall entry,
       In entry (Analyzer.blockingPoliciesOf kubeconfigPath spawn log) ->
       match Kubectl.retrievePolicyDetails kubeconfigPath spawn
               (Policy.name (BlockingPolicy.triggerPolicy entry))
               (Policy.namespace (BlockingPolicy.triggerPolicy entry))
               (Policy.kind (BlockingPolicy.triggerPolicy entry)) with
       | Js.Resolved policyDetails =>
           BlockingPolicy.policyYaml entry = policyDetails
           /\ BlockingPolicy.error entry = None
       | Js.Rejected message =>
           BlockingPolicy.policyYaml entry = None
           /\ BlockingPolicy.error entry =
              Some ("Failed to retrieve policy: " ++ message)%string
       end.
Proof.
  rewrite blockingPoliciesOf_entries. split.
  - rewrite map_app. unfold Notions.findings, Analyzer.pendingEntries,
      Analyzer.enforcedEntries.
    f_equal.
    + induction (pendingOf log) as [|p ps IH]; [reflexivity|].
      cbn [flat_map]. rewrite map_app, IH. f_equal.
      destruct (Analyzer.namedTrigger p) as [t|]; [|reflexivity].
      destruct (blockingEntry_fields kubeconfigPath spawn t
                  (Analyzer.pendingReason p)) as (H1 & H2 & _).
      cbn [List.map]. now rewrite H1, H2.
    + induction (enforcedOf log) as [|p ps IH]; [reflexivity|].
      cbn [flat_map]. rewrite map_app, IH. f_equal.
      destruct (Policy.action p =? "Deny")%string; [|reflexivity].
      destruct (Analyzer.namedTrigger p) as [t|]; [|reflexivity].
      destruct (blockingEntry_fields kubeconfigPath spawn t
                  Analyzer.enforcedReason) as (H1 & H2 & _).
      cbn [List.map]. now rewrite H1, H2.
  - assert (Hentry : forall t reason,
               let entry := Analyzer.blockingEntry kubeconfigPath spawn t reason in
               match Kubectl.retrievePolicyDetails kubeconfigPath spawn
                       (Policy.name (BlockingPolicy.triggerPolicy entry))
                       (Policy.namespace (BlockingPolicy.triggerPolicy entry))
                       (Policy.kind (BlockingPolicy.triggerPolicy entry)) with
               | Js.Resolved policyDetails =>
                   BlockingPolicy.policyYaml entry = policyDetails
                   /\ BlockingPolicy.error entry = None
               | Js.Rejected message =>
                   BlockingPolicy.policyYaml entry = None
                   /\ BlockingPolicy.error entry =
                      Some ("Failed to retrieve policy: " ++ message)%string
               end).
    { intros t reason entry. subst entry.
      destruct (blockingEntry_fields kubeconfigPath spawn t reason) as (-> & _ & _).
      destruct (blockingEntry_settled kubeconfigPath spawn t reason) as (-> & ->).
      destruct (Kubectl.retrievePolicyDetails _ _ _ _ _); split; reflexivity. }
    intros entry. rewrite in_app_iff. intros [H|H].
    + apply pendingEntries_In in H as (p & t & _ & _ & ->). apply Hentry.
    + apply enforcedEntries_In in H as (p & t & _ & _ & _ & ->). apply Hentry.
Qed.

(** *** Counts of the analysis *)

Lemma set_add_length (x : string) (s : list string) :
  (List.length s <= List.length (set_add string_dec x s) <= S (List.length s))%nat.
Proof.
  induction s as [|y s IH]; simpl; [lia|].
  destruct (string_dec x y); simpl; lia.
Qed.

Lemma unique_length (xs : list string) :
  (List.length (Js.unique xs) <= List.length xs)%nat
  /\ (xs <> [] -> 1 <= List.length (Js.unique xs))%nat.
Proof.
  unfold Js.unique.
  assert (H : forall ys acc,
             (List.length acc <= List.length
                (fold_left (fun s x => set_add string_dec x s) ys acc)
              <= List.length acc + List.length ys)%nat).
  { induction ys as [|y ys IH]; intros acc; simpl; [lia|].
    pose proof (IH (set_add string_dec y acc)).
    pose proof (set_add_length y acc). lia. }
  split.
  - pose proof (H xs []). simpl in *. lia.
  - destruct xs as [|x xs]; [congruence|]. intros _. simpl.
    pose proof (H xs [x]). simpl in *. lia.
Qed.

Lemma blockedLogsOf_filter (namespace : option string) (allLogs : list FlowLog.t) :
  Analyzer.blockedLogsOf namespace allLogs =
  List.filter (Notions.denied namespace) allLogs.
Proof.
  unfold Analyzer.blockedLogsOf, Notions.denied.
  destruct namespace as [ns|]; simpl.
  - destruct (Js.truthy ns).
    + induction allLogs as [|l ls IH]; simpl; [reflexivity|].
      destruct (FlowLog.action l =? "Deny")%string; simpl; [|exact IH].
      destruct (Summary.touches ns l); now rewrite IH.
    + apply filter_ext. intros l. now rewrite andb_true_r.
  - apply filter_ext. intros l. now rewrite andb_true_r.
Qed.

(** X8.  When the analysis reports blocked flows, they are the denied
    records of the fetch (on either side of the namespace, when one is
    given), one flow per record in the order of the fetch; every flow
    reported has action Deny; the total is their number; and the number
    of distinct connections is at least one and at most the total. *)
Theorem analysis_reports_the_denied_records (kubeconfigPath : option string)
    (spawn : Kubectl.Spawn) (getTime : string -> option Z)
    (namespace : option string) (allLogs : list FlowLog.t)
    (doc : AnalysisDoc.t) :
  Analyzer.analyze kubeconfigPath spawn getTime namespace allLogs
    = Analyzer.Analysed doc ->
  AnalysisDoc.blockedFlows doc =
    List.map (Analyzer.analyzeLog kubeconfigPath spawn)
      (List.filter (Notions.denied namespace) allLogs)
  /\ (forall flow, In flow (AnalysisDoc.blockedFlows doc) ->
                   BlockedFlow.flow_action flow = "Deny")
  /\ AnalysisDoc.analysis_totalBlockedFlows doc =
       Z.of_nat (List.length (AnalysisDoc.blockedFlows doc))
  /\ 1 <= AnalysisDoc.analysis_uniqueBlockedConnections doc
       <= AnalysisDoc.analysis_totalBlockedFlows doc.
Proof.
  intros Hdoc.
  unfold Analyzer.analyze in Hdoc. rewrite blockedLogsOf_filter in Hdoc.
  destruct (List.filter (Notions.denied namespace) allLogs) as [|l ls] eqn:E;
    [discriminate|].
  injection Hdoc as <-.
  cbn [AnalysisDoc.blockedFlows AnalysisDoc.analysis_totalBlockedFlows
       AnalysisDoc.analysis_uniqueBlockedConnections].
  split; [reflexivity|]. split; [|split].
  - intros flow Hflow.
    change (In flow (List.map (Analyzer.analyzeLog kubeconfigPath spawn) (l :: ls)))
      in Hflow.
    apply in_map_iff in Hflow as (log & <- & Hlog).
    rewrite <- E in Hlog. apply filter_In in Hlog as [_ Hd].
    unfold Notions.denied in Hd. apply andb_true_iff in Hd as [Hd _].
    now apply String.eqb_eq in Hd.
  - unfold Analyzer.len.
    change (Analyzer.analyzeLog kubeconfigPath spawn l
            :: List.map (Analyzer.analyzeLog kubeconfigPath spawn) ls)
      with (List.map (Analyzer.analyzeLog kubeconfigPath spawn) (l :: ls)).
    now rewrite length_map.
  - unfold Analyzer.len.
    destruct (unique_length (List.map Analyzer.connection (l :: ls))) as [H1 H2].
    rewrite length_map in H1.
    assert (H3 : (1 <= List.length
                   (Js.unique (List.map Analyzer.connection (l :: ls))))%nat)
      by (apply H2; discriminate).
    change (Analyzer.connection l :: List.map Analyzer.connection ls)
      with (List.map Analyzer.connection (l :: ls)).
    lia.
Qed.

Lemma analysis_reports_the_denied_records_witness :
  let allLogs := [Sample.allowedBySource; Sample.denied; Sample.deniedNameless] in
  let doc := Notions.analysisDoc in
  AnalysisDoc.blockedFlows doc =
    List.map (Analyzer.analyzeLog None Sample.spawnPrints)
      (List.filter (Notions.denied (Some "shop")) allLogs)
  /\ (forall flow, In flow (AnalysisDoc.blockedFlows doc) ->
                   BlockedFlow.flow_action flow = "Deny")
  /\ AnalysisDoc.analysis_totalBlockedFlows doc =
       Z.of_nat (List.length (AnalysisDoc.blockedFlows doc))
  /\ 1 <= AnalysisDoc.analysis_uniqueBlockedConnections doc
       <= AnalysisDoc.analysis_totalBlockedFlows doc.
Proof.
  apply (analysis_reports_the_denied_records None Sample.spawnPrints
           Notions.clock (Some "shop")
           [Sample.allowedBySource; Sample.denied; Sample.deniedNameless]).
  reflexivity.
Defined.

(** *** The time window of the analysis *)

Section Extremum.

Variable pick : Z -> Z -> Z.
Variable le : Z -> Z -> Prop.
Hypothesis le_refl : forall a, le a a.
Hypothesis le_trans : forall a b c, le a b -> le b c -> le a c.
Hypothesis le_antisym : forall a b, le a b -> le b a -> a = b.
Hypothesis pick_l : forall a b, le (pick a b) a.
Hypothesis pick_r : forall a b, le (pick a b) b.
Hypothesis pick_one : forall a b, pick a b = a \/ pick a b = b.

Lemma extremum_cons (x y : option Z) (rest : list (option Z)) :
  Analyzer.extremum pick (x :: y :: rest) =
  match x, Analyzer.extremum pick (y :: rest) with
  | Some a, Some b => Some (pick a b)
  | _, _ => None
  end.
Proof. reflexivity. Qed.

Lemma extremum_sound (xs : list (option Z)) (t : Z) :
  Analyzer.extremum pick xs = Some t ->
  (forall x, In x xs -> exists u, x = Some u /\ le t u) /\ In (Some t) xs.
Proof.
  revert t. induction xs as [|x [|y rest] IH]; intros t.
  - discriminate.
  - simpl. intros ->. split; [|now left]. intros x' [<-|[]]. eauto.
  - rewrite extremum_cons.
    destruct x as [a|]; [|discriminate].
    destruct (Analyzer.extremum pick (y :: rest)) as [b|] eqn:E; [|discriminate].
    intros [= <-]. destruct (IH b eq_refl) as [Hall Hin]. split.
    + intros x' [<-|Hx']; [eauto|].
      destruct (Hall x' Hx') as (u & -> & Hu). eauto.
    + destruct (pick_one a b) as [->| ->]; [now left | now right].
Qed.

Lemma extremum_defined (xs : list (option Z)) :
  xs <> [] -> (forall x, In x xs -> exists u, x = Some u) ->
  exists t, Analyzer.extremum pick xs = Some t.
Proof.
  induction xs as [|x [|y rest] IH]; intros Hne Hall.
  - congruence.
  - simpl. apply Hall. now left.
  - rewrite extremum_cons.
    destruct (Hall x (or_introl eq_refl)) as (a & ->).
    destruct IH as (b & ->); [discriminate | intros x' Hx'; apply Hall; now right |].
    eauto.
Qed.

Lemma extremum_some (xs : list (option Z)) (t : Z) :
  Analyzer.extremum pick xs = Some t <->
  (forall x, In x xs -> exists u, x = Some u /\ le t u) /\ In (Some t) xs.
Proof.
  split; [apply extremum_sound|]. intros [Hall Hin].
  destruct (extremum_defined xs) as (b & Hb).
  - intros ->. destruct Hin.
  - intros x Hx. destruct (Hall x Hx) as (u & -> & _). eauto.
  - rewrite Hb. f_equal.
    destruct (extremum_sound xs b Hb) as [Hall' Hin'].
    destruct (Hall _ Hin') as (u & [= <-] & H1).
    destruct (Hall' _ Hin) as (u & [= <-] & H2).
    now apply le_antisym.
Qed.

End Extremum.

(** X9.  The time window of the analysis spans the denied records: its
    start is a number exactly when the start time of every denied
    record is a date, and it is then the earliest of them; its end
    likewise is the latest of their end times.  One record whose time
    is no date leaves that bound of the window null. *)
Theorem analysis_window_spans_the_denied_records
    (kubeconfigPath : option string) (spawn : Kubectl.Spawn)
    (getTime : string -> option Z) (namespace : option string)
    (allLogs : list FlowLog.t) (doc : AnalysisDoc.t) :
  Analyzer.analyze kubeconfigPath spawn getTime namespace allLogs
    = Analyzer.Analysed doc ->
  let blocked := List.filter (Notions.denied namespace) allLogs in
  (forall t,
     AnalysisDoc.analysis_timeWindow_start doc = Some t <->
     (forall log, In log blocked ->
        exists u, getTime (FlowLog.start_time log) = Some u /\ t <= u)
     /\ exists log, In log blocked /\ getTime (FlowLog.start_time log) = Some t)
  /\ (forall t,
        AnalysisDoc.analysis_timeWindow_end doc = Some t <->
        (forall log, In log blocked ->
           exists u, getTime (FlowLog.end_time log) = Some u /\ u <= t)
        /\ exists log, In log blocked /\ getTime (FlowLog.end_time log) = Some t).
Proof.
  intros Hdoc blocked.
  assert (Hwin : AnalysisDoc.analysis_timeWindow_start doc =
                   Analyzer.extremum Z.min
                     (List.map (fun log => getTime (FlowLog.start_time log)) blocked)
                 /\ AnalysisDoc.analysis_timeWindow_end doc =
                      Analyzer.extremum Z.max
                        (List.map (fun log => getTime (FlowLog.end_time log)) blocked)).
  { unfold Analyzer.analyze in Hdoc. rewrite blockedLogsOf_filter in Hdoc.
    fold blocked in Hdoc. destruct blocked as [|l ls]; [discriminate|].
    injection Hdoc as <-. split; reflexivity. }
  destruct Hwin as [-> ->]. clear Hdoc. generalize blocked as logs. intros logs.
  assert (Hmap : forall (f : FlowLog.t -> option Z) (P : Z -> Z -> Prop) t,
             ((forall x, In x (List.map f logs) -> exists u, x = Some u /\ P t u)
              /\ In (Some t) (List.map f logs))
             <-> ((forall log, In log logs -> exists u, f log = Some u /\ P t u)
                  /\ exists log, In log logs /\ f log = Some t)).
  { intros f P t. split; intros [Hall Hin]; split.
    - intros log Hlog. apply Hall. now apply in_map.
    - apply in_map_iff in Hin as (log & H1 & H2). eauto.
    - intros x Hx. apply in_map_iff in Hx as (log & <- & Hlog). now apply Hall.
    - destruct Hin as (log & H1 & H2). apply in_map_iff. eauto. }
  split; intros t.
  - rewrite <- (Hmap (fun log => getTime (FlowLog.start_time log)) Z.le).
    apply extremum_some with (le := Z.le); intros; lia.
  - rewrite <- (Hmap (fun log => getTime (FlowLog.end_time log)) (fun a b => b <= a)).
    apply extremum_some with (le := fun a b => b <= a); intros; lia.
Qed.

Lemma analysis_window_spans_the_denied_records_witness :
  let blocked :=
    List.filter (Notions.denied (Some "shop"))
      [Sample.allowedBySource; Sample.denied; Sample.deniedNameless] in
  let doc := Notions.analysisDoc in
  (forall t,
     AnalysisDoc.analysis_timeWindow_start doc = Some t <->
     (forall log, In log blocked ->
        exists u, Notions.clock (FlowLog.start_time log) = Some u /\ t <= u)
     /\ exists log, In log blocked /\ Notions.clock (FlowLog.start_time log) = Some t)
  /\ (forall t,
        AnalysisDoc.analysis_timeWindow_end doc = Some t <->
        (forall log, In log blocked ->
           exists u, Notions.clock (FlowLog.end_time log) = Some u /\ u <= t)
        /\ exists log, In log blocked /\ Notions.clock (FlowLog.end_time log) = Some t).
Proof.
  apply (analysis_window_spans_the_denied_records None Sample.spawnPrints
           Notions.clock (Some "shop")
           [Sample.allowedBySource; Sample.denied; Sample.deniedNameless]).
  reflexivity.
Defined.

(** ** The text of a policy *)

Lemma outcome_exited (events : list Kubectl.Event) :
  forall (acc : string) (code : Z) (out : string),
    Kubectl.outcome acc events = Kubectl.Exited code out <->
    exists before after,
      events = before ++ Kubectl.Close code :: after
      /\ forallb Notions.isData before = true
      /\ out = (acc ++ Notions.stdoutOf before)%string.
Proof.
  assert (Happ : forall a b c : string, ((a ++ b) ++ c = a ++ (b ++ c))%string).
  { induction a as [|ch a IH]; intros b c; simpl; [reflexivity|]. now rewrite IH. }
  assert (Hnil : forall a : string, (a ++ "" = a)%string).
  { induction a as [|ch a IH]; simpl; [reflexivity|]. now rewrite IH. }
  induction events as [|event events IH]; intros acc code out.
  - simpl. split; [discriminate|].
    intros (before & after & H & _). now destruct before.
  - destruct event as [data|data|code'|]; cbn [Kubectl.outcome].
    + rewrite IH. split.
      * intros (before & after & -> & Hb & ->).
        exists (Kubectl.Stdout data :: before), after. simpl.
        rewrite Happ. auto.
      * intros (before & after & H & Hb & ->).
        destruct before as [|e before]; [discriminate|].
        injection H as <- ->. simpl in *.
        exists before, after. rewrite Happ. auto.
    + rewrite IH. split.
      * intros (before & after & -> & Hb & ->).
        exists (Kubectl.Stderr data :: before), after. simpl. auto.
      * intros (before & after & H & Hb & ->).
        destruct before as [|e before]; [discriminate|].
        injection H as <- ->. simpl in *.
        exists before, after. auto.
    + split.
      * intros [= -> ->]. exists [], events. simpl. now rewrite Hnil.
      * intros (before & after & H & Hb & ->).
        destruct before as [|e before].
        -- injection H as -> _. simpl. now rewrite Hnil.
        -- injection H as <- _. discriminate.
    + split; [discriminate|].
      intros (before & after & H & Hb & _).
      destruct before as [|e before]; [discriminate|].
      injection H as <- _. discriminate.
Qed.

(** X10.  [retrievePolicyDetails] settles with a text exactly when the
    kind is one of the three it knows and the process exits with code
    zero before it fails and before the timer; the text is then what
    the process wrote to its standard output before that exit, chunks
    joined in order and trimmed.  What is written to the error stream,
    and whatever happens after the exit, has no effect on it. *)
Theorem policy_text_is_the_output_before_exit
    (kubeconfigPath : option string) (spawn : Kubectl.Spawn)
    (policyName policyNamespace policyKind : string) (text : string) :
  Kubectl.retrievePolicyDetails kubeconfigPath spawn
    policyName policyNamespace policyKind = Js.Resolved (Some text)
  <->
  exists resource before after,
    Kubectl.resourceType policyKind = Some resource
    /\ spawn (Kubectl.arguments kubeconfigPath resource
                policyName policyNamespace policyKind)
       = Kubectl.Started (before ++ Kubectl.Close 0 :: after)
    /\ forallb Notions.isData before = true
    /\ text = Js.trim (Notions.stdoutOf before).
Proof.
  rewrite retrievePolicyDetails_settles. split.
  - destruct (Kubectl.resourceType policyKind) as [resource|]; [|discriminate].
    destruct (spawn _) as [message|events] eqn:Es; [discriminate|].
    destruct (Kubectl.outcome _ _) as [code out| |] eqn:E; try discriminate.
    destruct (code =? 0) eqn:Hc; [|discriminate].
    apply Z.eqb_eq in Hc as ->. intros [= <-].
    apply outcome_exited in E as (before & after & -> & H2 & ->).
    exists resource, before, after. auto.
  - intros (resource & before & after & -> & -> & H2 & ->).
    assert (E : Kubectl.outcome "" (before ++ Kubectl.Close 0 :: after)
                = Kubectl.Exited 0 (Notions.stdoutOf before)).
    { apply outcome_exited. exists before, after. auto. }
    now rewrite E.
Qed.

(** ** Further properties of the drafts of network policies *)

(** *** What a grouping holds *)

Lemma unique_snoc (xs : list string) (x : string) :
  Js.unique (xs ++ [x]) = set_add string_dec x (Js.unique xs).
Proof. unfold Js.unique. now rewrite fold_left_app. Qed.

Lemma unique_In (xs : list string) (x : string) :
  In x (Js.unique xs) <-> In x xs.
Proof.
  induction xs as [|y xs IH] using rev_ind; [reflexivity|].
  rewrite unique_snoc, set_add_iff, IH, in_app_iff. simpl. intuition.
Qed.

Lemma unique_NoDup (xs : list string) : NoDup (Js.unique xs).
Proof.
  induction xs as [|y xs IH] using rev_ind; [constructor|].
  rewrite unique_snoc. now apply set_add_nodup.
Qed.

Lemma set_add_old (x : string) (s : list string) :
  In x s -> set_add string_dec x s = s.
Proof.
  induction s as [|y s IH]; simpl; [tauto|].
  destruct (string_dec x y) as [->|Hne]; [reflexivity|].
  intros [E|H]; [congruence|]. now rewrite IH.
Qed.

Lemma set_add_new (x : string) (s : list string) :
  ~ In x s -> set_add string_dec x s = s ++ [x].
Proof.
  induction s as [|y s IH]; simpl; [reflexivity|].
  destruct (string_dec x y) as [->|Hne]; [tauto|].
  intros H. rewrite IH; tauto.
Qed.

Section Grouped.

Context {A : Type}.
Variable keyOf : A -> option string.

Lemma keysOf_app (xs ys : list A) :
  Notions.keysOf keyOf (xs ++ ys) = Notions.keysOf keyOf xs ++ Notions.keysOf keyOf ys.
Proof. unfold Notions.keysOf. now rewrite flat_map_app. Qed.

Lemma keysOf_In (xs : list A) (key : string) :
  In key (Notions.keysOf keyOf xs) <-> exists x, In x xs /\ keyOf x = Some key.
Proof.
  unfold Notions.keysOf. rewrite in_flat_map. split.
  - intros (x & Hx & Hk). exists x. split; [exact Hx|].
    destruct (keyOf x) as [k|]; [|destruct Hk].
    destruct Hk as [->|[]]. reflexivity.
  - intros (x & Hx & Hk). exists x. split; [exact Hx|]. rewrite Hk. now left.
Qed.

Lemma membersOf_app (key : string) (xs ys : list A) :
  Notions.membersOf keyOf key (xs ++ ys) =
  Notions.membersOf keyOf key xs ++ Notions.membersOf keyOf key ys.
Proof. unfold Notions.membersOf. apply filter_app. Qed.

Lemma membersOf_In (key : string) (xs : list A) (x : A) :
  In x (Notions.membersOf keyOf key xs) <-> In x xs /\ keyOf x = Some key.
Proof.
  unfold Notions.membersOf, Notions.filedUnder. rewrite filter_In.
  destruct (keyOf x) as [k|]; [|intuition discriminate].
  destruct (String.eqb_spec k key) as [->|Hne]; intuition congruence.
Qed.

Lemma membersOf_nil (key : string) (xs : list A) :
  ~ In key (Notions.keysOf keyOf xs) -> Notions.membersOf keyOf key xs = [].
Proof.
  intros H. destruct (Notions.membersOf keyOf key xs) as [|x ms] eqn:E;
    [reflexivity|].
  exfalso. apply H, keysOf_In. exists x. apply membersOf_In.
  rewrite E. now left.
Qed.

Lemma firstSeen_members (xs : list A) (key : string) :
  In key (Notions.firstSeen keyOf xs) -> Notions.membersOf keyOf key xs <> [].
Proof.
  unfold Notions.firstSeen. rewrite unique_In, keysOf_In.
  intros (x & Hx & Hk) E.
  assert (H : In x (Notions.membersOf keyOf key xs)) by now apply membersOf_In.
  rewrite E in H. destruct H.
Qed.

Lemma mapGet_grouped (xs : list A) (key : string) :
  Js.mapGet key (Notions.grouped keyOf xs) =
  if in_dec string_dec key (Notions.firstSeen keyOf xs)
  then Some (Notions.membersOf keyOf key xs) else None.
Proof.
  unfold Notions.grouped.
  induction (Notions.firstSeen keyOf xs) as [|k ks IH]; [reflexivity|].
  cbn [List.map Js.mapGet]. rewrite IH.
  destruct (String.eqb_spec k key) as [->|Hne].
  - destruct (in_dec string_dec key (key :: ks)) as [_|H]; [reflexivity|].
    exfalso. apply H. now left.
  - destruct (in_dec string_dec key ks) as [H|H];
      destruct (in_dec string_dec key (k :: ks)) as [H'|H']; try reflexivity.
    + exfalso. apply H'. now right.
    + destruct H' as [E|H']; [congruence|contradiction].
Qed.

Lemma mapSet_keyed (F G : string -> list A) (key : string) (v : list A)
    (keys : list string) :
  NoDup keys -> In key keys -> G key = v ->
  (forall k, k <> key -> G k = F k) ->
  Js.mapSet key v (List.map (fun k => (k, F k)) keys) =
  List.map (fun k => (k, G k)) keys.
Proof.
  intros Hnd Hin Hv Hother. induction keys as [|k keys IH]; [destruct Hin|].
  cbn [List.map Js.mapSet]. inversion Hnd as [|? ? Hk Hnd']; subst.
  destruct (String.eqb_spec k key) as [->|Hne].
  - f_equal. apply map_ext_in. intros k Hk'. rewrite Hother; [reflexivity|].
    intros ->. contradiction.
  - rewrite (Hother k Hne). f_equal.
    destruct Hin as [E|Hin]; [congruence|]. now apply IH.
Qed.

Lemma mapSet_fresh (F : string -> list A) (key : string) (v : list A)
    (keys : list string) :
  ~ In key keys ->
  Js.mapSet key v (List.map (fun k => (k, F k)) keys) =
  List.map (fun k => (k, F k)) keys ++ [(key, v)].
Proof.
  intros Hin. induction keys as [|k keys IH]; [reflexivity|].
  cbn [List.map Js.mapSet app].
  destruct (String.eqb_spec k key) as [->|Hne].
  - exfalso. apply Hin. now left.
  - rewrite IH; [reflexivity|]. intros H. apply Hin. now right.
Qed.

(** One visit of the grouping loop, on a map that already is the
    grouping of the records seen. *)
Lemma grouped_visit (push : string -> A -> Js.Map (list A) -> Js.Map (list A))
    (seen : list A) (x : A) :
  (forall key x groups,
     push key x groups =
     match Js.mapGet key groups with
     | Some members => Js.mapSet key (members ++ [x]) groups
     | None => Js.mapSet key [x] groups
     end) ->
  match keyOf x with
  | Some key => push key x (Notions.grouped keyOf seen)
  | None => Notions.grouped keyOf seen
  end = Notions.grouped keyOf (seen ++ [x]).
Proof.
  intros Hpush.
  assert (Hkeys : Notions.keysOf keyOf (seen ++ [x]) =
                  Notions.keysOf keyOf seen
                  ++ match keyOf x with Some key => [key] | None => [] end).
  { rewrite keysOf_app. unfold Notions.keysOf at 2. simpl. now rewrite app_nil_r. }
  assert (Hmem : forall k,
             Notions.membersOf keyOf k (seen ++ [x]) =
             Notions.membersOf keyOf k seen
             ++ if Notions.filedUnder keyOf k x then [x] else []).
  { intros k. rewrite membersOf_app. unfold Notions.membersOf at 2. simpl.
    now destruct (Notions.filedUnder keyOf k x). }
  assert (Hg : Notions.grouped keyOf (seen ++ [x]) =
               List.map (fun key => (key, Notions.membersOf keyOf key (seen ++ [x])))
                 (Js.unique
                    (Notions.keysOf keyOf seen
                     ++ match keyOf x with Some key => [key] | None => [] end))).
  { unfold Notions.grouped, Notions.firstSeen. now rewrite Hkeys. }
  rewrite Hg. clear Hg Hkeys.
  destruct (keyOf x) as [key|] eqn:Ek.
  - rewrite unique_snoc, Hpush, mapGet_grouped.
    fold (Notions.firstSeen keyOf seen).
    destruct (in_dec string_dec key (Notions.firstSeen keyOf seen)) as [Hin|Hin].
    + rewrite set_add_old by exact Hin. unfold Notions.grouped.
      apply mapSet_keyed; [apply unique_NoDup | exact Hin | |].
      * rewrite Hmem. unfold Notions.filedUnder. now rewrite Ek, String.eqb_refl.
      * intros k Hne. rewrite Hmem. unfold Notions.filedUnder. rewrite Ek.
        destruct (String.eqb_spec key k); [congruence|]. apply app_nil_r.
    + rewrite set_add_new by exact Hin. unfold Notions.grouped.
      rewrite mapSet_fresh by exact Hin. rewrite map_app. cbn [List.map]. f_equal.
      * apply map_ext_in. intros k Hk. rewrite Hmem. unfold Notions.filedUnder.
        rewrite Ek. destruct (String.eqb_spec key k) as [->|_]; [contradiction|].
        now rewrite app_nil_r.
      * rewrite Hmem, membersOf_nil.
        -- unfold Notions.filedUnder. now rewrite Ek, String.eqb_refl.
        -- intros H. apply Hin. unfold Notions.firstSeen. now apply unique_In.
  - rewrite app_nil_r. unfold Notions.grouped, Notions.firstSeen.
    apply map_ext. intros k. rewrite Hmem. unfold Notions.filedUnder.
    now rewrite Ek, app_nil_r.
Qed.

End Grouped.

Lemma groupBy_grouped (keyOf : AggregatedLog.t -> option string)
    (logs : list AggregatedLog.t) :
  Spec.groupBy keyOf logs = Notions.grouped keyOf logs.
Proof.
  unfold Spec.groupBy.
  assert (H : forall seen,
             fold_left (Spec.visitGroup keyOf) logs (Notions.grouped keyOf seen)
             = Notions.grouped keyOf (seen ++ logs)).
  { induction logs as [|log logs IH]; intros seen; simpl.
    - now rewrite app_nil_r.
    - unfold Spec.visitGroup at 2.
      rewrite (grouped_visit keyOf LogFilter.pushTo seen log) by reflexivity.
      rewrite IH, <- app_assoc. reflexivity. }
  exact (H []).
Qed.

(** *** The drafts, group by group *)

Lemma firstLabel_truthy (key : string) (labelPairs : list string) (value : string) :
  LogFilter.firstLabel key labelPairs = Some value -> value <> "".
Proof.
  induction labelPairs as [|labelPair rest IH]; [discriminate|].
  cbn [LogFilter.firstLabel].
  destruct (nth_error _ 1) as [labelValue|]; [|exact IH].
  destruct (_ && Js.truthy labelValue) eqn:E; [|exact IH].
  intros [= <-]. apply andb_true_iff in E as [_ E].
  unfold Js.truthy in E. intros ->. discriminate.
Qed.

Lemma extractLabelValue_truthy (labels key value : string) :
  LogFilter.extractLabelValue labels key = Some value -> value <> "".
Proof.
  unfold LogFilter.extractLabelValue.
  destruct (negb (Js.truthy labels)); [discriminate|]. apply firstLabel_truthy.
Qed.

Lemma generate_grouped (namespace selectorKey : string)
    (aggregatedLogs : list AggregatedLog.t) :
  LogFilter.generateCalicoNetworkPolicies namespace selectorKey aggregatedLogs =
  List.map
    (fun value =>
       LogFilter.policyFor namespace selectorKey value
         (Notions.membersOf (Spec.sourceKey namespace selectorKey) value
            aggregatedLogs))
    (Notions.firstSeen (Spec.sourceKey namespace selectorKey) aggregatedLogs).
Proof.
  unfold LogFilter.generateCalicoNetworkPolicies.
  rewrite sourceGroupsOf_groupBy, groupBy_grouped. unfold Notions.grouped.
  now rewrite map_map.
Qed.

Lemma egress_grouped (namespace selectorKey value : string)
    (flows : list AggregatedLog.t) :
  NetworkPolicy.spec_egress (LogFilter.policyFor namespace selectorKey value flows) =
  List.map
    (fun destKey =>
       LogFilter.egressRule namespace selectorKey destKey
         (Notions.membersOf Notions.byDestination destKey flows))
    (Notions.firstSeen Notions.byDestination flows).
Proof.
  unfold LogFilter.policyFor. cbn [NetworkPolicy.spec_egress].
  rewrite destinationGroupsOf_groupBy.
  change (fun flow => Some (LogFilter.destKey flow)) with Notions.byDestination.
  rewrite groupBy_grouped. unfold Notions.grouped. now rewrite map_map.
Qed.

Lemma keysOf_length {A : Type} (keyOf : A -> option string) (xs : list A) :
  (List.length (Notions.keysOf keyOf xs) <= List.length xs)%nat.
Proof.
  unfold Notions.keysOf. induction xs as [|x xs IH]; simpl; [lia|].
  rewrite length_app. destruct (keyOf x); simpl; lia.
Qed.

Lemma firstSeen_length {A : Type} (keyOf : A -> option string) (xs : list A) :
  (List.length (Notions.firstSeen keyOf xs) <= List.length xs)%nat.
Proof.
  unfold Notions.firstSeen.
  pose proof (proj1 (unique_length (Notions.keysOf keyOf xs))).
  pose proof (keysOf_length keyOf xs). lia.
Qed.

Lemma NoDup_tagged {A B : Type} (tag : A) (xs : list B) :
  NoDup xs -> NoDup (List.map (fun x => (tag, x)) xs).
Proof.
  induction 1 as [|x xs Hnew _ IH]; [constructor|].
  cbn [List.map]. constructor; [|exact IH].
  intros H. apply in_map_iff in H as (v & [= ->] & Hv). contradiction.
Qed.

(** X11.  [generateCalicoNetworkPolicies] drafts one policy for each
    distinct value of the selector label among the records sourced in
    the namespace, in the order in which the values first appear: no
    two drafts select the same value, a value is selected exactly when
    a record sourced in the namespace carries it, and no draft has an
    empty value.  Every draft lies in the requested namespace, is of
    type Egress only, and has at least one rule; every rule allows. *)
Theorem one_draft_per_selector_value (namespace selectorKey : string)
    (aggregatedLogs : list AggregatedLog.t) :
  let policies :=
    LogFilter.generateCalicoNetworkPolicies namespace selectorKey aggregatedLogs in
  List.map NetworkPolicy.spec_selector policies =
    List.map (fun value => (selectorKey, value))
      (Notions.firstSeen (Spec.sourceKey namespace selectorKey) aggregatedLogs)
  /\ NoDup (List.map NetworkPolicy.spec_selector policies)
  /\ (forall value,
        In (selectorKey, value) (List.map NetworkPolicy.spec_selector policies) <->
        exists log,
          In log aggregatedLogs
          /\ AggregatedLog.source_namespace log = namespace
          /\ LogFilter.extractLabelValue (AggregatedLog.source_labels log)
               selectorKey = Some value)
  /\ (forall policy,
        In policy policies ->
        NetworkPolicy.metadata_namespace policy = namespace
        /\ NetworkPolicy.spec_types policy = ["Egress"]
        /\ snd (NetworkPolicy.spec_selector policy) <> ""
        /\ NetworkPolicy.spec_egress policy <> []
        /\ forall rule, In rule (NetworkPolicy.spec_egress policy) ->
                        EgressRule.action rule = "Allow")
  /\ (List.length policies <= List.length aggregatedLogs)%nat.
Proof.
  intros policies. subst policies. rewrite generate_grouped.
  set (sourced := Spec.sourceKey namespace selectorKey).
  assert (Hsel : List.map NetworkPolicy.spec_selector
                   (List.map
                      (fun value =>
                         LogFilter.policyFor namespace selectorKey value
                           (Notions.membersOf sourced value aggregatedLogs))
                      (Notions.firstSeen sourced aggregatedLogs))
                 = List.map (fun value => (selectorKey, value))
                     (Notions.firstSeen sourced aggregatedLogs)).
  { rewrite map_map. reflexivity. }
  assert (Hkey : forall value,
             In value (Notions.firstSeen sourced aggregatedLogs) <->
             exists log,
               In log aggregatedLogs
               /\ AggregatedLog.source_namespace log = namespace
               /\ LogFilter.extractLabelValue (AggregatedLog.source_labels log)
                    selectorKey = Some value).
  { intros value. unfold Notions.firstSeen. rewrite unique_In, keysOf_In.
    unfold sourced, Spec.sourceKey. split; intros (log & Hlog & H).
    - exists log. split; [exact Hlog|].
      destruct (String.eqb_spec (AggregatedLog.source_namespace log) namespace);
        [auto|discriminate].
    - exists log. split; [exact Hlog|]. destruct H as [-> H].
      now rewrite String.eqb_refl. }
  rewrite Hsel. split; [reflexivity|]. split; [|split; [|split]].
  - apply NoDup_tagged, unique_NoDup.
  - intros value. rewrite <- Hkey, in_map_iff. split.
    + intros (v & [= ->] & Hv). exact Hv.
    + intros Hv. eauto.
  - intros policy Hpolicy. apply in_map_iff in Hpolicy as (value & <- & Hvalue).
    split; [reflexivity|]. split; [reflexivity|]. split; [|split].
    + cbn [LogFilter.policyFor NetworkPolicy.spec_selector snd].
      apply Hkey in Hvalue as (log & _ & _ & Hlabel).
      now apply extractLabelValue_truthy in Hlabel.
    + rewrite egress_grouped. intros E. apply map_eq_nil in E.
      pose proof (firstSeen_members sourced aggregatedLogs value Hvalue) as Hne.
      destruct (Notions.membersOf sourced value aggregatedLogs) as [|flow flows];
        [congruence|].
      assert (Hin : In (LogFilter.destKey flow)
                      (Notions.firstSeen Notions.byDestination (flow :: flows))).
      { unfold Notions.firstSeen. apply unique_In, keysOf_In.
        exists flow. split; [now left|reflexivity]. }
      rewrite E in Hin. destruct Hin.
    + intros rule Hrule. rewrite egress_grouped in Hrule.
      apply in_map_iff in Hrule as (destKey & <- & _). reflexivity.
  - rewrite length_map. apply firstSeen_length.
Qed.

(** X12.  The rules of a draft are one for each distinct destination
    key (namespace, protocol and port) among the flows of its selector
    value, in the order in which the keys first appear, and each rule
    is built from the flows of that key in the order of the input; so
    a flow of the group always has its rule, and there are no more
    rules than flows. *)
Theorem one_rule_per_destination (namespace selectorKey : string)
    (aggregatedLogs : list AggregatedLog.t) (policy : NetworkPolicy.t) :
  In policy
    (LogFilter.generateCalicoNetworkPolicies namespace selectorKey aggregatedLogs) ->
  let flows :=
    Notions.membersOf (Spec.sourceKey namespace selectorKey)
      (snd (NetworkPolicy.spec_selector policy)) aggregatedLogs in
  NetworkPolicy.spec_egress policy =
    List.map
      (fun destKey =>
         LogFilter.egressRule namespace selectorKey destKey
           (Notions.membersOf Notions.byDestination destKey flows))
      (Notions.firstSeen Notions.byDestination flows)
  /\ NoDup (Notions.firstSeen Notions.byDestination flows)
  /\ (forall destKey,
        In destKey (Notions.firstSeen Notions.byDestination flows) <->
        exists flow, In flow flows /\ LogFilter.destKey flow = destKey)
  /\ (forall flow,
        In flow flows ->
        In (LogFilter.egressRule namespace selectorKey (LogFilter.destKey flow)
              (Notions.membersOf Notions.byDestination (LogFilter.destKey flow) flows))
           (NetworkPolicy.spec_egress policy))
  /\ (List.length (NetworkPolicy.spec_egress policy) <= List.length flows)%nat.
Proof.
  intros Hpolicy flows. rewrite generate_grouped in Hpolicy.
  apply in_map_iff in Hpolicy as (value & Hp & Hvalue).
  assert (Hflows : policy = LogFilter.policyFor namespace selectorKey value flows)
    by (subst policy; reflexivity).
  clearbody flows. clear Hp. subst policy.
  rewrite egress_grouped.
  assert (Hkeys : forall destKey,
             In destKey (Notions.firstSeen Notions.byDestination flows) <->
             exists flow, In flow flows /\ LogFilter.destKey flow = destKey).
  { intros destKey. unfold Notions.firstSeen. rewrite unique_In, keysOf_In.
    unfold Notions.byDestination.
    split; intros (flow & H1 & H2); exists flow; split; congruence. }
  split; [reflexivity|]. split; [apply unique_NoDup|]. split; [exact Hkeys|]. split.
  - intros flow Hflow. apply in_map_iff. exists (LogFilter.destKey flow).
    split; [reflexivity|]. apply Hkeys. eauto.
  - rewrite length_map. apply firstSeen_length.
Qed.

Lemma one_rule_per_destination_witness :
  let policy :=
    LogFilter.policyFor "shop" "app" "frontend"
      [Sample.portless (Some 0); Sample.portless (Some 8080)] in
  let flows :=
    Notions.membersOf (Spec.sourceKey "shop" "app")
      (snd (NetworkPolicy.spec_selector policy))
      [Sample.portless (Some 0); Sample.portless (Some 8080)] in
  NetworkPolicy.spec_egress policy =
    List.map
      (fun destKey =>
         LogFilter.egressRule "shop" "app" destKey
           (Notions.membersOf Notions.byDestination destKey flows))
      (Notions.firstSeen Notions.byDestination flows)
  /\ NoDup (Notions.firstSeen Notions.byDestination flows)
  /\ (forall destKey,
        In destKey (Notions.firstSeen Notions.byDestination flows) <->
        exists flow, In flow flows /\ LogFilter.destKey flow = destKey)
  /\ (forall flow,
        In flow flows ->
        In (LogFilter.egressRule "shop" "app" (LogFilter.destKey flow)
              (Notions.membersOf Notions.byDestination (LogFilter.destKey flow) flows))
           (NetworkPolicy.spec_egress policy))
  /\ (List.length (NetworkPolicy.spec_egress policy) <= List.length flows)%nat.
Proof.
  apply (one_rule_per_destination "shop" "app"
           [Sample.portless (Some 0); Sample.portless (Some 8080)]).
  vm_compute. auto.
Defined.

(** ** The rows from which the drafts are made *)

Lemma total_filter_le {A : Type} (weight : A -> Z) (keep : A -> bool)
    (xs : list A) :
  (forall x, 0 <= weight x) ->
  Notions.total weight (List.filter keep xs) <= Notions.total weight xs.
Proof.
  intros Hpos. induction xs as [|x xs IH]; simpl; [lia|].
  specialize (Hpos x). destruct (keep x); simpl; lia.
Qed.

Lemma exactTraffic_total (logs : list FlowLog.t) :
  Spec.exactTraffic logs <->
  Notions.total (fun log => Z.abs (FlowLog.packets_in log)
                            + Z.abs (FlowLog.packets_out log)) logs
  <= Js.maxExact
  /\ Notions.total (fun log => Z.abs (FlowLog.bytes_in log)
                               + Z.abs (FlowLog.bytes_out log)) logs
     <= Js.maxExact.
Proof. reflexivity. Qed.

Lemma addLogs_closed (members : list FlowLog.t) :
  forall acc : AggregatedLog.t,
    Z.abs (AggregatedLog.total_packets acc)
    + Notions.total (fun log => Z.abs (FlowLog.packets_in log)
                                + Z.abs (FlowLog.packets_out log)) members
    <= Js.maxExact ->
    Z.abs (AggregatedLog.total_bytes acc)
    + Notions.total (fun log => Z.abs (FlowLog.bytes_in log)
                                + Z.abs (FlowLog.bytes_out log)) members
    <= Js.maxExact ->
    let row := fold_left LogFilter.addLog members acc in
    AggregatedLog.source_name row = AggregatedLog.source_name acc
    /\ AggregatedLog.source_namespace row = AggregatedLog.source_namespace acc
    /\ AggregatedLog.source_labels row = AggregatedLog.source_labels acc
    /\ AggregatedLog.dest_name row = AggregatedLog.dest_name acc
    /\ AggregatedLog.dest_namespace row = AggregatedLog.dest_namespace acc
    /\ AggregatedLog.dest_labels row = AggregatedLog.dest_labels acc
    /\ AggregatedLog.protocol row = AggregatedLog.protocol acc
    /\ AggregatedLog.dest_port row = AggregatedLog.dest_port acc
    /\ AggregatedLog.flow_count row =
         AggregatedLog.flow_count acc + Z.of_nat (List.length members)
    /\ AggregatedLog.total_packets row =
         AggregatedLog.total_packets acc
         + Notions.total (fun log => FlowLog.packets_in log + FlowLog.packets_out log)
             members
    /\ AggregatedLog.total_bytes row =
         AggregatedLog.total_bytes acc
         + Notions.total (fun log => FlowLog.bytes_in log + FlowLog.bytes_out log)
             members
    /\ AggregatedLog.actions row =
         fold_left (fun s x => set_add string_dec x s)
           (List.map FlowLog.action members) (AggregatedLog.actions acc).
Proof.
  induction members as [|log members IH]; intros acc Hp Hb; cbn zeta.
  - cbn [fold_left List.length List.map Notions.total fold_right Z.of_nat].
    repeat split; lia.
  - cbn [fold_left].
    change (Notions.total (fun log => Z.abs (FlowLog.packets_in log)
                                      + Z.abs (FlowLog.packets_out log))
              (log :: members))
      with (Z.abs (FlowLog.packets_in log) + Z.abs (FlowLog.packets_out log)
            + Notions.total (fun log => Z.abs (FlowLog.packets_in log)
                                        + Z.abs (FlowLog.packets_out log)) members)
      in Hp.
    change (Notions.total (fun log => Z.abs (FlowLog.bytes_in log)
                                      + Z.abs (FlowLog.bytes_out log))
              (log :: members))
      with (Z.abs (FlowLog.bytes_in log) + Z.abs (FlowLog.bytes_out log)
            + Notions.total (fun log => Z.abs (FlowLog.bytes_in log)
                                        + Z.abs (FlowLog.bytes_out log)) members)
      in Hb.
    assert (Hrp : 0 <= Notions.total
                         (fun log => Z.abs (FlowLog.packets_in log)
                                     + Z.abs (FlowLog.packets_out log)) members)
      by (apply total_nonneg; intros; lia).
    assert (Hrb : 0 <= Notions.total
                         (fun log => Z.abs (FlowLog.bytes_in log)
                                     + Z.abs (FlowLog.bytes_out log)) members)
      by (apply total_nonneg; intros; lia).
    assert (Ep : AggregatedLog.total_packets (LogFilter.addLog acc log)
                 = AggregatedLog.total_packets acc
                   + (FlowLog.packets_in log + FlowLog.packets_out log)).
    { cbn [LogFilter.addLog AggregatedLog.total_packets].
      rewrite (add_exact (FlowLog.packets_in log)) by lia.
      rewrite add_exact by lia. reflexivity. }
    assert (Eb : AggregatedLog.total_bytes (LogFilter.addLog acc log)
                 = AggregatedLog.total_bytes acc
                   + (FlowLog.bytes_in log + FlowLog.bytes_out log)).
    { cbn [LogFilter.addLog AggregatedLog.total_bytes].
      rewrite (add_exact (FlowLog.bytes_in log)) by lia.
      rewrite add_exact by lia. reflexivity. }
    specialize (IH (LogFilter.addLog acc log)). cbn zeta in IH.
    destruct IH as (H1 & H2 & H3 & H4 & H5 & H6 & H7 & H8 & H9 & H10 & H11 & H12);
      [rewrite Ep; lia|rewrite Eb; lia|].
    rewrite H1, H2, H3, H4, H5, H6, H7, H8, H9, H10, H11, H12, Ep, Eb.
    cbn [LogFilter.addLog AggregatedLog.source_name AggregatedLog.source_namespace
         AggregatedLog.source_labels AggregatedLog.dest_name
         AggregatedLog.dest_namespace AggregatedLog.dest_labels
         AggregatedLog.protocol AggregatedLog.dest_port AggregatedLog.flow_count
         AggregatedLog.actions List.map fold_left].
    change (List.length (log :: members)) with (S (List.length members)).
    rewrite Nat2Z.inj_succ. unfold Notions.total. cbn [fold_right].
    repeat split; try reflexivity; lia.
Qed.

Lemma addLogs_standsFor (first : FlowLog.t) (rest : list FlowLog.t) :
  Spec.exactTraffic (first :: rest) ->
  Notions.standsFor (first :: rest)
    (fold_left LogFilter.addLog (first :: rest) (LogFilter.emptyAggregate first)).
Proof.
  intros [Hp Hb]%exactTraffic_total.
  destruct (addLogs_closed (first :: rest) (LogFilter.emptyAggregate first))
    as (H1 & H2 & H3 & H4 & H5 & H6 & H7 & H8 & H9 & H10 & H11 & H12);
    [exact Hp|exact Hb|].
  unfold Notions.standsFor. rewrite H1, H2, H3, H4, H5, H6, H7, H8, H9, H10, H11, H12.
  split; [exists first, rest; repeat split|].
  cbn [LogFilter.emptyAggregate AggregatedLog.flow_count AggregatedLog.total_packets
       AggregatedLog.total_bytes AggregatedLog.actions].
  repeat split.
Qed.

(** The step of the loop of [aggregateLogsForPolicyGeneration]. *)
Lemma mapGet_of_In {V : Type} (k : string) (v : V) (m : Js.Map V) :
  NoDup (Js.mapKeys m) -> In (k, v) m -> Js.mapGet k m = Some v.
Proof.
  unfold Js.mapKeys. induction m as [|[k0 v0] m IH]; [intros _ []|].
  cbn [List.map fst Js.mapGet]. intros Hnd Hin.
  inversion Hnd as [|? ? Hnew Hnd']; subst.
  destruct Hin as [[= -> ->]|Hin]; [now rewrite String.eqb_refl|].
  destruct (String.eqb_spec k0 k) as [->|Hne]; [|now apply IH].
  exfalso. apply Hnew. apply in_map_iff. exists (k, v). auto.
Qed.

Lemma aggregation_rows (logs : list FlowLog.t) :
  let aggregationMap :=
    fold_left
      (fun aggregationMap log =>
         let key := LogFilter.aggregationKey log in
         let aggregated :=
           match Js.mapGet key aggregationMap with
           | Some existing => existing
           | None => LogFilter.emptyAggregate log
           end in
         Js.mapSet key (LogFilter.addLog aggregated log) aggregationMap)
      logs [] in
  Js.mapKeys aggregationMap = Notions.firstSeen Notions.byAggregationKey logs
  /\ forall key row,
       Js.mapGet key aggregationMap = Some row ->
       exists first rest,
         Notions.membersOf Notions.byAggregationKey key logs = first :: rest
         /\ row = fold_left LogFilter.addLog (first :: rest)
                    (LogFilter.emptyAggregate first).
Proof.
  cbn zeta.
  set (step := fun (aggregationMap : Js.Map AggregatedLog.t) (log : FlowLog.t) =>
                 Js.mapSet (LogFilter.aggregationKey log)
                   (LogFilter.addLog
                      match Js.mapGet (LogFilter.aggregationKey log) aggregationMap with
                      | Some existing => existing
                      | None => LogFilter.emptyAggregate log
                      end log) aggregationMap).
  assert (H : forall rest seen m,
             (Js.mapKeys m = Notions.firstSeen Notions.byAggregationKey seen
              /\ forall key row,
                   Js.mapGet key m = Some row ->
                   exists first others,
                     Notions.membersOf Notions.byAggregationKey key seen
                       = first :: others
                     /\ row = fold_left LogFilter.addLog (first :: others)
                                (LogFilter.emptyAggregate first)) ->
             Js.mapKeys (fold_left step rest m)
               = Notions.firstSeen Notions.byAggregationKey (seen ++ rest)
             /\ forall key row,
                  Js.mapGet key (fold_left step rest m) = Some row ->
                  exists first others,
                    Notions.membersOf Notions.byAggregationKey key (seen ++ rest)
                      = first :: others
                    /\ row = fold_left LogFilter.addLog (first :: others)
                               (LogFilter.emptyAggregate first)).
  { induction rest as [|log rest IH]; intros seen m Inv.
    - rewrite app_nil_r. exact Inv.
    - cbn [fold_left].
      replace (seen ++ log :: rest) with ((seen ++ [log]) ++ rest)
        by (now rewrite <- app_assoc).
      apply IH. clear IH. destruct Inv as [Hkeys Hrows].
      assert (Hmem : forall k,
                 Notions.membersOf Notions.byAggregationKey k (seen ++ [log]) =
                 Notions.membersOf Notions.byAggregationKey k seen
                 ++ if (LogFilter.aggregationKey log =? k)%string then [log] else []).
      { intros k. rewrite membersOf_app. unfold Notions.membersOf at 2. simpl.
        unfold Notions.filedUnder, Notions.byAggregationKey.
        now destruct (LogFilter.aggregationKey log =? k)%string. }
      assert (Hfirst : Notions.firstSeen Notions.byAggregationKey (seen ++ [log]) =
                       set_add string_dec (LogFilter.aggregationKey log)
                         (Notions.firstSeen Notions.byAggregationKey seen)).
      { unfold Notions.firstSeen. rewrite keysOf_app. unfold Notions.keysOf at 2.
        cbn [flat_map Notions.byAggregationKey]. rewrite app_nil_r.
        apply unique_snoc. }
      unfold step.
      destruct (Js.mapGet (LogFilter.aggregationKey log) m) as [existing|] eqn:E.
      + split.
        * rewrite (mapKeys_mapSet_found _ _ existing) by exact E.
          rewrite Hfirst, set_add_old; [exact Hkeys|]. rewrite <- Hkeys.
          apply mapGet_In in E. apply in_map_iff.
          exists (LogFilter.aggregationKey log, existing). auto.
        * intros key row. rewrite mapGet_mapSet, Hmem.
          destruct (String.eqb_spec (LogFilter.aggregationKey log) key) as [<-|Hne].
          -- intros [= <-]. destruct (Hrows _ _ E) as (first & others & -> & ->).
             exists first, (others ++ [log]). split; [reflexivity|].
             change (first :: others ++ [log]) with ((first :: others) ++ [log]).
             now rewrite fold_left_app.
          -- rewrite app_nil_r. apply Hrows.
      + assert (Hnew : ~ In (LogFilter.aggregationKey log)
                         (Notions.firstSeen Notions.byAggregationKey seen)).
        { rewrite <- Hkeys. now apply mapGet_None. }
        split.
        * rewrite mapKeys_mapSet_new by exact E.
          rewrite Hfirst, set_add_new by exact Hnew. now rewrite Hkeys.
        * intros key row. rewrite mapGet_mapSet, Hmem.
          destruct (String.eqb_spec (LogFilter.aggregationKey log) key) as [<-|Hne].
          -- intros [= <-]. rewrite membersOf_nil.
             ++ exists log, []. split; reflexivity.
             ++ intros H. apply Hnew. unfold Notions.firstSeen. now apply unique_In.
          -- rewrite app_nil_r. apply Hrows. }
  apply (H logs [] []). split; [reflexivity|]. intros key row. discriminate.
Qed.

Lemma entries_Forall2 {V : Type} (P : string -> V -> Prop) (m : Js.Map V) :
  (forall k v, In (k, v) m -> P k v) ->
  Forall2 P (Js.mapKeys m) (Js.mapValues m).
Proof.
  unfold Js.mapKeys, Js.mapValues.
  induction m as [|[k v] m IH]; intros H; cbn [List.map fst snd]; constructor.
  - apply H. now left.
  - apply IH. intros k' v' Hin. apply H. now right.
Qed.

Lemma aggregation_additive (measure weight : AggregatedLog.t -> Z)
    (share load : FlowLog.t -> Z) :
  (forall row, 0 <= weight row) ->
  (forall log, 0 <= load log) ->
  (forall log, measure (LogFilter.emptyAggregate log) = 0
               /\ weight (LogFilter.emptyAggregate log) = 0) ->
  (forall row log,
      weight row + load log <= Js.maxExact ->
      measure (LogFilter.addLog row log) = measure row + share log
      /\ weight (LogFilter.addLog row log) <= weight row + load log) ->
  forall logs namespace,
    Notions.total load (List.filter (LogFilter.inNamespace namespace) logs)
    <= Js.maxExact ->
    Notions.total measure (LogFilter.aggregateLogsForPolicyGeneration logs namespace)
    = Notions.total share (List.filter (LogFilter.inNamespace namespace) logs).
Proof.
  intros Hweight Hload Hempty Hadd logs namespace.
  unfold LogFilter.aggregateLogsForPolicyGeneration.
  generalize (List.filter (LogFilter.inNamespace namespace) logs) as kept.
  intros kept Hbound.
  set (turn := fun (aggregationMap : Js.Map AggregatedLog.t) (log : FlowLog.t) =>
                 let key := LogFilter.aggregationKey log in
                 let aggregated :=
                   match Js.mapGet key aggregationMap with
                   | Some existing => existing
                   | None => LogFilter.emptyAggregate log
                   end in
                 Js.mapSet key (LogFilter.addLog aggregated log) aggregationMap).
  assert (H : forall ls (m : Js.Map AggregatedLog.t),
             Notions.total weight (Js.mapValues m) + Notions.total load ls
             <= Js.maxExact ->
             Notions.total measure (Js.mapValues (fold_left turn ls m))
             = Notions.total measure (Js.mapValues m) + Notions.total share ls
             /\ Notions.total weight (Js.mapValues (fold_left turn ls m))
                <= Notions.total weight (Js.mapValues m) + Notions.total load ls).
  { induction ls as [|l ls IH]; intros m Hm.
    - simpl. lia.
    - cbn [fold_left].
      change (Notions.total load (l :: ls))
        with (load l + Notions.total load ls) in *.
      change (Notions.total share (l :: ls))
        with (share l + Notions.total share ls).
      pose proof (total_nonneg load ls Hload) as Hrest.
      assert (Hturn :
                Notions.total measure (Js.mapValues (turn m l)) =
                Notions.total measure (Js.mapValues m) + share l
                /\ Notions.total weight (Js.mapValues (turn m l))
                   <= Notions.total weight (Js.mapValues m) + load l).
      { unfold turn. cbn zeta. rewrite !total_values_mapSet.
        pose proof (total_nonneg weight (Js.mapValues m) Hweight) as Hm0.
        destruct (Js.mapGet (LogFilter.aggregationKey l) m) as [e|] eqn:E.
        - pose proof (mapGet_weight weight _ _ _ Hweight E) as He.
          destruct (Hadd e l) as [-> Hw]; lia.
        - destruct (Hempty l) as [Em Ew].
          destruct (Hadd (LogFilter.emptyAggregate l) l) as [-> Hw]; lia. }
      destruct Hturn as [Em Ew].
      destruct (IH (turn m l)) as [Em' Ew']; lia. }
  destruct (H kept []) as [Em Ew]; simpl in *; lia.
Qed.

(** X13.  [aggregateLogsForPolicyGeneration] returns one row for each
    distinct key among the records that touch the namespace, in the
    order in which the keys first appear.  Where the traffic of those
    records stays within the exact range of doubles (the absolute
    values of packets in and out add up to 2^53 at most, and those of
    bytes likewise), a row stands for the records of its key: it has
    the endpoints, protocol and port of the first of them, counts them,
    adds up their packets and bytes, and lists their distinct actions;
    and over all rows the counts add up to the number of records kept,
    and packets and bytes to theirs. *)
Theorem rows_stand_for_their_records (logs : list FlowLog.t)
    (namespace : option string) :
  Spec.exactTraffic (List.filter (LogFilter.inNamespace namespace) logs) ->
  let kept := List.filter (LogFilter.inNamespace namespace) logs in
  let rows := LogFilter.aggregateLogsForPolicyGeneration logs namespace in
  Forall2
    (fun key row =>
       Notions.standsFor (Notions.membersOf Notions.byAggregationKey key kept) row)
    (Notions.firstSeen Notions.byAggregationKey kept) rows
  /\ NoDup (Notions.firstSeen Notions.byAggregationKey kept)
  /\ Notions.total AggregatedLog.flow_count rows = Z.of_nat (List.length kept)
  /\ Notions.total AggregatedLog.total_packets rows =
       Notions.total (fun log => FlowLog.packets_in log + FlowLog.packets_out log) kept
  /\ Notions.total AggregatedLog.total_bytes rows =
       Notions.total (fun log => FlowLog.bytes_in log + FlowLog.bytes_out log) kept
  /\ (List.length rows <= List.length kept)%nat.
Proof.
  intros Hexact kept rows.
  pose proof Hexact as [Hp Hb]%exactTraffic_total. fold kept in Hp, Hb.
  assert (Hnd : NoDup (Notions.firstSeen Notions.byAggregationKey kept))
    by apply unique_NoDup.
  assert (Hrows : Forall2
                    (fun key row =>
                       Notions.standsFor
                         (Notions.membersOf Notions.byAggregationKey key kept) row)
                    (Notions.firstSeen Notions.byAggregationKey kept) rows).
  { destruct (aggregation_rows kept) as [Hkeys Hget]. cbn zeta in Hkeys, Hget.
    rewrite <- Hkeys. unfold rows, LogFilter.aggregateLogsForPolicyGeneration.
    fold kept. apply entries_Forall2. intros key row Hin.
    apply mapGet_of_In in Hin; [|rewrite Hkeys; exact Hnd].
    destruct (Hget _ _ Hin) as (first & rest & Hmem & ->).
    rewrite Hmem.
    apply addLogs_standsFor. rewrite <- Hmem. apply exactTraffic_total.
    unfold Notions.membersOf. split.
    - etransitivity; [apply total_filter_le; intros; lia|exact Hp].
    - etransitivity; [apply total_filter_le; intros; lia|exact Hb]. }
  split; [exact Hrows|]. split; [exact Hnd|]. split; [|split; [|split]].
  - unfold rows, kept.
    rewrite (aggregation_additive AggregatedLog.flow_count (fun _ => 0)
               (fun _ => 1) (fun _ => 0)).
    + generalize (List.filter (LogFilter.inNamespace namespace) logs) as ls.
      induction ls as [|l ls IH]; [reflexivity|].
      change (List.length (l :: ls)) with (S (List.length ls)).
      rewrite Nat2Z.inj_succ, <- IH. unfold Notions.total. cbn [fold_right]. lia.
    + intros; lia.
    + intros; lia.
    + intros log. split; reflexivity.
    + intros row log _. split; [reflexivity|lia].
    + rewrite total_zero. vm_compute. discriminate.
  - apply (aggregation_additive AggregatedLog.total_packets
             (fun row => Z.abs (AggregatedLog.total_packets row))
             (fun log => FlowLog.packets_in log + FlowLog.packets_out log)
             (fun log => Z.abs (FlowLog.packets_in log)
                         + Z.abs (FlowLog.packets_out log))).
    + intros; lia.
    + intros; lia.
    + intros log. split; reflexivity.
    + intros row log Hrow. cbn [LogFilter.addLog AggregatedLog.total_packets].
      rewrite (add_exact (FlowLog.packets_in log)) by lia.
      rewrite add_exact by lia. lia.
    + exact Hp.
  - apply (aggregation_additive AggregatedLog.total_bytes
             (fun row => Z.abs (AggregatedLog.total_bytes row))
             (fun log => FlowLog.bytes_in log + FlowLog.bytes_out log)
             (fun log => Z.abs (FlowLog.bytes_in log)
                         + Z.abs (FlowLog.bytes_out log))).
    + intros; lia.
    + intros; lia.
    + intros log. split; reflexivity.
    + intros row log Hrow. cbn [LogFilter.addLog AggregatedLog.total_bytes].
      rewrite (add_exact (FlowLog.bytes_in log)) by lia.
      rewrite add_exact by lia. lia.
    + exact Hb.
  - apply Forall2_length in Hrows. rewrite <- Hrows. apply firstSeen_length.
Qed.

Lemma rows_stand_for_their_records_witness :
  let kept :=
    List.filter (LogFilter.inNamespace (Some "shop"))
      [Sample.allowedBySource; Sample.denied; Sample.allowedByDest] in
  let rows :=
    LogFilter.aggregateLogsForPolicyGeneration
      [Sample.allowedBySource; Sample.denied; Sample.allowedByDest] (Some "shop") in
  Forall2
    (fun key row =>
       Notions.standsFor (Notions.membersOf Notions.byAggregationKey key kept) row)
    (Notions.firstSeen Notions.byAggregationKey kept) rows
  /\ NoDup (Notions.firstSeen Notions.byAggregationKey kept)
  /\ Notions.total AggregatedLog.flow_count rows = Z.of_nat (List.length kept)
  /\ Notions.total AggregatedLog.total_packets rows =
       Notions.total (fun log => FlowLog.packets_in log + FlowLog.packets_out log) kept
  /\ Notions.total AggregatedLog.total_bytes rows =
       Notions.total (fun log => FlowLog.bytes_in log + FlowLog.bytes_out log) kept
  /\ (List.length rows <= List.length kept)%nat.
Proof.
  apply (rows_stand_for_their_records
           [Sample.allowedBySource; Sample.denied; Sample.allowedByDest]
           (Some "shop")).
  split; vm_compute; discriminate.
Defined.

(** ** The port, from the record to the rule *)

Lemma digits_positive (d : Decimal.uint) :
  forall acc : positive,
    Js.digits 10 (NilEmpty.string_of_uint d) (Some (Z.pos acc)) =
    Some (Z.pos (Pos.of_uint_acc d acc)).
Proof.
  induction d; intros acc; cbn [NilEmpty.string_of_uint Pos.of_uint_acc];
    [reflexivity|..];
    cbn [Js.digits];
    match goal with
    | |- context [Js.digitValue 10 ?c] =>
        let v := eval vm_compute in (Js.digitValue 10 c) in
        change (Js.digitValue 10 c) with v
    end;
    cbv iota; rewrite <- IHd; do 2 f_equal; lia.
Qed.

Lemma digits_zero (d : Decimal.uint) :
  Js.digits 10 (NilEmpty.string_of_uint d) (Some 0) = Some (Z.of_N (Pos.of_uint d)).
Proof.
  induction d; cbn [NilEmpty.string_of_uint Pos.of_uint]; [reflexivity|..];
    cbn [Js.digits];
    match goal with
    | |- context [Js.digitValue 10 ?c] =>
        let v := eval vm_compute in (Js.digitValue 10 c) in
        change (Js.digitValue 10 c) with v
    end;
    cbv iota; [exact IHd|..]; apply digits_positive.
Qed.

Lemma digits_decimal (d : Decimal.uint) :
  d <> Decimal.Nil ->
  Js.digits 10 (NilEmpty.string_of_uint d) None = Some (Z.of_N (Pos.of_uint d)).
Proof.
  destruct d; [congruence|..]; intros _;
    cbn [NilEmpty.string_of_uint Pos.of_uint Js.digits];
    match goal with
    | |- context [Js.digitValue 10 ?c] =>
        let v := eval vm_compute in (Js.digitValue 10 c) in
        change (Js.digitValue 10 c) with v
    end;
    cbv iota; [apply digits_zero|..]; apply digits_positive.
Qed.

Lemma unsignedInt_decimal (d : Decimal.uint) :
  Js.unsignedInt (NilEmpty.string_of_uint d) =
  Js.digits 10 (NilEmpty.string_of_uint d) None.
Proof. destruct d as [|d|d|d|d|d|d|d|d|d|d]; try reflexivity; destruct d; reflexivity. Qed.

Lemma parseInt_decimal (d : Decimal.uint) :
  Js.parseInt (NilEmpty.string_of_uint d) =
  Js.digits 10 (NilEmpty.string_of_uint d) None.
Proof. rewrite <- unsignedInt_decimal. destruct d; reflexivity. Qed.

(** [parseInt(String(n))] is [n], for a positive integer. *)
Lemma parseInt_numberToString (z : Z) :
  0 < z -> Js.parseInt (Js.numberToString z) = Some z.
Proof.
  destruct z as [|p|p]; try lia. intros _.
  unfold Js.numberToString. cbn [Z.to_int NilZero.string_of_int].
  assert (Hd : Pos.to_uint p <> Decimal.Nil).
  { intros E. pose proof (DecimalPos.Unsigned.of_to p) as H.
    rewrite E in H. discriminate. }
  assert (Hs : NilZero.string_of_uint (Pos.to_uint p)
               = NilEmpty.string_of_uint (Pos.to_uint p)).
  { destruct (Pos.to_uint p); [congruence|reflexivity..]. }
  rewrite Hs, parseInt_decimal, digits_decimal by exact Hd.
  now rewrite DecimalPos.Unsigned.of_to.
Qed.

Lemma barFree_decimal (d : Decimal.uint) :
  Spec.barFree (NilEmpty.string_of_uint d) = true.
Proof.
  unfold Spec.barFree.
  induction d; cbn [NilEmpty.string_of_uint list_ascii_of_string existsb];
    [reflexivity|..];
    match goal with
    | |- context [Ascii.eqb "|" ?c] => change (Ascii.eqb "|" c) with false
    end;
    exact IHd.
Qed.

Lemma barFree_numberToString (z : Z) :
  0 < z -> Spec.barFree (Js.numberToString z) = true.
Proof.
  destruct z as [|p|p]; try lia. intros _.
  unfold Js.numberToString. cbn [Z.to_int NilZero.string_of_int].
  destruct (Pos.to_uint p) eqn:E; [reflexivity|..]; rewrite <- E;
    (replace (NilZero.string_of_uint (Pos.to_uint p))
       with (NilEmpty.string_of_uint (Pos.to_uint p))
       by (rewrite E; reflexivity));
    apply barFree_decimal.
Qed.

(** X14.  The destination of a flow survives the detour through the
    key of its sub-group.  For a flow whose port is a port number and
    whose destination namespace and protocol hold no bar, the rule made
    from its key names that very port, with the protocol in upper case,
    and selects the destination namespace by name exactly when it is
    not the namespace of the request. *)
Theorem destination_reaches_the_rule (namespace selectorKey : string)
    (flow : AggregatedLog.t) (destFlows : list AggregatedLog.t) (port : Z) :
  AggregatedLog.dest_port flow = Some port ->
  Notions.isPort port ->
  Spec.barFree (AggregatedLog.dest_namespace flow) = true ->
  Spec.barFree (AggregatedLog.protocol flow) = true ->
  let rule :=
    LogFilter.egressRule namespace selectorKey (LogFilter.destKey flow) destFlows in
  EgressRule.ports rule =
    Some [ {| PortSpec.protocol := Js.toUpperCase (AggregatedLog.protocol flow);
              PortSpec.port := Some port |} ]
  /\ EgressRule.protocol rule = Js.toUpperCase (AggregatedLog.protocol flow)
  /\ EgressRule.destination_namespaceSelector rule =
       (if (AggregatedLog.dest_namespace flow =? namespace)%string
        then None else Some (AggregatedLog.dest_namespace flow))
  /\ (EgressRule.destination_selector rule <> None ->
      AggregatedLog.dest_namespace flow = namespace).
Proof.
  intros Hport [Hpos _] Hns Hproto rule. subst rule.
  unfold LogFilter.egressRule, LogFilter.destKey.
  cbn [EgressRule.ports EgressRule.protocol EgressRule.destination_namespaceSelector
       EgressRule.destination_selector].
  change ("|" ++ AggregatedLog.protocol flow ++ "|"
          ++ Js.templateItem (AggregatedLog.dest_port flow))%string
    with (String "|" (AggregatedLog.protocol flow
                      ++ String "|" (Js.templateItem (AggregatedLog.dest_port flow)))).
  rewrite !split_app, (split_barFree _ Hns), (split_barFree _ Hproto), Hport.
  cbn [Js.templateItem].
  rewrite (split_barFree _ (barFree_numberToString port Hpos)).
  cbn [app nth].
  pose proof (parseInt_numberToString port Hpos) as Hparse.
  assert (Htruthy : Js.truthy (Js.numberToString port)
                    && negb (Js.numberToString port =? "null")%string
                    && negb (Js.numberToString port =? "0")%string = true).
  { unfold Js.truthy.
    destruct (String.eqb_spec (Js.numberToString port) "") as [E|_];
      [rewrite E in Hparse; discriminate|].
    destruct (String.eqb_spec (Js.numberToString port) "null") as [E|_];
      [rewrite E in Hparse; discriminate|].
    destruct (String.eqb_spec (Js.numberToString port) "0") as [E|_];
      [rewrite E in Hparse; injection Hparse; lia|].
    reflexivity. }
  rewrite Htruthy, Hparse. split; [reflexivity|]. split; [reflexivity|].
  destruct (AggregatedLog.dest_namespace flow =? namespace)%string eqn:E;
    cbn [negb]; (split; [reflexivity|]).
  - intros _. now apply String.eqb_eq.
  - congruence.
Qed.

Lemma destination_reaches_the_rule_witness :
  let flow := Sample.portless (Some 8080) in
  let rule := LogFilter.egressRule "shop" "app" (LogFilter.destKey flow) [flow] in
  EgressRule.ports rule =
    Some [ {| PortSpec.protocol := Js.toUpperCase (AggregatedLog.protocol flow);
              PortSpec.port := Some 8080 |} ]
  /\ EgressRule.protocol rule = Js.toUpperCase (AggregatedLog.protocol flow)
  /\ EgressRule.destination_namespaceSelector rule =
       (if (AggregatedLog.dest_namespace flow =? "shop")%string
        then None else Some (AggregatedLog.dest_namespace flow))
  /\ (EgressRule.destination_selector rule <> None ->
      AggregatedLog.dest_namespace flow = "shop").
Proof.
  apply (destination_reaches_the_rule "shop" "app" (Sample.portless (Some 8080))
           [Sample.portless (Some 8080)] 8080).
  - reflexivity.
  - unfold Notions.isPort. lia.
  - reflexivity.
  - reflexivity.
Defined.

(** ** The names of the drafts *)

Lemma dashNonAlnum_isNameChar (c : ascii) :
  Notions.isNameChar (Js.dashNonAlnum c) = true.
Proof. destruct c as [[] [] [] [] [] [] [] []]; vm_compute; reflexivity. Qed.

Lemma isName_app (a b : string) :
  Notions.isName (a ++ b) = Notions.isName a && Notions.isName b.
Proof.
  unfold Notions.isName. induction a as [|c a IH]; [reflexivity|].
  cbn [String.append list_ascii_of_string forallb]. now rewrite IH, andb_assoc.
Qed.

Lemma isName_mapChars (s : string) :
  Notions.isName (Js.mapChars Js.dashNonAlnum s) = true.
Proof.
  unfold Notions.isName, Js.mapChars.
  rewrite list_ascii_of_string_of_list_ascii.
  induction (list_ascii_of_string s) as [|c cs IH]; [reflexivity|].
  cbn [List.map forallb]. now rewrite dashNonAlnum_isNameChar, IH.
Qed.

(** X15.  The name of a draft is made of lower-case letters, digits and
    hyphens only, whatever the selector value holds, and starts with
    [allow-]. *)
Theorem draft_names_are_plain (namespace selectorKey : string)
    (aggregatedLogs : list AggregatedLog.t) (policy : NetworkPolicy.t) :
  In policy
    (LogFilter.generateCalicoNetworkPolicies namespace selectorKey aggregatedLogs) ->
  Notions.isName (NetworkPolicy.metadata_name policy) = true
  /\ String.prefix "allow-" (NetworkPolicy.metadata_name policy) = true.
Proof.
  rewrite generate_grouped. intros Hpolicy.
  apply in_map_iff in Hpolicy as (value & <- & _).
  cbn [LogFilter.policyFor NetworkPolicy.metadata_name NetworkPolicy.spec_selector snd].
  split.
  - rewrite !isName_app, isName_mapChars. reflexivity.
  - generalize (Js.mapChars Js.dashNonAlnum (Js.toLowerCase value) ++ "-egress")%string.
    intros rest. vm_compute. now destruct rest.
Qed.

Lemma draft_names_are_plain_witness :
  let policy :=
    LogFilter.policyFor "shop" "app" "frontend" [Sample.portless (Some 8080)] in
  Notions.isName (NetworkPolicy.metadata_name policy) = true
  /\ String.prefix "allow-" (NetworkPolicy.metadata_name policy) = true.
Proof.
  apply (draft_names_are_plain "shop" "app" [Sample.portless (Some 8080)]).
  vm_compute. auto.
Defined.

(** ** Reading a label *)

Lemma append_assoc (a b c : string) : ((a ++ b) ++ c = a ++ (b ++ c))%string.
Proof. induction a as [|ch a IH]; simpl; [reflexivity|]. now rewrite IH. Qed.

Lemma split_free (c : ascii) (s : string) :
  Notions.free c s = true -> Js.split c s = [s].
Proof.
  unfold Notions.free. induction s as [|d s IH]; [reflexivity|].
  cbn [list_ascii_of_string existsb Js.split]. rewrite Ascii.eqb_sym.
  destruct (Ascii.eqb d c); [discriminate|]. cbn [orb]. intros H.
  now rewrite (IH H).
Qed.

Lemma free_app (c : ascii) (a b : string) :
  Notions.free c (a ++ b) = Notions.free c a && Notions.free c b.
Proof.
  unfold Notions.free. induction a as [|d a IH]; [reflexivity|].
  cbn [String.append list_ascii_of_string existsb].
  destruct (Ascii.eqb c d); [reflexivity|]. exact IH.
Qed.

Lemma trimEnd_tidy (s : string) :
  Notions.trailingSpace s = false -> Js.trimEnd s = s.
Proof.
  induction s as [|c s IH]; [reflexivity|].
  cbn [Notions.trailingSpace Js.trimEnd]. destruct s as [|d s].
  - cbn [Js.trimEnd]. now intros ->.
  - intros H. now rewrite (IH H).
Qed.

Lemma trimEnd_space (s : string) : Js.trimEnd (s ++ " ") = Js.trimEnd s.
Proof.
  induction s as [|c s IH]; [reflexivity|].
  cbn [String.append Js.trimEnd]. now rewrite IH.
Qed.

Lemma trailingSpace_app (a b : string) :
  b <> ""%string -> Notions.trailingSpace (a ++ b) = Notions.trailingSpace b.
Proof.
  intros Hb. induction a as [|c a IH]; [reflexivity|].
  cbn [String.append Notions.trailingSpace].
  destruct (a ++ b)%string eqn:E; [|exact IH].
  destruct a; [simpl in E; congruence|discriminate].
Qed.

(** An item of a label list, padded or not, trims to itself. *)
Lemma trim_padded (x : string) (lead trail : bool) :
  x <> ""%string ->
  Notions.leadingSpace x = false -> Notions.trailingSpace x = false ->
  Js.trim ((if lead then " " else "") ++ x ++ (if trail then " " else "")) = x.
Proof.
  intros Hne Hl Ht. unfold Js.trim.
  assert (Hstart : forall y, Js.trimStart (x ++ y) = (x ++ y)%string).
  { intros y. destruct x as [|c x]; [congruence|].
    cbn [String.append Js.trimStart]. cbn [Notions.leadingSpace] in Hl.
    now rewrite Hl. }
  assert (Hlead : Js.trimStart ((if lead then " " else "") ++ x
                                ++ (if trail then " " else ""))
                  = (x ++ (if trail then " " else ""))%string).
  { destruct lead; [|apply Hstart].
    change (" " ++ x ++ (if trail then " " else ""))%string
      with (String " " (x ++ (if trail then " " else ""))).
    cbn [Js.trimStart]. change (Js.isSpace " ") with true. cbv iota. apply Hstart. }
  rewrite Hlead. destruct trail.
  - rewrite trimEnd_space. now apply trimEnd_tidy.
  - assert (E : (x ++ "")%string = x)
      by (clear; induction x as [|c x IH]; simpl; [reflexivity|now rewrite IH]).
    rewrite E. now apply trimEnd_tidy.
Qed.

Lemma trim_word (s : string) : Notions.isWord s = true -> Js.trim s = s.
Proof.
  unfold Notions.isWord. rewrite !andb_true_iff, !negb_true_iff.
  intros [[_ Hl] Ht]. unfold Js.trim.
  assert (E : Js.trimStart s = s).
  { destruct s as [|c s]; [reflexivity|]. cbn [Js.trimStart].
    cbn [Notions.leadingSpace] in Hl. now rewrite Hl. }
  rewrite E. now apply trimEnd_tidy.
Qed.

(** A pair of words, written [key=value], is an item that reads back. *)
Lemma pair_item (k v : string) :
  Notions.isWord k = true -> Notions.isWord v = true ->
  let item := (k ++ "=" ++ v)%string in
  item <> ""%string
  /\ Notions.free "|" item = true
  /\ Notions.leadingSpace item = false
  /\ Notions.trailingSpace item = false
  /\ List.map Js.trim (Js.split "=" item) = [k; v].
Proof.
  unfold Notions.isWord. rewrite !andb_true_iff, !negb_true_iff.
  intros [[[[Hka Hkb] Hke] Hkl] Hkt] [[[[Hva Hvb] Hve] Hvl] Hvt]. cbn zeta.
  assert (Hk : Notions.isWord k = true)
    by (unfold Notions.isWord; now rewrite Hka, Hkb, Hke, Hkl, Hkt).
  assert (Hv : Notions.isWord v = true)
    by (unfold Notions.isWord; now rewrite Hva, Hvb, Hve, Hvl, Hvt).
  split; [|split; [|split; [|split]]].
  - destruct k; discriminate.
  - rewrite !free_app, Hkb, Hvb. reflexivity.
  - destruct k as [|c k]; [reflexivity|exact Hkl].
  - rewrite trailingSpace_app by discriminate.
    change ("=" ++ v)%string with (String "=" v). cbn [Notions.trailingSpace].
    destruct v; [reflexivity|exact Hvt].
  - change (k ++ "=" ++ v)%string with (k ++ String "=" v)%string.
    rewrite split_app, (split_free _ _ Hke), (split_free _ _ Hve).
    cbn [app List.map]. now rewrite (trim_word _ Hk), (trim_word _ Hv).
Qed.

Lemma split_items (items : list string) :
  items <> [] ->
  Forall (fun x => x <> ""%string
                   /\ Notions.free "|" x = true
                   /\ Notions.leadingSpace x = false
                   /\ Notions.trailingSpace x = false) items ->
  forall lead : bool,
    List.map Js.trim
      (Js.split "|" ((if lead then " " else "") ++ Js.join " | " items))
    = items.
Proof.
  unfold Js.join.
  induction items as [|x [|y rest] IH]; intros Hne Hall lead; [congruence| |].
  - inversion Hall as [|? ? (Hx & Hb & Hl & Ht) _]; subst.
    cbn [String.concat].
    rewrite split_free.
    + cbn [List.map]. f_equal.
      pose proof (trim_padded x lead false Hx Hl Ht) as H.
      assert (E : (x ++ "")%string = x)
        by (clear; induction x as [|c x IH]; simpl; [reflexivity|now rewrite IH]).
      cbv iota in H. now rewrite E in H.
    + rewrite free_app, Hb. now destruct lead.
  - inversion Hall as [|? ? (Hx & Hb & Hl & Ht) Hrest]; subst.
    change (String.concat " | " (x :: y :: rest))
      with (x ++ " | " ++ String.concat " | " (y :: rest))%string.
    replace ((if lead then " " else "") ++ x ++ " | "
             ++ String.concat " | " (y :: rest))%string
      with (((if lead then " " else "") ++ x ++ " ")
            ++ String "|" (" " ++ String.concat " | " (y :: rest)))%string
      by (rewrite !append_assoc; reflexivity).
    rewrite split_app, map_app, (IH ltac:(discriminate) Hrest true).
    rewrite split_free.
    + cbn [List.map app]. f_equal. exact (trim_padded x lead true Hx Hl Ht).
    + rewrite !free_app, Hb. now destruct lead.
Qed.

Lemma firstLabel_pairs (key : string) (pairs : list (string * string)) :
  Forall (fun p => Notions.isWord (fst p) = true /\ Notions.isWord (snd p) = true)
    pairs ->
  LogFilter.firstLabel key
    (List.map (fun p => (fst p ++ "=" ++ snd p)%string) pairs)
  = Notions.labelOf key pairs.
Proof.
  induction 1 as [|[k v] pairs [Hk Hv] _ IH]; [reflexivity|].
  cbn [List.map LogFilter.firstLabel Notions.labelOf fst snd].
  destruct (pair_item k v Hk Hv) as (_ & _ & _ & _ & ->).
  cbn [nth nth_error]. rewrite IH. reflexivity.
Qed.

(** X16.  A label is read back from the text the flow logs give it.  For
    ASCII keys and values that hold no bar and no equals sign and
    neither start nor end with white space, [extractLabelValue], on the pairs
    written [key=value] and joined by a bar between two spaces, returns
    the value of the first pair that has the key and a value that is
    not empty, and null when there is none. *)
Theorem label_is_read_back (pairs : list (string * string)) (key : string) :
  Forall (fun p => Notions.isWord (fst p) = true /\ Notions.isWord (snd p) = true)
    pairs ->
  LogFilter.extractLabelValue (Notions.labelText pairs) key
  = Notions.labelOf key pairs.
Proof.
  intros Hwords. unfold LogFilter.extractLabelValue, Notions.labelText.
  destruct pairs as [|p pairs]; [reflexivity|].
  set (items := List.map (fun p => (fst p ++ "=" ++ snd p)%string) (p :: pairs)).
  assert (Hitems : Forall (fun x => x <> ""%string
                                    /\ Notions.free "|" x = true
                                    /\ Notions.leadingSpace x = false
                                    /\ Notions.trailingSpace x = false) items).
  { unfold items. apply Forall_map. revert Hwords. apply Forall_impl.
    intros [k v] [Hk Hv]. cbn [fst snd] in *.
    destruct (pair_item k v Hk Hv) as (H1 & H2 & H3 & H4 & _). auto. }
  assert (Htruthy : Js.truthy (Js.join " | " items) = true).
  { unfold items. cbn [List.map]. inversion Hwords as [|? ? [Hk Hv] _]; subst.
    unfold Js.join, Js.truthy.
    destruct (List.map _ pairs); cbn [String.concat];
      destruct (fst p); reflexivity. }
  rewrite Htruthy. cbn [negb].
  pose proof (split_items items ltac:(discriminate) Hitems false) as Hsplit.
  cbv iota in Hsplit. cbn [String.append] in Hsplit.
  rewrite Hsplit. now apply firstLabel_pairs.
Qed.

Lemma label_is_read_back_witness :
  LogFilter.extractLabelValue
    (Notions.labelText [("app", "summary"); ("pod-template-hash", "57569999f");
                        ("version", "v1")]) "version"
  = Notions.labelOf "version"
      [("app", "summary"); ("pod-template-hash", "57569999f"); ("version", "v1")].
Proof.
  apply (label_is_read_back
           [("app", "summary"); ("pod-template-hash", "57569999f"); ("version", "v1")]
           "version").
  repeat constructor.
Defined.

(** ** The dispatcher of tool calls *)

Lemma existsb_eqb_In (name : string) (names : list string) :
  List.existsb (String.eqb name) names = true <-> In name names.
Proof.
  rewrite existsb_exists. split.
  - intros (x & Hx & E). apply String.eqb_eq in E. now subst.
  - intros H. exists name. split; [exact H|apply String.eqb_refl].
Qed.

Lemma dispatch_other
    (backend : Js.Settled (list FlowLog.t))
    (localeCompare : string -> string -> Z) (getTime : string -> option Z)
    (kubeconfigPath : option string) (spawn : Kubectl.Spawn)
    (cannotDestructure : string -> string)
    (otherHandler : string -> option Server.Args -> Dispatcher.Call Dispatcher.Reply)
    (name : string) (args : option Server.Args) :
  In name Dispatcher.otherTools ->
  Dispatcher.dispatch backend localeCompare getTime kubeconfigPath spawn
    cannotDestructure otherHandler name args
  = otherHandler name args.
Proof.
  intros Hname. unfold Dispatcher.dispatch.
  assert (H4 : List.existsb (String.eqb name) Dispatcher.otherTools = true)
    by now apply existsb_eqb_In.
  assert (H1 : (name =? "generate_network_policies")%string = false).
  { apply String.eqb_neq. intros ->. vm_compute in H4. discriminate. }
  assert (H2 : (name =? "get_namespace_flow_summary")%string = false).
  { apply String.eqb_neq. intros ->. vm_compute in H4. discriminate. }
  assert (H3 : (name =? "analyze_blocked_flows")%string = false).
  { apply String.eqb_neq. intros ->. vm_compute in H4. discriminate. }
  now rewrite H1, H2, H3, H4.
Qed.

(** Outside [otherTools] the handler awaited settles. *)
Lemma dispatch_settles
    (backend : Js.Settled (list FlowLog.t))
    (localeCompare : string -> string -> Z) (getTime : string -> option Z)
    (kubeconfigPath : option string) (spawn : Kubectl.Spawn)
    (cannotDestructure : string -> string)
    (otherHandler : string -> option Server.Args -> Dispatcher.Call Dispatcher.Reply)
    (name : string) (args : option Server.Args) (trace : list Server.Effect) :
  ~ In name Dispatcher.otherTools ->
  fst (Dispatcher.dispatch backend localeCompare getTime kubeconfigPath spawn
         cannotDestructure otherHandler name args trace) <> Js.Pending.
Proof.
  intros Hname. unfold Dispatcher.dispatch.
  assert (H4 : List.existsb (String.eqb name) Dispatcher.otherTools = false).
  { destruct (List.existsb (String.eqb name) Dispatcher.otherTools) eqn:E;
      [|reflexivity].
    apply existsb_eqb_In in E. contradiction. }
  rewrite H4. unfold Dispatcher.settled.
  repeat match goal with
         | |- context [if ?b then _ else _] => destruct b
         end;
    match goal with
    | |- context [match ?m trace with _ => _ end] =>
        destruct (m trace) as [[reply|message] trace']
    end; discriminate.
Qed.

(** X17.  A tool call never ends in a rejection: the promise of the
    dispatcher is fulfilled or stays pending, and it stays pending
    exactly when the name is one of the tools not spelt out here and
    the handler of that tool never settles.  A name the dispatcher does
    not know is answered with the text Unknown tool without anything
    being fetched; a handler that rejects has its message passed on as
    text, after the effects it had; and a call without arguments to one
    of the three tools spelt out is answered with the message of the
    TypeError of the destructuring, without anything being fetched. *)
Theorem tool_calls_never_reject
    (backend : Js.Settled (list FlowLog.t))
    (localeCompare : string -> string -> Z) (getTime : string -> option Z)
    (kubeconfigPath : option string) (spawn : Kubectl.Spawn)
    (cannotDestructure : string -> string)
    (otherHandler : string -> option Server.Args -> Dispatcher.Call Dispatcher.Reply)
    (name : string) (args : option Server.Args) (trace : list Server.Effect) :
  let call :=
    Dispatcher.callTool backend localeCompare getTime kubeconfigPath spawn
      cannotDestructure otherHandler name args in
  (forall message, fst (call trace) <> Js.Broken message)
  /\ (fst (call trace) = Js.Pending
      <-> In name Dispatcher.otherTools
          /\ fst (otherHandler name args trace) = Js.Pending)
  /\ (~ In name Notions.toolNames ->
      call trace =
      (Js.Fulfilled
         (Dispatcher.Answer
            (Server.Text
               ("Error executing tool " ++ name ++ ": Unknown tool: " ++ name))),
       trace))
  /\ (forall message trace',
        In name Dispatcher.otherTools ->
        otherHandler name args trace = (Js.Broken message, trace') ->
        call trace =
        (Js.Fulfilled
           (Dispatcher.Answer
              (Server.Text ("Error executing tool " ++ name ++ ": " ++ message))),
         trace'))
  /\ (In name ["generate_network_policies"; "get_namespace_flow_summary";
               "analyze_blocked_flows"] ->
      args = None ->
      call trace =
      (Js.Fulfilled
         (Dispatcher.Answer
            (Server.Text
               ("Error executing tool " ++ name ++ ": "
                ++ cannotDestructure "namespace"))),
       trace)).
Proof.
  intros call. subst call. unfold Dispatcher.callTool.
  split; [|split; [|split; [|split]]].
  - intros message.
    destruct (Dispatcher.dispatch _ _ _ _ _ _ _ _ _ _) as [[|reply|thrown] trace'];
      discriminate.
  - split.
    + intros Hpending.
      destruct (in_dec string_dec name Dispatcher.otherTools) as [Hin|Hout].
      * split; [exact Hin|].
        rewrite (dispatch_other backend localeCompare getTime kubeconfigPath
                   spawn cannotDestructure otherHandler name args Hin)
          in Hpending.
        destruct (otherHandler name args trace) as [[|reply|thrown] trace'];
          [reflexivity|discriminate..].
      * exfalso.
        apply (dispatch_settles backend localeCompare getTime kubeconfigPath
                 spawn cannotDestructure otherHandler name args trace Hout).
        destruct (Dispatcher.dispatch _ _ _ _ _ _ _ _ _ _)
          as [[|reply|thrown] trace']; [reflexivity|discriminate..].
    + intros [Hin Hpending]. rewrite dispatch_other by exact Hin.
      destruct (otherHandler name args trace) as [[|reply|thrown] trace'];
        [reflexivity|discriminate..].
  - intros Hname. unfold Dispatcher.dispatch.
    assert (H1 : (name =? "generate_network_policies")%string = false).
    { apply String.eqb_neq. intros ->. apply Hname. now left. }
    assert (H2 : (name =? "get_namespace_flow_summary")%string = false).
    { apply String.eqb_neq. intros ->. apply Hname. right. now left. }
    assert (H3 : (name =? "analyze_blocked_flows")%string = false).
    { apply String.eqb_neq. intros ->. apply Hname. right. right. now left. }
    assert (H4 : List.existsb (String.eqb name) Dispatcher.otherTools = false).
    { destruct (List.existsb (String.eqb name) Dispatcher.otherTools) eqn:E;
        [|reflexivity].
      apply existsb_eqb_In in E. exfalso. apply Hname.
      unfold Notions.toolNames. apply in_or_app. now right. }
    rewrite H1, H2, H3, H4. reflexivity.
  - intros message trace' Hname Hfail.
    rewrite dispatch_other by exact Hname. now rewrite Hfail.
  - intros [<-|[<-|[<-|[]]]] ->; reflexivity.
Qed.

(** X18.  A fetch that fails reaches the client as text, after that one
    fetch, and the text tells which layer caught the failure:
    [generate_network_policies] has no handler of its own for it, so
    the dispatcher reports it; [get_namespace_flow_summary] and
    [analyze_blocked_flows] report it themselves, around the message of
    the service.  This is so for a call that comes with arguments; one
    that comes without is answered by the dispatcher, with the message
    of the TypeError of the destructuring, before anything is
    fetched. *)
Theorem failed_fetch_is_reported_as_text
    (localeCompare : string -> string -> Z) (getTime : string -> option Z)
    (kubeconfigPath : option string) (spawn : Kubectl.Spawn)
    (cannotDestructure : string -> string)
    (otherHandler : string -> option Server.Args -> Dispatcher.Call Dispatcher.Reply)
    (message : string) (args : Server.Args) :
  let call name arguments :=
    Dispatcher.callTool (Js.Rejected message) localeCompare getTime
      kubeconfigPath spawn cannotDestructure otherHandler name arguments [] in
  (Js.truthyOpt (Server.selectorKey args) = true ->
   call "generate_network_policies" (Some args) =
   (Js.Fulfilled
      (Dispatcher.Answer
         (Server.Text
            ("Error executing tool generate_network_policies: " ++ message))),
    [Server.FetchFlowLogs]))
  /\ (forall ns,
        Server.namespace args = Some ns -> Js.truthy ns = true ->
        call "get_namespace_flow_summary" (Some args) =
        (Js.Fulfilled
           (Dispatcher.Answer
              (Server.Text
                 ("Error generating flow summary for namespace " ++ ns
                  ++ ": Failed to generate flow summary: " ++ message))),
         [Server.FetchFlowLogs]))
  /\ call "analyze_blocked_flows" (Some args) =
     (Js.Fulfilled
        (Dispatcher.Answer
           (Server.Text
              ("Error analyzing blocked flows"
               ++ (if Js.truthyOpt (Server.namespace args)
                   then " for namespace "
                        ++ match Server.namespace args with
                           | Some ns => ns
                           | None => ""
                           end
                   else "")
               ++ ": Failed to analyze blocked flows: " ++ message))),
      [Server.FetchFlowLogs])
  /\ (forall name,
        In name ["generate_network_policies"; "get_namespace_flow_summary";
                 "analyze_blocked_flows"] ->
        call name None =
        (Js.Fulfilled
           (Dispatcher.Answer
              (Server.Text
                 ("Error executing tool " ++ name ++ ": "
                  ++ cannotDestructure "namespace"))),
         [])).
Proof.
  intros call. subst call. cbv beta.
  unfold Dispatcher.callTool, Dispatcher.dispatch.
  split; [|split; [|split]].
  - intros Hkey.
    change ("generate_network_policies" =? "generate_network_policies")%string
      with true.
    cbv iota.
    unfold Dispatcher.settled, Dispatcher.answered,
      Dispatcher.handleGenerateNetworkPolicies, Dispatcher.destructure,
      Server.handleGenerateNetworkPolicies.
    rewrite Hkey. reflexivity.
  - intros ns Hns Htruthy.
    change ("get_namespace_flow_summary" =? "generate_network_policies")%string
      with false.
    change ("get_namespace_flow_summary" =? "get_namespace_flow_summary")%string
      with true.
    cbv iota.
    unfold Dispatcher.settled, Dispatcher.answered,
      Dispatcher.handleGetNamespaceFlowSummary, Dispatcher.destructure,
      Server.handleGetNamespaceFlowSummary.
    rewrite Hns, Htruthy. reflexivity.
  - change ("analyze_blocked_flows" =? "generate_network_policies")%string
      with false.
    change ("analyze_blocked_flows" =? "get_namespace_flow_summary")%string
      with false.
    change ("analyze_blocked_flows" =? "analyze_blocked_flows")%string
      with true.
    cbv iota.
    unfold Dispatcher.settled, Dispatcher.handleAnalyzeBlockedFlows,
      Dispatcher.destructure.
    destruct (Server.namespace args) as [ns|]; [|reflexivity].
    cbn [Js.truthyOpt]. destruct (Js.truthy ns); reflexivity.
  - intros name [<-|[<-|[<-|[]]]]; reflexivity.
Qed.

(** ** The contexts of a kubeconfig *)

Section KubeReaders.

Variable Value : Type.
Variable truthy : Value -> bool.
Variable prop : Value -> string -> Js.Settled (option Value).
Variable strictEq : Value -> Value -> bool.
Variable cannotRead : string -> string.

(** Two facts of JavaScript: a property read throws for [null] and
    [undefined] only, which are falsy; and a falsy value has no
    property [context]. *)
Hypothesis only_falsy_throws :
  forall v key message, prop v key = Js.Rejected message -> truthy v = false.
Hypothesis falsy_has_no_context :
  forall v u, truthy v = false -> prop v "context" <> Js.Resolved (Some u).

Variable kubeconfig : Value.
Variable current : option Value.
Hypothesis current_read : prop kubeconfig "current-context" = Js.Resolved current.

Lemma contextInfo_resolved (ctx : Value) (info : ContextInfo.t Value) :
  Kubernetes.contextInfo Value prop strictEq cannotRead kubeconfig ctx
  = Js.Resolved info ->
  exists name cluster user namespace,
    prop ctx "name" = Js.Resolved name
    /\ Kubernetes.ofContext Value prop cannotRead ctx "cluster" = Js.Resolved cluster
    /\ Kubernetes.ofContext Value prop cannotRead ctx "user" = Js.Resolved user
    /\ Kubernetes.ofContext Value prop cannotRead ctx "namespace"
       = Js.Resolved namespace
    /\ info = {| ContextInfo.name := name;
                 ContextInfo.cluster := cluster;
                 ContextInfo.user := user;
                 ContextInfo.namespace := namespace;
                 ContextInfo.isCurrent :=
                   Kubernetes.same Value strictEq name current |}.
Proof.
  unfold Kubernetes.contextInfo. rewrite current_read.
  destruct (prop ctx "name") as [name|]; [|discriminate].
  destruct (Kubernetes.ofContext _ _ _ ctx "cluster") as [cluster|]; [|discriminate].
  destruct (Kubernetes.ofContext _ _ _ ctx "user") as [user|]; [|discriminate].
  destruct (Kubernetes.ofContext _ _ _ ctx "namespace") as [namespace|];
    [|discriminate].
  cbn [Kubernetes.andThen]. intros [= <-].
  exists name, cluster, user, namespace. repeat split.
Qed.

(** An entry whose [context] can be read from is truthy. *)
Lemma read_context_truthy (ctx : Value) (cluster : option Value) :
  Kubernetes.ofContext Value prop cannotRead ctx "cluster" = Js.Resolved cluster ->
  truthy ctx = true.
Proof.
  unfold Kubernetes.ofContext.
  destruct (prop ctx "context") as [[context|]|] eqn:E; try discriminate.
  intros _. destruct (truthy ctx) eqn:T; [reflexivity|].
  now destruct (falsy_has_no_context ctx context T).
Qed.

(** Where the walk of [getAvailableContexts] succeeds, the search of
    [getCurrentContextInfo] finds the first entry flagged current. *)
Lemma find_follows_map (items : list Value) :
  forall infos,
    Kubernetes.each
      (Kubernetes.contextInfo Value prop strictEq cannotRead kubeconfig) items
    = Js.Resolved infos ->
    (forall info, In info infos ->
       ContextInfo.isCurrent info
       = Kubernetes.same Value strictEq (ContextInfo.name info) current)
    /\ Kubernetes.andThen
         (Kubernetes.findFirst
            (fun ctx =>
               Kubernetes.andThen (prop ctx "name") (fun name =>
               Js.Resolved (Kubernetes.same Value strictEq name current)))
            items)
         (fun currentContext =>
            match currentContext with
            | None => Js.Resolved None
            | Some currentContext =>
                if negb (truthy currentContext) then Js.Resolved None
                else
                  Kubernetes.andThen (prop currentContext "name") (fun name =>
                  Kubernetes.andThen
                    (Kubernetes.ofContext Value prop cannotRead currentContext
                       "cluster") (fun cluster =>
                  Kubernetes.andThen
                    (Kubernetes.ofContext Value prop cannotRead currentContext
                       "user") (fun user =>
                  Kubernetes.andThen
                    (Kubernetes.ofContext Value prop cannotRead currentContext
                       "namespace") (fun namespace =>
                  Js.Resolved
                    (Some
                       {| ContextInfo.name := name;
                          ContextInfo.cluster := cluster;
                          ContextInfo.user := user;
                          ContextInfo.namespace := namespace;
                          ContextInfo.isCurrent := true |})))))
            end)
       = Js.Resolved (List.find ContextInfo.isCurrent infos).
Proof.
  induction items as [|ctx rest IH]; intros infos.
  - cbn [Kubernetes.each]. intros [= <-]. split; [intros info []|reflexivity].
  - cbn [Kubernetes.each Kubernetes.findFirst].
    destruct (Kubernetes.contextInfo _ _ _ _ kubeconfig ctx) as [info|] eqn:Einfo;
      [|discriminate].
    destruct (Kubernetes.each _ rest) as [others|] eqn:Eothers; [|discriminate].
    cbn [Kubernetes.andThen]. intros [= <-].
    destruct (IH others eq_refl) as [Hflags Hfind].
    apply contextInfo_resolved in Einfo
      as (name & cluster & user & namespace & Hn & Hc & Hu & Hs & ->).
    split.
    + intros info [<-|Hin]; [reflexivity|now apply Hflags].
    + rewrite Hn. cbn [Kubernetes.andThen List.find ContextInfo.isCurrent].
      destruct (Kubernetes.same Value strictEq name current) eqn:Esame.
      * cbn [Kubernetes.andThen].
        rewrite (read_context_truthy ctx cluster Hc), Hn, Hc, Hu, Hs.
        reflexivity.
      * exact Hfind.
Qed.

End KubeReaders.

(** X19.  The two readers of a kubeconfig read it alike, on any host
    on which a property read throws for falsy values only and no falsy
    value has a property [context], as JavaScript has it.  On the same
    path, when the file cannot be parsed both fail, each under its own
    heading and with the same cause.  And whenever
    [getAvailableContexts] answers, so does [getCurrentContextInfo]:
    with null when [current-context] is falsy, and otherwise with the
    first of the available contexts that is flagged current (null when
    none is); a context is flagged current when its name is strictly
    equal to [current-context]. *)
Theorem context_readers_agree (Value : Type)
    (truthy : Value -> bool)
    (prop : Value -> string -> Js.Settled (option Value))
    (strictEq : Value -> Value -> bool)
    (elements : Value -> option (list Value))
    (cannotRead notFunction : string -> string)
    (defaultPath : string) (existsSync : string -> bool)
    (load : string -> Kubernetes.Loaded Value)
    (thisKubeconfigPath kubeconfigPath : option string) :
  (forall v key message, prop v key = Js.Rejected message -> truthy v = false) ->
  (forall v u, truthy v = false -> prop v "context" <> Js.Resolved (Some u)) ->
  let parsed :=
    Kubernetes.parseKubeConfig Value truthy prop existsSync load
      (Kubernetes.configPath defaultPath thisKubeconfigPath kubeconfigPath) in
  let available :=
    Kubernetes.getAvailableContexts Value truthy prop strictEq elements
      cannotRead notFunction defaultPath existsSync load thisKubeconfigPath
      kubeconfigPath in
  let current :=
    Kubernetes.getCurrentContextInfo Value truthy prop strictEq elements
      cannotRead notFunction defaultPath existsSync load thisKubeconfigPath
      kubeconfigPath in
  (forall cause,
      parsed = Js.Rejected cause ->
      available = Js.Rejected ("Failed to parse kubeconfig: " ++ cause)
      /\ current = Js.Rejected ("Failed to get current context info: " ++ cause))
  /\ (forall infos,
        available = Js.Resolved infos ->
        exists kubeconfig currentContextName,
          parsed = Js.Resolved kubeconfig
          /\ prop kubeconfig "current-context" = Js.Resolved currentContextName
          /\ current =
             Js.Resolved
               (if Kubernetes.isTruthy Value truthy currentContextName
                then List.find ContextInfo.isCurrent infos
                else None)
          /\ forall info,
               In info infos ->
               ContextInfo.isCurrent info
               = Kubernetes.same Value strictEq (ContextInfo.name info)
                   currentContextName).
Proof.
  intros Hthrows Hcontext parsed available current.
  subst available current.
  unfold Kubernetes.getAvailableContexts, Kubernetes.getCurrentContextInfo.
  fold parsed. split.
  - intros cause ->. split; reflexivity.
  - intros infos. destruct parsed as [kubeconfig|cause] eqn:Eparsed;
      [|discriminate].
    cbn [Kubernetes.andThen].
    assert (Htruthy : truthy kubeconfig = true).
    { subst parsed. unfold Kubernetes.parseKubeConfig in Eparsed.
      destruct (negb (existsSync _)); [discriminate|].
      destruct (load _) as [[document|]|message|message]; try discriminate.
      destruct (truthy document) eqn:T; cbn [negb] in Eparsed; [|discriminate].
      destruct (prop document "contexts") as [contexts|]; [|discriminate].
      cbn [Kubernetes.andThen] in Eparsed.
      destruct (negb (Kubernetes.isTruthy Value truthy contexts)); [discriminate|].
      now injection Eparsed as <-. }
    destruct (prop kubeconfig "current-context") as [currentContextName|message]
      eqn:Ecurrent.
    2:{ apply Hthrows in Ecurrent. congruence. }
    cbn [Kubernetes.andThen].
    destruct (prop kubeconfig "contexts") as [contexts|]; [|discriminate].
    cbn [Kubernetes.andThen]. unfold Kubernetes.walk.
    destruct contexts as [contexts|]; [|discriminate].
    destruct (elements contexts) as [items|]; [|discriminate].
    cbn [Kubernetes.andThen Kubernetes.rethrow].
    destruct (Kubernetes.each _ items) as [infos'|] eqn:Eeach; [|discriminate].
    intros [= <-].
    destruct (find_follows_map Value truthy prop strictEq cannotRead Hcontext
                kubeconfig currentContextName Ecurrent items infos' Eeach)
      as [Hflags Hfind].
    exists kubeconfig, currentContextName.
    split; [reflexivity|]. split; [exact Ecurrent|]. split; [|exact Hflags].
    destruct (Kubernetes.isTruthy Value truthy currentContextName);
      cbn [negb]; [|reflexivity].
    now rewrite Hfind.
Qed.

Lemma context_readers_agree_witness :
  exists kubeconfig currentContextName,
    Kubernetes.parseKubeConfig SampleKube.Value SampleKube.truthy SampleKube.prop
      (fun _ => true) (fun _ => Kubernetes.Document (Some SampleKube.twoContexts))
      (Kubernetes.configPath "/home/.kube/config" None None)
    = Js.Resolved kubeconfig
    /\ SampleKube.prop kubeconfig "current-context" = Js.Resolved currentContextName
    /\ SampleKube.getCurrentContextInfo SampleKube.twoContexts =
       Js.Resolved
         (if Kubernetes.isTruthy SampleKube.Value SampleKube.truthy
               currentContextName
          then List.find ContextInfo.isCurrent
                 [ {| ContextInfo.name := Some (SampleKube.Text "dev");
                      ContextInfo.cluster := Some (SampleKube.Text "c1");
                      ContextInfo.user := Some (SampleKube.Text "alice");
                      ContextInfo.namespace := None;
                      ContextInfo.isCurrent := false |};
                   {| ContextInfo.name := Some (SampleKube.Text "prod");
                      ContextInfo.cluster := Some (SampleKube.Text "c2");
                      ContextInfo.user := Some (SampleKube.Text "bob");
                      ContextInfo.namespace := None;
                      ContextInfo.isCurrent := true |} ]
          else None)
    /\ forall info,
         In info
           [ {| ContextInfo.name := Some (SampleKube.Text "dev");
                ContextInfo.cluster := Some (SampleKube.Text "c1");
                ContextInfo.user := Some (SampleKube.Text "alice");
                ContextInfo.namespace := None;
                ContextInfo.isCurrent := false |};
             {| ContextInfo.name := Some (SampleKube.Text "prod");
                ContextInfo.cluster := Some (SampleKube.Text "c2");
                ContextInfo.user := Some (SampleKube.Text "bob");
                ContextInfo.namespace := None;
                ContextInfo.isCurrent := true |} ] ->
         ContextInfo.isCurrent info
         = Kubernetes.same SampleKube.Value SampleKube.strictEq
             (ContextInfo.name info) currentContextName.
Proof.
  apply (proj2 (context_readers_agree SampleKube.Value SampleKube.truthy
                  SampleKube.prop SampleKube.strictEq SampleKube.elements
                  SampleKube.cannotRead SampleKube.notFunction
                  "/home/.kube/config" (fun _ => true)
                  (fun _ => Kubernetes.Document (Some SampleKube.twoContexts))
                  None None
                  ltac:(intros [| | |] key message; cbn; try discriminate; reflexivity)
                  ltac:(intros [|text| |] u T; cbn in *; discriminate))).
  reflexivity.
Defined.

(** The converse fails: an entry that lacks its [context] makes
    [getAvailableContexts] fail, while [getCurrentContextInfo], which
    reads the current entry only, answers. *)
Example current_context_without_the_list :
  SampleKube.getAvailableContexts SampleKube.oneBare
  = Js.Rejected
      "Failed to parse kubeconfig: Cannot read properties of undefined (reading 'cluster')"
  /\ SampleKube.getCurrentContextInfo SampleKube.oneBare
     = Js.Resolved
         (Some {| ContextInfo.name := Some (SampleKube.Text "dev");
                  ContextInfo.cluster := Some (SampleKube.Text "c1");
                  ContextInfo.user := Some (SampleKube.Text "alice");
                  ContextInfo.namespace := None;
                  ContextInfo.isCurrent := true |}).
Proof. split; reflexivity. Qed.

(** ** Running [jq] *)

Section JqRun.

Context {Json : Type}.
Variable parse : string -> Js.Settled (option Json).

Lemma append_empty (a : string) : (a ++ "")%string = a.
Proof. induction a as [|c a IH]; simpl; [reflexivity|]. now rewrite IH. Qed.

Lemma jq_outputs (before : list Jq.Event) :
  forall process : Jq.Process,
    forallb Notions.jqOutput before = true ->
    fold_left (Jq.onEvent parse) before process =
    {| Jq.output := (Jq.output process ++ Notions.jqStdout before)%string;
       Jq.errorOutput := (Jq.errorOutput process ++ Notions.jqStderr before)%string;
       Jq.promise := Jq.promise process |}.
Proof.
  induction before as [|event before IH]; intros process Hquiet.
  - cbn [fold_left Notions.jqStdout Notions.jqStderr].
    rewrite !append_empty. now destruct process.
  - cbn [forallb] in Hquiet. apply andb_true_iff in Hquiet as [Hevent Hquiet].
    cbn [fold_left]. rewrite (IH _ Hquiet).
    destruct event as [data|data|code|message]; try discriminate;
      cbn [Jq.onEvent Jq.output Jq.errorOutput Jq.promise
           Notions.jqStdout Notions.jqStderr];
      now rewrite append_assoc.
Qed.

Lemma onSuccess_settles (out : string) (promise : Js.Promise (list Json)) :
  Jq.onSuccess parse out promise <> Js.Pending
  /\ (promise <> Js.Pending -> Jq.onSuccess parse out promise = promise).
Proof.
  unfold Jq.onSuccess.
  destruct (negb (Js.truthy (Js.trim out))).
  - destruct promise; split; try discriminate; reflexivity || congruence.
  - destruct (List.filter _ _) as [|line lines].
    + destruct promise; split; try discriminate; reflexivity || congruence.
    + destruct (Jq.parseLines parse (line :: lines));
        destruct promise; split; try discriminate; reflexivity || congruence.
Qed.

Lemma jq_step_settles (process : Jq.Process) (event : Jq.Event) :
  (Jq.promise process <> Js.Pending ->
   Jq.promise (Jq.onEvent parse process event) = Jq.promise process)
  /\ (Notions.jqOutput event = false ->
      Jq.promise (Jq.onEvent parse process event) <> Js.Pending).
Proof.
  destruct event as [data|data|code|message];
    cbn [Jq.onEvent Jq.promise Notions.jqOutput];
    (split; [intros Hset|intros Hdec]); try reflexivity; try discriminate.
  - destruct (code =? 0); [now apply onSuccess_settles|].
    destruct (Jq.promise process); congruence || reflexivity.
  - destruct (code =? 0); [apply onSuccess_settles|].
    destruct (Jq.promise process); discriminate.
  - destruct (Jq.promise process); congruence || reflexivity.
  - destruct (Jq.promise process); discriminate.
Qed.

Lemma jq_settled_stays (events : list Jq.Event) :
  forall process : Jq.Process,
    Jq.promise process <> Js.Pending ->
    Jq.promise (fold_left (Jq.onEvent parse) events process) = Jq.promise process.
Proof.
  induction events as [|event events IH]; intros process Hset; [reflexivity|].
  cbn [fold_left]. destruct (jq_step_settles process event) as [Hkeep _].
  rewrite IH; [now apply Hkeep|]. now rewrite (Hkeep Hset).
Qed.

(** The first event that is not output decides, on the output gathered
    before it. *)
Lemma jq_first_decides (before after : list Jq.Event) (event : Jq.Event) :
  forallb Notions.jqOutput before = true ->
  Notions.jqOutput event = false ->
  Jq.promise
    (fold_left (Jq.onEvent parse) (before ++ event :: after) Jq.started) =
  Jq.promise
    (Jq.onEvent parse
       {| Jq.output := Notions.jqStdout before;
          Jq.errorOutput := Notions.jqStderr before;
          Jq.promise := Js.Pending |} event).
Proof.
  intros Hquiet Hdec. rewrite fold_left_app. cbn [fold_left].
  rewrite (jq_outputs before Jq.started Hquiet).
  cbn [Jq.started Jq.output Jq.errorOutput Jq.promise String.append].
  apply jq_settled_stays. now apply jq_step_settles.
Qed.

Lemma quiet_or_decided (events : list Jq.Event) :
  forallb Notions.jqOutput events = true
  \/ exists before event after,
       events = before ++ event :: after
       /\ forallb Notions.jqOutput before = true
       /\ Notions.jqOutput event = false.
Proof.
  induction events as [|event events IH]; [now left|].
  destruct (Notions.jqOutput event) eqn:E.
  - destruct IH as [IH|(before & e & after & -> & Hq & He)].
    + left. cbn [forallb]. now rewrite E, IH.
    + right. exists (event :: before), e, after. cbn [forallb app].
      now rewrite E, Hq.
  - right. exists [], event, events. auto.
Qed.

End JqRun.

(** X20.  [executeJqFilter] rejects at once, with the message thrown,
    when [spawn] itself throws.  Otherwise it settles on the first exit
    or failure of [jq], with the output gathered until then, and
    whatever follows is ignored.  There is no timer: the promise stays
    pending exactly when [jq] has started and only writes.  A failure
    to start that the process reports rejects with its message after
    Failed to execute JQ, an exit code other than 0 rejects with what
    was written to the error stream, and an exit with code 0 after
    blank output resolves to the empty list. *)
Theorem jq_settles_on_its_first_exit {Json : Type}
    (parse : string -> Js.Settled (option Json))
    (stringify : list FlowLog.t -> string)
    (spawn : list string -> string -> Jq.Launch)
    (logs : list FlowLog.t) (filter : string) :
  let launch := spawn ["-c"; filter] (stringify logs) in
  let result := Jq.executeJqFilter parse stringify spawn logs filter in
  (forall message, launch = Jq.Throws message -> result = Js.Broken message)
  /\ (result = Js.Pending <->
      exists events,
        launch = Jq.Started events /\ forallb Notions.jqOutput events = true)
  /\ (forall before event after,
        launch = Jq.Started (before ++ event :: after) ->
        forallb Notions.jqOutput before = true ->
        match event with
        | Jq.Error message =>
            result = Js.Broken ("Failed to execute JQ: " ++ message)
        | Jq.Close code =>
            if code =? 0 then
              result = Jq.onSuccess parse (Notions.jqStdout before) Js.Pending
              /\ (Js.trim (Notions.jqStdout before) = "" -> result = Js.Fulfilled [])
            else
              result = Js.Broken ("JQ filter failed: " ++ Notions.jqStderr before)
        | _ => True
        end).
Proof.
  intros launch result. subst result launch. unfold Jq.executeJqFilter.
  split; [|split].
  - now intros message ->.
  - destruct (spawn _ _) as [message|events]; split.
    + discriminate.
    + intros (events & E & _). discriminate.
    + intros Hpending. exists events. split; [reflexivity|].
      destruct (quiet_or_decided events)
        as [Hq|(before & event & after & E & Hq & He)]; [exact Hq|].
      rewrite E, (jq_first_decides parse before after event Hq He) in Hpending.
      now apply (jq_step_settles parse) in Hpending.
    + intros (events' & [= <-] & Hq).
      now rewrite (jq_outputs parse events Jq.started Hq).
  - intros before event after -> Hq.
    destruct event as [data|data|code|message]; try exact I.
    + rewrite (jq_first_decides parse before after (Jq.Close code) Hq eq_refl).
      cbn [Jq.onEvent Jq.promise Jq.output Jq.errorOutput].
      destruct (code =? 0); [|reflexivity].
      split; [reflexivity|]. intros Hblank. unfold Jq.onSuccess.
      now rewrite Hblank.
    + now rewrite (jq_first_decides parse before after (Jq.Error message) Hq eq_refl).
Qed.

(** ** The promise of the port-forward *)

Lemma forward_undecided (before : list PortForward.Event) :
  forall state : PortForward.State,
    forallb Notions.undecided before = true ->
    fold_left PortForward.onEvent before state =
    {| PortForward.errorOutput :=
         (PortForward.errorOutput state ++ Notions.forwardStderr before)%string;
       PortForward.resolved := PortForward.resolved state;
       PortForward.running := PortForward.running state;
       PortForward.promise := PortForward.promise state |}.
Proof.
  induction before as [|event before IH]; intros state Hq.
  - cbn [fold_left Notions.forwardStderr]. rewrite append_empty. now destruct state.
  - cbn [forallb] in Hq. apply andb_true_iff in Hq as [He Hq].
    cbn [fold_left]. rewrite (IH _ Hq).
    destruct event as [data|data|message|code]; try discriminate;
      cbn [Notions.undecided] in He; cbn [PortForward.onEvent Notions.forwardStderr].
    + reflexivity.
    + apply negb_true_iff in He. rewrite He.
      cbn [PortForward.errorOutput PortForward.resolved PortForward.running
           PortForward.promise].
      now rewrite append_assoc.
Qed.

(** Once the promise is settled, nothing changes it: neither an event
    nor the timer. *)
Lemma forward_step_keeps (state : PortForward.State) (event : PortForward.Event) :
  PortForward.promise state <> Js.Pending ->
  PortForward.promise (PortForward.onEvent state event) = PortForward.promise state.
Proof.
  intros Hset.
  destruct event as [data|data|message|code]; cbn [PortForward.onEvent].
  - reflexivity.
  - destruct (Js.includes "Forwarding from" data); cbn [PortForward.promise];
      [|reflexivity].
    destruct (negb (PortForward.resolved state)); [|reflexivity].
    destruct (PortForward.promise state); congruence || reflexivity.
  - cbn [PortForward.promise].
    destruct (negb (PortForward.resolved state)); [|reflexivity].
    destruct (PortForward.promise state); congruence || reflexivity.
  - cbn [PortForward.promise].
    destruct (negb (PortForward.resolved state)); [|reflexivity].
    destruct (PortForward.promise state); congruence || reflexivity.
Qed.

Lemma forward_settled_stays (events : list PortForward.Event) (pid : bool) :
  forall state : PortForward.State,
    PortForward.promise state <> Js.Pending ->
    PortForward.promise
      (PortForward.onTimer pid (fold_left PortForward.onEvent events state))
    = PortForward.promise state.
Proof.
  induction events as [|event events IH]; intros state Hset.
  - cbn [fold_left]. unfold PortForward.onTimer.
    destruct (PortForward.running state && pid && negb (PortForward.resolved state));
      cbn [PortForward.promise].
    + destruct (PortForward.promise state); congruence || reflexivity.
    + destruct (negb (PortForward.resolved state)); cbn [PortForward.promise];
        [|reflexivity].
      destruct (PortForward.promise state); congruence || reflexivity.
  - cbn [fold_left]. rewrite IH; [now apply forward_step_keeps|].
    now rewrite forward_step_keeps.
Qed.

Lemma forward_quiet_or_decided (events : list PortForward.Event) :
  forallb Notions.undecided events = true
  \/ exists before event after,
       events = before ++ event :: after
       /\ forallb Notions.undecided before = true
       /\ Notions.undecided event = false.
Proof.
  induction events as [|event events IH]; [now left|].
  destruct (Notions.undecided event) eqn:E.
  - destruct IH as [IH|(before & e & after & -> & Hq & He)].
    + left. cbn [forallb]. now rewrite E, IH.
    + right. exists (event :: before), e, after. cbn [forallb app].
      now rewrite E, Hq.
  - right. exists [], event, events. auto.
Qed.

(** X21.  The promise of the port-forward is always settled when the
    five-second timer has fired, and by whichever comes first: the
    words "Forwarding from" on the error stream fulfil it; a failure to
    start, or an exit, rejects it, the exit with what the error stream
    held until then; and the timer, when nothing has decided before it,
    takes a process that has a pid to be forwarding and fulfils the
    promise.  What follows the first of these has no effect. *)
Theorem port_forward_settles_on_the_first_sign (pid : bool)
    (events : list PortForward.Event) :
  let result := PortForward.established pid events in
  result <> Js.Pending
  /\ (forallb Notions.undecided events = true ->
      result = if pid then Js.Fulfilled tt
               else Js.Broken PortForward.timeoutMessage)
  /\ (forall before event after,
        events = before ++ event :: after ->
        forallb Notions.undecided before = true ->
        match event with
        | PortForward.Stdout _ => True
        | PortForward.Stderr output =>
            Js.includes "Forwarding from" output = true ->
            result = Js.Fulfilled tt
        | PortForward.Error message =>
            result = Js.Broken ("Failed to start port-forward: " ++ message)
        | PortForward.Close code =>
            result =
            Js.Broken
              (PortForward.closeMessage code (Notions.forwardStderr before))
        end).
Proof.
  intros result. subst result. unfold PortForward.established.
  assert (Hquiet : forallb Notions.undecided events = true ->
                   PortForward.promise
                     (PortForward.onTimer pid
                        (fold_left PortForward.onEvent events PortForward.started))
                   = if pid then Js.Fulfilled tt
                     else Js.Broken PortForward.timeoutMessage).
  { intros Hq. rewrite (forward_undecided events _ Hq).
    unfold PortForward.onTimer. cbn [PortForward.started PortForward.running
      PortForward.resolved PortForward.promise PortForward.errorOutput andb negb].
    now destruct pid. }
  assert (Hfirst : forall before event after,
             events = before ++ event :: after ->
             forallb Notions.undecided before = true ->
             Notions.undecided event = false ->
             PortForward.promise
               (PortForward.onTimer pid
                  (fold_left PortForward.onEvent events PortForward.started))
             = PortForward.promise
                 (PortForward.onEvent
                    {| PortForward.errorOutput := Notions.forwardStderr before;
                       PortForward.resolved := false;
                       PortForward.running := true;
                       PortForward.promise := Js.Pending |} event)
             /\ PortForward.promise
                  (PortForward.onEvent
                     {| PortForward.errorOutput := Notions.forwardStderr before;
                        PortForward.resolved := false;
                        PortForward.running := true;
                        PortForward.promise := Js.Pending |} event)
                <> Js.Pending).
  { intros before event after -> Hq He. rewrite fold_left_app. cbn [fold_left].
    rewrite (forward_undecided before _ Hq).
    cbn [PortForward.started PortForward.errorOutput PortForward.resolved
         PortForward.running PortForward.promise String.append].
    assert (Hset : PortForward.promise
                     (PortForward.onEvent
                        {| PortForward.errorOutput := Notions.forwardStderr before;
                           PortForward.resolved := false;
                           PortForward.running := true;
                           PortForward.promise := Js.Pending |} event)
                   <> Js.Pending).
    { destruct event as [data|data|message|code]; cbn [Notions.undecided] in He;
        try discriminate; cbn [PortForward.onEvent].
      apply negb_false_iff in He. rewrite He. discriminate. }
    split; [|exact Hset]. now apply forward_settled_stays. }
  split; [|split].
  - destruct (forward_quiet_or_decided events)
      as [Hq|(before & event & after & E & Hq & He)].
    + rewrite (Hquiet Hq). now destruct pid.
    + destruct (Hfirst before event after E Hq He) as [-> Hset]. exact Hset.
  - exact Hquiet.
  - intros before event after E Hq.
    destruct event as [data|data|message|code]; [exact I| | |].
    + intros Hinc.
      destruct (Hfirst before (PortForward.Stderr data) after E Hq) as [-> _].
      * cbn [Notions.undecided]. now rewrite Hinc.
      * cbn [PortForward.onEvent]. now rewrite Hinc.
    + now destruct (Hfirst before (PortForward.Error message) after E Hq eq_refl)
        as [-> _].
    + now destruct (Hfirst before (PortForward.Close code) after E Hq eq_refl)
        as [-> _].
Qed.
